(* ===================================================================== *)
(* sesh: GitHub source of the session directory.                         *)
(*                                                                       *)
(* A shallow embedding of the remote-repository part of sesh             *)
(*   model/github.go      configuration and repository records           *)
(*   github/shorthand.go  owner/repo shorthand and URL recognition       *)
(*   github/cache.go      per-scope TTL file cache                       *)
(*   github/client.go     the client over the hosting provider           *)
(*   lister/github.go     multi-scope fetch and catalog construction     *)
(*   package connector    githubStrategy, clone on connect               *)
(* followed by the vocabulary of the statements and by the properties    *)
(* proved about the embedding.                                           *)
(* ===================================================================== *)

From Stdlib Require Import ZArith Ascii String List Bool Lia.
From stdpp Require Import base option list gmap strings fin_maps fin_sets.

(* String literals are Go strings, [+:+] is their concatenation and [++] is
   list append. *)
Local Open Scope list_scope.
Local Open Scope stdpp_scope.

(* --------------------------------------------------------------------- *)
(* Go strings package                                                     *)
(* --------------------------------------------------------------------- *)

(** strings.HasPrefix(s, prefix) *)
Definition strings_HasPrefix (s pre : string) : bool := String.prefix pre s.

(** strings.Contains(s, substr): substr occurs at some offset of s *)
Fixpoint strings_Contains (s substr : string) : bool :=
  if String.prefix substr s then true
  else match s with
       | EmptyString => false
       | String _ s' => strings_Contains s' substr
       end.

(** strings.Split(s, sep) for a one-byte separator (the source only splits
    on a single space): all fields between separators, so that an empty
    input gives one empty field and adjacent separators give empty fields. *)
Fixpoint strings_Split (s : string) (sep : ascii) : list string :=
  match s with
  | EmptyString => [EmptyString]
  | String c s' =>
      if Ascii.eqb c sep then EmptyString :: strings_Split s' sep
      else match strings_Split s' sep with
           | [] => [String c EmptyString]
           | p :: ps => String c p :: ps
           end
  end.

(** Go indexing parts[i] on a slice already known to be long enough. *)
Definition index (parts : list string) (i : nat) : string := nth i parts "".

(* --------------------------------------------------------------------- *)
(* model/github.go                                                        *)
(* --------------------------------------------------------------------- *)

Record GitHubRepo := {
  repo_ID : Z;
  repo_Name : string;
  repo_FullName : string;
  repo_Description : string;
  repo_CloneURL : string;
  repo_SSHURL : string;
  repo_HTMLURL : string;
  repo_Private : bool;
  repo_Fork : bool;
  repo_Archived : bool;
  repo_Disabled : bool;
  repo_Language : string;
  repo_UpdatedAt : string;
  repo_PushedAt : string;
  repo_Topics : list string
}.

Record GitHubOrgConfig := {
  org_Name : string;
  org_DisplayName : string;
  org_Token : string
}.

Record GitHubConfig := {
  Organization : string;                     (* deprecated single scope *)
  Organizations : list GitHubOrgConfig;
  Token : string;
  CacheTimeout : Z;                          (* minutes, a Go int *)
  CloneDir : string;
  UseSSH : bool;
  IncludePersonal : bool;
  ShowUncloned : option bool;                (* *bool, nil when unset *)
  ShowDescription : option bool
}.

(** time.Time as the instant it denotes, in nanoseconds. *)
Definition Time := Z.

Record GitHubCache := {
  Repos : list GitHubRepo;
  CachedAt : Time;
  ExpiresAt : Time
}.

#[global] Instance GitHubRepo_eq_dec : EqDecision GitHubRepo.
Proof. solve_decision. Defined.
#[global] Instance GitHubOrgConfig_eq_dec : EqDecision GitHubOrgConfig.
Proof. solve_decision. Defined.
#[global] Instance GitHubCache_eq_dec : EqDecision GitHubCache.
Proof. solve_decision. Defined.

(** The [for _, org := range orgs { if org.Name == name { found = true; break } }]
    scan of GetOrganizations. *)
Definition org_found (name : string) (orgs : list GitHubOrgConfig) : bool :=
  existsb (fun org => String.eqb (org_Name org) name) orgs.

Definition GetOrganizations (c : GitHubConfig) : list GitHubOrgConfig :=
  let orgs := [] ++ Organizations c in
  if negb (String.eqb (Organization c) "") then
    if negb (org_found (Organization c) orgs) then
      let legacyOrg := {| org_Name := Organization c;
                          org_DisplayName := Organization c;
                          org_Token := Token c |} in
      orgs ++ [legacyOrg]
    else orgs
  else orgs.

(** The first organization entry with this name and a non-empty token. *)
Fixpoint org_specific_token (orgs : list GitHubOrgConfig) (orgName : string)
  : option string :=
  match orgs with
  | [] => None
  | org :: rest =>
      if String.eqb (org_Name org) orgName && negb (String.eqb (org_Token org) "")
      then Some (org_Token org)
      else org_specific_token rest orgName
  end.

(** GetTokenForOrg; [getenv] is the value of os.Getenv("GITHUB_TOKEN"). *)
Definition GetTokenForOrg (c : GitHubConfig) (getenv : string) (orgName : string)
  : string :=
  match org_specific_token (Organizations c) orgName with
  | Some t => t
  | None => if negb (String.eqb (Token c) "") then Token c else getenv
  end.

Definition ShouldShowDescription (c : GitHubConfig) : bool :=
  match ShowDescription c with
  | None => true
  | Some b => b
  end.

Definition ShouldShowUncloned (c : GitHubConfig) : bool :=
  match ShowUncloned c with
  | None => true
  | Some b => b
  end.

(* --------------------------------------------------------------------- *)
(* Go errors and results                                                  *)
(* --------------------------------------------------------------------- *)

(** A Go error, as the text its Error() method returns. *)
Definition error := string.

(** The (value, error) pair a Go function returns: exactly one is set. *)
Inductive result (A : Type) : Type :=
| Ok (a : A)
| Err (e : error).
Arguments Ok {A} a.
Arguments Err {A} e.

(* --------------------------------------------------------------------- *)
(* Go regexp: the fragment used by github/shorthand.go                    *)
(* --------------------------------------------------------------------- *)

(** Items of a bracket expression such as [[a-zA-Z0-9._-]]. *)
Inductive bracket_item :=
| Range (lo hi : ascii)
| One (c : ascii).

Definition in_item (c : ascii) (it : bracket_item) : bool :=
  match it with
  | Range lo hi => (N_of_ascii lo <=? N_of_ascii c)%N && (N_of_ascii c <=? N_of_ascii hi)%N
  | One c' => Ascii.eqb c c'
  end.

Definition in_bracket (items : list bracket_item) (c : ascii) : bool :=
  existsb (in_item c) items.

(** Syntax of the patterns. [Plus] is applied to bracket expressions only,
    as both patterns of the source do; [Cap n] is the n-th capturing group
    and a non-capturing group [(?:r)] is [r] itself. *)
Inductive regex :=
| Eps                                   (* the empty pattern *)
| Bol                                   (* ^ *)
| Eol                                   (* $ *)
| Chr (c : ascii)                       (* a literal byte, escaped or not *)
| Bracket (items : list bracket_item)   (* [...] *)
| Plus (items : list bracket_item)      (* [...]+ *)
| Opt (r : regex)                       (* r? *)
| Cat (r1 r2 : regex)                   (* r1r2 *)
| Cap (n : nat) (r : regex).            (* (r) *)

(** A literal such as [github\.com/], one [Chr] per byte. *)
Fixpoint lit (s : string) : regex :=
  match s with
  | EmptyString => Eps
  | String c s' => Cat (Chr c) (lit s')
  end.

(** Concatenation of the parts of a pattern, left to right. *)
Definition Concat (rs : list regex) : regex := fold_right Cat Eps rs.

Definition captures := list (nat * list ascii).

(** Continuation of a match: position reached, input left, groups so far. *)
Definition cont := nat -> list ascii -> captures -> option (nat * captures).

(** Greedy repetition of a bracket expression, zero or more times: the
    longest run is tried first and given back one byte at a time
    (leftmost-first matching, as Go's regexp package documents). *)
Fixpoint star (items : list bracket_item) (pos : nat) (s : list ascii)
    (caps : captures) (k : cont) {struct s} : option (nat * captures) :=
  match s with
  | c :: s' =>
      if in_bracket items c then
        match star items (S pos) s' caps k with
        | Some m => Some m
        | None => k pos s caps
        end
      else k pos s caps
  | [] => k pos s caps
  end.

(** Backtracking matcher: [rx r pos s caps k] matches [r] at offset [pos],
    where [s] is the input from [pos] on, and continues with [k]. *)
Fixpoint rx (r : regex) (pos : nat) (s : list ascii) (caps : captures)
    (k : cont) {struct r} : option (nat * captures) :=
  match r with
  | Eps => k pos s caps
  | Bol => if Nat.eqb pos 0 then k pos s caps else None
  | Eol => match s with [] => k pos s caps | _ :: _ => None end
  | Chr c =>
      match s with
      | c' :: s' => if Ascii.eqb c' c then k (S pos) s' caps else None
      | [] => None
      end
  | Bracket items =>
      match s with
      | c' :: s' => if in_bracket items c' then k (S pos) s' caps else None
      | [] => None
      end
  | Plus items =>
      match s with
      | c' :: s' => if in_bracket items c' then star items (S pos) s' caps k else None
      | [] => None
      end
  | Opt r1 =>
      match rx r1 pos s caps k with
      | Some m => Some m
      | None => k pos s caps
      end
  | Cat r1 r2 => rx r1 pos s caps (fun pos' s' caps' => rx r2 pos' s' caps' k)
  | Cap n r1 =>
      rx r1 pos s caps
         (fun pos' s' caps' => k pos' s' ((n, take (pos' - pos) s) :: caps'))
  end.

(** The leftmost match: start offsets are tried in increasing order. *)
Fixpoint search (r : regex) (pos : nat) (s : list ascii) {struct s}
  : option (list ascii * captures) :=
  match rx r pos s [] (fun pos' _ caps => Some (pos', caps)) with
  | Some (pos', caps) => Some (take (pos' - pos) s, caps)
  | None =>
      match s with
      | [] => None
      | _ :: s' => search r (S pos) s'
      end
  end.

Fixpoint NumSubexp (r : regex) : nat :=
  match r with
  | Opt r1 => NumSubexp r1
  | Cat r1 r2 => NumSubexp r1 + NumSubexp r2
  | Cap _ r1 => S (NumSubexp r1)
  | _ => 0
  end.

(** Text of group [n]: its latest capture, empty when it took no part. *)
Fixpoint group (n : nat) (caps : captures) : string :=
  match caps with
  | [] => ""
  | (m, text) :: rest =>
      if Nat.eqb m n then string_of_list_ascii text else group n rest
  end.

(** re.FindStringSubmatch(input): nil without a match, otherwise the whole
    match followed by the text of each group. *)
Definition FindStringSubmatch (re : regex) (input : string) : list string :=
  match search re 0 (list_ascii_of_string input) with
  | None => []
  | Some (whole, caps) =>
      string_of_list_ascii whole
        :: map (fun n => group n caps) (seq 1 (NumSubexp re))
  end.

(** re.MatchString(input) *)
Definition MatchString (re : regex) (input : string) : bool :=
  match search re 0 (list_ascii_of_string input) with
  | None => false
  | Some _ => true
  end.

(* --------------------------------------------------------------------- *)
(* github/shorthand.go                                                    *)
(* --------------------------------------------------------------------- *)

(** [a-zA-Z0-9._-] *)
Definition name_chars : list bracket_item :=
  [Range "a" "z"; Range "A" "Z"; Range "0" "9"; One "."; One "_"; One "-"].

(** ^([a-zA-Z0-9._-]+)\/([a-zA-Z0-9._-]+)$ *)
Definition githubShorthandRegex : regex :=
  Concat [Bol; Cap 1 (Plus name_chars); Chr "/"; Cap 2 (Plus name_chars); Eol].

(** ^(?:https?://)?(?:www\.)?github\.com/([a-zA-Z0-9._-]+)/([a-zA-Z0-9._-]+)(?:\.git)?/?$ *)
Definition githubURLRegex : regex :=
  Concat [Bol;
          Opt (Concat [lit "http"; Opt (Chr "s"); lit "://"]);
          Opt (lit "www.");
          lit "github.com/";
          Cap 1 (Plus name_chars);
          Chr "/";
          Cap 2 (Plus name_chars);
          Opt (lit ".git");
          Opt (Chr "/");
          Eol].

Definition IsGitHubShorthand (input : string) : bool :=
  if MatchString githubShorthandRegex input then true
  else if MatchString githubURLRegex input then true
  else false.

Definition ExtractOrgAndRepo (input : string) : result (string * string) :=
  let matches := FindStringSubmatch githubShorthandRegex input in
  if Nat.eqb (length matches) 3 then Ok (index matches 1, index matches 2)
  else
    let matches := FindStringSubmatch githubURLRegex input in
    if Nat.eqb (length matches) 3 then Ok (index matches 1, index matches 2)
    else Err ("invalid GitHub shorthand format: " +:+ input).

Definition ConvertToURL (input : string) (config : GitHubConfig) : result string :=
  match ExtractOrgAndRepo input with
  | Err err => Err err
  | Ok (org, repo) =>
      if UseSSH config
      then Ok ("git@github.com:" +:+ org +:+ "/" +:+ repo +:+ ".git")
      else Ok ("https://github.com/" +:+ org +:+ "/" +:+ repo +:+ ".git")
  end.

(* --------------------------------------------------------------------- *)
(* The world around the program                                           *)
(* --------------------------------------------------------------------- *)

(** A node of the file system. [accessible] says whether this process may
    open the file; a file it creates is accessible. *)
Inductive node :=
| DirNode
| FileNode (accessible : bool) (data : string).

(** The errors of package os that the source can meet, with the text of
    their Error() method. *)
Inductive os_error := ENOENT | EACCES | EISDIR | ENOTDIR.

Definition os_error_text (e : os_error) : error :=
  match e with
  | ENOENT => "no such file or directory"
  | EACCES => "permission denied"
  | EISDIR => "is a directory"
  | ENOTDIR => "not a directory"
  end.

Definition os_IsNotExist (e : option os_error) : bool :=
  match e with
  | Some ENOENT => true
  | _ => false
  end.

(** Library functions the source calls and this development does not
    interpret: path manipulation of path/filepath and the codec of
    encoding/json for the cache document (None when it fails). *)
Class Platform := {
  filepath_Join : list string -> string;
  filepath_Dir : string -> string;
  filepath_Base : string -> string;
  json_MarshalIndent : GitHubCache -> option string;
  json_Unmarshal : string -> option GitHubCache
}.

(** One record of slog output: level and message. *)
Inductive slog_level := LevelDebug | LevelWarn | LevelError.
Definition slog_record : Type := slog_level * string.

(** Requests to the hosting provider's REST interface (go-github), each
    made with the token its client was built from ("" when
    unauthenticated). *)
Inductive endpoint :=
| ListByOrg (org : string)          (* Repositories.ListByOrg *)
| ListByUser (user : string)        (* Repositories.ListByUser *)
| ListOwned                         (* Repositories.List, affiliation owner *)
| GetUser.                          (* Users.Get of the authenticated user *)

Definition request : Type := string * endpoint.

(** An error response of the provider: HTTP status and Error() text. *)
Record provider_error := {
  StatusCode : Z;
  ErrorText : error
}.

(** The pages the provider serves for one listing, in order: a page with
    NextPage = 0 ends it, an error response aborts it. A listing has
    finitely many pages, so the page loop of the client ends. *)
Inductive listing :=
| LastPage (repos : list GitHubRepo)
| NextPage (repos : list GitHubRepo) (rest : listing)
| Failed (e : provider_error).

(** Everything outside the process that the source reads or changes. *)
Record World := {
  w_fs : gmap string node;                 (* the file system *)
  w_home : option string;                  (* os.UserHomeDir(), None on error *)
  w_GITHUB_TOKEN : string;                 (* os.Getenv("GITHUB_TOKEN") *)
  w_clock : nat -> Time;                   (* successive readings of time.Now() *)
  w_tick : nat;                            (* readings taken so far *)
  w_log : list slog_record;                (* slog output, oldest first *)
  w_requests : list request;               (* provider requests, oldest first *)
  (* the provider's answers, given the requests made before *)
  w_listing : list request -> request -> listing;
  w_user : list request -> string -> provider_error + option string
}.

Definition set_fs (fs : gmap string node) (w : World) : World :=
  {| w_fs := fs; w_home := w_home w; w_GITHUB_TOKEN := w_GITHUB_TOKEN w;
     w_clock := w_clock w; w_tick := w_tick w; w_log := w_log w;
     w_requests := w_requests w; w_listing := w_listing w; w_user := w_user w |}.

(** Effectful code: a function of the world that returns the world it leaves. *)
Definition M (A : Type) : Type := World -> A * World.

Definition ret {A} (a : A) : M A := fun w => (a, w).

Definition bind {A B} (m : M A) (k : A -> M B) : M B :=
  fun w => let (a, w') := m w in k a w'.

Declare Scope go_scope.
Delimit Scope go_scope with go.
Notation "x <- m ;; k" := (bind m (fun x => k))
  (at level 100, m at next level, right associativity) : go_scope.
Notation "m ;; k" := (bind m (fun _ => k))
  (at level 100, right associativity) : go_scope.
Local Open Scope go_scope.

(** Reading the world without changing it. *)
Definition gets {A} (f : World -> A) : M A := fun w => (f w, w).

Definition slog (level : slog_level) (msg : string) : M unit :=
  fun w =>
    (tt, {| w_fs := w_fs w; w_home := w_home w; w_GITHUB_TOKEN := w_GITHUB_TOKEN w;
            w_clock := w_clock w; w_tick := w_tick w;
            w_log := w_log w ++ [(level, msg)];
            w_requests := w_requests w; w_listing := w_listing w;
            w_user := w_user w |}).

(** time.Now(): the next reading of the clock. *)
Definition time_Now : M Time :=
  fun w =>
    (w_clock w (w_tick w),
     {| w_fs := w_fs w; w_home := w_home w; w_GITHUB_TOKEN := w_GITHUB_TOKEN w;
        w_clock := w_clock w; w_tick := S (w_tick w); w_log := w_log w;
        w_requests := w_requests w; w_listing := w_listing w;
        w_user := w_user w |}).

(** t.After(u) *)
Definition Time_After (t u : Time) : bool := (u <? t)%Z.

(** Go's int64 arithmetic wraps around. *)
Definition wrap64 (z : Z) : Z :=
  ((z + 2 ^ 63) mod 2 ^ 64 - 2 ^ 63)%Z.

(** time.Minute, in nanoseconds *)
Definition time_Minute : Z := 60000000000%Z.

(** time.Duration(n) * time.Minute, an int64 product *)
Definition minutes (n : Z) : Z := wrap64 (wrap64 n * time_Minute).

(** t.Add(d) *)
Definition Time_Add (t : Time) (d : Z) : Time := (t + d)%Z.

(** os.UserHomeDir() *)
Definition os_UserHomeDir : M (result string) :=
  gets (fun w => match w_home w with
                 | Some dir => Ok dir
                 | None => Err "$HOME is not defined"
                 end).

(** os.Getenv("GITHUB_TOKEN") *)
Definition os_Getenv_GITHUB_TOKEN : M string := gets w_GITHUB_TOKEN.

Section os.
Context `{Platform}.

(** os.Stat(name): only the error is used by the source. *)
Definition stat (fs : gmap string node) (name : string) : option os_error :=
  if String.eqb name "" then Some ENOENT
  else match fs !! name with
       | Some _ => None
       | None => Some ENOENT
       end.

Definition os_Stat (name : string) : M (option os_error) :=
  gets (fun w => stat (w_fs w) name).

(** os.ReadFile(name) *)
Definition os_ReadFile (name : string) : M (string + os_error) :=
  gets (fun w =>
    if String.eqb name "" then inr ENOENT
    else match w_fs w !! name with
         | Some (FileNode true data) => inl data
         | Some (FileNode false _) => inr EACCES
         | Some DirNode => inr EISDIR
         | None => inr ENOENT
         end).

(** os.MkdirAll(path, 0755): nothing to do for a directory, an error where
    a file is in the way; otherwise the missing parents are made first, the
    outermost first, and a file among them is the error; what was made
    before an error stays. The parent of a path is filepath.Dir of it, and a
    path that is its own parent (a root) has none. [fuel] bounds the number
    of parents by the length of the path, which filepath.Dir shortens at
    every step but at a root. *)
Fixpoint mkdir_all (fuel : nat) (fs : gmap string node) (path : string)
  : option os_error * gmap string node :=
  match fs !! path with
  | Some DirNode => (None, fs)
  | Some (FileNode _ _) => (Some ENOTDIR, fs)
  | None =>
      match fuel with
      | S fuel' =>
          if String.eqb (filepath_Dir path) path
          then (None, <[path := DirNode]> fs)
          else match mkdir_all fuel' fs (filepath_Dir path) with
               | (Some err, fs') => (Some err, fs')
               | (None, fs') => (None, <[path := DirNode]> fs')
               end
      | O => (None, <[path := DirNode]> fs)
      end
  end.

Definition os_MkdirAll (path : string) : M (option os_error) :=
  fun w =>
    if String.eqb path "" then (Some ENOENT, w)
    else let (err, fs) := mkdir_all (String.length path) (w_fs w) path in
         (err, set_fs fs w).

(** os.WriteFile(name, data, 0644): creates or truncates the file; the
    parent must be a directory. *)
Definition os_WriteFile (name : string) (data : string) : M (option os_error) :=
  fun w =>
    if String.eqb name "" then (Some ENOENT, w)
    else match w_fs w !! filepath_Dir name with
         | Some DirNode =>
             match w_fs w !! name with
             | Some DirNode => (Some EISDIR, w)
             | Some (FileNode false _) => (Some EACCES, w)
             | Some (FileNode true _) | None =>
                 (None, set_fs (<[name := FileNode true data]> (w_fs w)) w)
             end
         | Some (FileNode _ _) => (Some ENOTDIR, w)
         | None => (Some ENOENT, w)
         end.
End os.

(* --------------------------------------------------------------------- *)
(* github/cache.go                                                        *)
(* --------------------------------------------------------------------- *)

(** interface Cache *)
Record Cache := {
  cache_Get : string -> M (list GitHubRepo * bool);
  cache_Set : string -> list GitHubRepo -> Z -> M unit;
  cache_GetCachePath : M string
}.

Section RealCache.
Context `{Platform}.

Definition getCacheFilePath (org : string) : M string :=
  r <- os_UserHomeDir ;;
  match r with
  | Err err => slog LevelError "Failed to get home directory" ;; ret ""
  | Ok homeDir =>
      if String.eqb org ""
      then ret (filepath_Join [homeDir; ".cache"; "sesh"; "github"])
      else ret (filepath_Join [homeDir; ".cache"; "sesh"; "github"; org +:+ ".json"])
  end.

Definition RealCache_Get (org : string) : M (list GitHubRepo * bool) :=
  cachePath <- getCacheFilePath org ;;
  err <- os_Stat cachePath ;;
  if os_IsNotExist err then ret ([], false)
  else
    r <- os_ReadFile cachePath ;;
    match r with
    | inr err => slog LevelWarn "Failed to read cache file" ;; ret ([], false)
    | inl data =>
        match json_Unmarshal data with
        | None => slog LevelWarn "Failed to unmarshal cache" ;; ret ([], false)
        | Some cache =>
            now <- time_Now ;;
            if Time_After now (ExpiresAt cache)
            then slog LevelDebug "Cache expired" ;; ret ([], false)
            else slog LevelDebug "Cache hit" ;; ret (Repos cache, true)
        end
    end.

Definition RealCache_Set (org : string) (repos : list GitHubRepo) (timeout : Z)
  : M unit :=
  cachePath <- getCacheFilePath org ;;
  err <- os_MkdirAll (filepath_Dir cachePath) ;;
  match err with
  | Some err => slog LevelError "Failed to create cache directory"
  | None =>
      now <- time_Now ;;
      let cache := {| Repos := repos;
                      CachedAt := now;
                      ExpiresAt := Time_Add now (minutes timeout) |} in
      match json_MarshalIndent cache with
      | None => slog LevelError "Failed to marshal cache"
      | Some data =>
          err <- os_WriteFile cachePath data ;;
          match err with
          | Some err => slog LevelError "Failed to write cache file"
          | None => slog LevelDebug "Cache updated"
          end
      end
  end.

Definition RealCache_GetCachePath : M string := getCacheFilePath "".

Definition RealCache : Cache :=
  {| cache_Get := RealCache_Get;
     cache_Set := RealCache_Set;
     cache_GetCachePath := RealCache_GetCachePath |}.
End RealCache.

(* --------------------------------------------------------------------- *)
(* github/client.go                                                       *)
(* --------------------------------------------------------------------- *)

(** interface Client *)
Record Client := {
  ListOrgRepos : string -> M (result (list GitHubRepo));
  ListOrgReposWithToken : string -> string -> M (result (list GitHubRepo));
  ListUserRepos : string -> M (result (list GitHubRepo));
  ListUserReposWithToken : string -> string -> M (result (list GitHubRepo));
  ListAuthenticatedUserReposWithToken : string -> M (result (list GitHubRepo));
  GetAuthenticatedUsername : string -> M (result string)
}.

(** A listing request of a go-github client built from [token]: the request
    is recorded, once for all its pages, and the provider answers with the
    pages. *)
Definition provider_list (token : string) (e : endpoint) : M listing :=
  fun w =>
    (w_listing w (w_requests w) (token, e),
     {| w_fs := w_fs w; w_home := w_home w; w_GITHUB_TOKEN := w_GITHUB_TOKEN w;
        w_clock := w_clock w; w_tick := w_tick w; w_log := w_log w;
        w_requests := w_requests w ++ [(token, e)];
        w_listing := w_listing w; w_user := w_user w |}).

(** client.Users.Get(ctx, ""): the error, or the user's Login (nil or set). *)
Definition provider_user (token : string) : M (provider_error + option string) :=
  fun w =>
    (w_user w (w_requests w) token,
     {| w_fs := w_fs w; w_home := w_home w; w_GITHUB_TOKEN := w_GITHUB_TOKEN w;
        w_clock := w_clock w; w_tick := w_tick w; w_log := w_log w;
        w_requests := w_requests w ++ [(token, GetUser)];
        w_listing := w_listing w; w_user := w_user w |}).

(** createGitHubClient(token): the token the returned client sends, "" for
    the unauthenticated client. *)
Definition createGitHubClient (token : string) : M string :=
  if String.eqb token "" then os_Getenv_GITHUB_TOKEN else ret token.

(** The page loop shared by the listing methods: pages accumulate in order
    until NextPage is 0; an error response ends the loop with the error
    wrapped by the caller's message. Repositories are taken as already
    converted by convertRepo. *)
Fixpoint all_pages (wrap : error -> error) (pages : listing)
    (allRepos : list GitHubRepo) : result (list GitHubRepo) :=
  match pages with
  | Failed err => Err (wrap (ErrorText err))
  | LastPage repos => Ok (allRepos ++ repos)
  | NextPage repos rest => all_pages wrap rest (allRepos ++ repos)
  end.

Definition RealClient_ListOrgReposWithToken (org token : string)
  : M (result (list GitHubRepo)) :=
  client <- createGitHubClient token ;;
  pages <- provider_list client (ListByOrg org) ;;
  ret (all_pages
         (fun err => "failed to list repositories for org " +:+ org +:+ ": " +:+ err)
         pages []).

Definition RealClient_ListAuthenticatedUserReposWithToken (token : string)
  : M (result (list GitHubRepo)) :=
  client <- createGitHubClient token ;;
  pages <- provider_list client ListOwned ;;
  ret (all_pages
         (fun err => "failed to list repositories for authenticated user: " +:+ err)
         pages []).

Definition RealClient_GetAuthenticatedUsername (token : string) : M (result string) :=
  client <- createGitHubClient token ;;
  r <- provider_user client ;;
  match r with
  | inl err => ret (Err ("failed to get authenticated user: " +:+ ErrorText err))
  | inr None => ret (Err "authenticated user login is nil")
  | inr (Some login) => ret (Ok login)
  end.

Definition RealClient_ListUserReposWithToken (username token : string)
  : M (result (list GitHubRepo)) :=
  client <- createGitHubClient token ;;
  isAuthenticatedUser <-
    (if negb (String.eqb token "") then
       r <- provider_user client ;;
       match r with
       | inr (Some login) => ret (String.eqb login username)
       | _ => ret false
       end
     else ret false) ;;
  if (isAuthenticatedUser : bool) then
    pages <- provider_list client ListOwned ;;
    ret (all_pages
           (fun err => "failed to list repositories for authenticated user "
                         +:+ username +:+ ": " +:+ err)
           pages [])
  else
    pages <- provider_list client (ListByUser username) ;;
    ret (all_pages
           (fun err => "failed to list repositories for user "
                         +:+ username +:+ ": " +:+ err)
           pages []).

Definition RealClient (defaultToken : string) : Client :=
  {| ListOrgRepos org := RealClient_ListOrgReposWithToken org defaultToken;
     ListOrgReposWithToken := RealClient_ListOrgReposWithToken;
     ListUserRepos username := RealClient_ListUserReposWithToken username defaultToken;
     ListUserReposWithToken := RealClient_ListUserReposWithToken;
     ListAuthenticatedUserReposWithToken :=
       RealClient_ListAuthenticatedUserReposWithToken;
     GetAuthenticatedUsername := RealClient_GetAuthenticatedUsername |}.

(* --------------------------------------------------------------------- *)
(* lister/github.go: RealGitHub                                           *)
(* --------------------------------------------------------------------- *)

(** interface GitHub *)
Record GitHub := {
  gh_ListRepos : string -> M (result (list GitHubRepo));
  gh_ListAllRepos : GitHubConfig -> M (result (gmap string (list GitHubRepo)));
  gh_ListAllReposWithRefresh :
    GitHubConfig -> bool -> M (result (gmap string (list GitHubRepo)));
  gh_GetAuthenticatedUsername : string -> M (result string)
}.

(** A [for ... range] loop whose body updates an accumulator. *)
Fixpoint range {A B} (body : B -> A -> M B) (l : list A) (acc : B) : M B :=
  match l with
  | [] => ret acc
  | x :: rest => acc' <- body acc x ;; range body rest acc'
  end.

(** config.GetTokenForOrg(orgName), which reads the environment. *)
Definition config_GetTokenForOrg (config : GitHubConfig) (orgName : string)
  : M string :=
  gets (fun w => GetTokenForOrg config (w_GITHUB_TOKEN w) orgName).

(** The timeout handed to the cache: 30 minutes when none is configured. *)
Definition cacheTimeout (config : GitHubConfig) : Z :=
  if Z.eqb (CacheTimeout config) 0 then 30%Z else CacheTimeout config.

Section RealGitHub.
Variable client : Client.
Variable cache : Cache.

Definition RealGitHub_ListRepos (org : string) : M (result (list GitHubRepo)) :=
  c <- cache_Get cache org ;;
  let (repos, found) := c in
  if (found : bool) then ret (Ok repos)
  else
    slog LevelDebug "Cache miss, fetching from GitHub API" ;;
    r <- ListOrgRepos client org ;;
    match r with
    | Err err => ret (Err ("failed to fetch repos from GitHub: " +:+ err))
    | Ok repos =>
        cache_Set cache org repos 30 ;;
        ret (Ok repos)
    end.

(** The part of the loop body after the cache has been consulted. *)
Definition fetch_scope (config : GitHubConfig)
    (results : gmap string (list GitHubRepo)) (orgConfig : GitHubOrgConfig)
  : M (gmap string (list GitHubRepo)) :=
  token <- config_GetTokenForOrg config (org_Name orgConfig) ;;
  r <- ListOrgReposWithToken client (org_Name orgConfig) token ;;
  match r with
  | Err err =>
      if strings_Contains err "404" then
        slog LevelDebug "Organization not found, trying user endpoint" ;;
        r <- ListUserReposWithToken client (org_Name orgConfig) token ;;
        match r with
        | Err err =>
            slog LevelError
              "Failed to fetch repos from GitHub (both org and user endpoints)" ;;
            ret results
        | Ok repos =>
            cache_Set cache (org_Name orgConfig) repos (cacheTimeout config) ;;
            ret (<[org_Name orgConfig := repos]> results)
        end
      else
        slog LevelError "Failed to fetch repos from GitHub" ;;
        ret results
  | Ok repos =>
      cache_Set cache (org_Name orgConfig) repos (cacheTimeout config) ;;
      ret (<[org_Name orgConfig := repos]> results)
  end.

(** The body of [for _, orgConfig := range orgs]. *)
Definition scope_body (config : GitHubConfig) (refresh : bool)
    (results : gmap string (list GitHubRepo)) (orgConfig : GitHubOrgConfig)
  : M (gmap string (list GitHubRepo)) :=
  if negb refresh then
    c <- cache_Get cache (org_Name orgConfig) ;;
    let (cachedRepos, found) := c in
    if (found : bool) then ret (<[org_Name orgConfig := cachedRepos]> results)
    else
      slog LevelDebug "Cache miss, fetching from GitHub API" ;;
      fetch_scope config results orgConfig
  else
    slog LevelDebug "Cache refresh requested, fetching from GitHub API" ;;
    fetch_scope config results orgConfig.

(** fetchPersonalRepos, then caching and recording the result. *)
Definition fetch_personal (config : GitHubConfig) (token username : string)
    (results : gmap string (list GitHubRepo))
  : M (gmap string (list GitHubRepo)) :=
  r <- ListAuthenticatedUserReposWithToken client token ;;
  match r with
  | Err err =>
      slog LevelError "Failed to fetch personal repos from GitHub" ;;
      ret results
  | Ok personalRepos =>
      cache_Set cache username personalRepos (cacheTimeout config) ;;
      ret (<[username := personalRepos]> results)
  end.

(** The [if config.IncludePersonal] block. *)
Definition personal_scope (config : GitHubConfig) (refresh : bool)
    (results : gmap string (list GitHubRepo))
  : M (gmap string (list GitHubRepo)) :=
  if IncludePersonal config then
    token <- config_GetTokenForOrg config "" ;;
    if negb (String.eqb token "") then
      r <- GetAuthenticatedUsername client token ;;
      match r with
      | Err err =>
          slog LevelError "Failed to get authenticated username for personal repos" ;;
          ret results
      | Ok username =>
          if negb refresh then
            c <- cache_Get cache username ;;
            let (cachedRepos, found) := c in
            if (found : bool) then ret (<[username := cachedRepos]> results)
            else
              slog LevelDebug "Cache miss, fetching personal repos from GitHub API" ;;
              fetch_personal config token username results
          else
            slog LevelDebug
              "Cache refresh requested, fetching personal repos from GitHub API" ;;
            fetch_personal config token username results
      end
    else ret results
  else ret results.

Definition RealGitHub_ListAllReposWithRefresh (config : GitHubConfig) (refresh : bool)
  : M (result (gmap string (list GitHubRepo))) :=
  let orgs := GetOrganizations config in
  results <- range (scope_body config refresh) orgs ∅ ;;
  results <- personal_scope config refresh results ;;
  ret (Ok results).

Definition RealGitHub_ListAllRepos (config : GitHubConfig)
  : M (result (gmap string (list GitHubRepo))) :=
  RealGitHub_ListAllReposWithRefresh config false.

Definition RealGitHub_GetAuthenticatedUsername (token : string) : M (result string) :=
  GetAuthenticatedUsername client token.

Definition NewGitHub : GitHub :=
  {| gh_ListRepos := RealGitHub_ListRepos;
     gh_ListAllRepos := RealGitHub_ListAllRepos;
     gh_ListAllReposWithRefresh := RealGitHub_ListAllReposWithRefresh;
     gh_GetAuthenticatedUsername := RealGitHub_GetAuthenticatedUsername |}.
End RealGitHub.

(* --------------------------------------------------------------------- *)
(* lister/github.go: listGitHub                                           *)
(* --------------------------------------------------------------------- *)

(** Modelled from the spec: model.SeshSession, whose declaration is not
    among the sources (section 3, Session). Only the fields the GitHub
    source assigns are kept; the others stay at their zero value there. *)
Record SeshSession := {
  Src : string;
  Name : string;
  Path : string;
  StartupCommand : string
}.

(** Modelled from the spec: model.SeshSessions, the catalog of section 3
    (SessionCatalog), whose declaration is not among the sources. *)
Record SeshSessions := {
  Directory : gmap string SeshSession;
  OrderedIndex : list string
}.

(** The fields of lister.ListOptions that the GitHub source reads. *)
Record ListOptions := {
  opt_GitHub : bool;
  opt_Refresh : bool
}.

(** The fields of RealLister that the GitHub source reads: l.config.GitHub
    and l.github. *)
Record RealLister := {
  l_config : GitHubConfig;
  l_github : GitHub
}.

(** s[n:] *)
Fixpoint string_drop (n : nat) (s : string) : string :=
  match n, s with
  | S n', String _ s' => string_drop n' s'
  | _, _ => s
  end.

Section listGitHub.
Context `{Platform}.

(** The body of [for _, repo := range repos], which the source has twice:
    for a configured scope ([displayName] its alias) and for the
    authenticated user ([displayName] and [scopeName] both the username).
    It reads the home directory and the file system of [w]. *)
Definition add_repo (w : World) (config : GitHubConfig)
    (displayName scopeName : string)
    (acc : list string * gmap string SeshSession) (repo : GitHubRepo)
  : list string * gmap string SeshSession :=
  let (orderedIndex, directory) := acc in
  if repo_Archived repo || repo_Disabled repo then acc
  else
    let name :=
      if negb (String.eqb (repo_Description repo) "") && ShouldShowDescription config
      then displayName +:+ "/" +:+ repo_Name repo
             +:+ " (" +:+ repo_Description repo +:+ ")"
      else displayName +:+ "/" +:+ repo_Name repo in
    let homeDir := match w_home w with Some dir => dir | None => "" end in
    let cloneDir :=
      if String.eqb (CloneDir config) "" then filepath_Join [homeDir; "git"]
      else if strings_HasPrefix (CloneDir config) "~/"
           then filepath_Join [homeDir; string_drop 2 (CloneDir config)]
           else CloneDir config in
    let clonePath := filepath_Join [cloneDir; "github.com"; scopeName; repo_Name repo] in
    let exists_ := match stat (w_fs w) clonePath with None => true | Some _ => false end in
    let path :=
      if exists_ then clonePath
      else if UseSSH config then repo_SSHURL repo else repo_CloneURL repo in
    if negb exists_ && negb (ShouldShowUncloned config) then acc
    else
      let key := "github:" +:+ scopeName +:+ "/" +:+ repo_Name repo in
      let session :=
        if negb exists_ then
          {| Src := "github"; Name := name; Path := clonePath;
             StartupCommand :=
               "git clone " +:+ path +:+ " " +:+ clonePath +:+ " && cd " +:+ clonePath |}
        else
          {| Src := "github"; Name := name; Path := path; StartupCommand := "" |} in
      (orderedIndex ++ [key], <[key := session]> directory).

(** The body of [for _, orgConfig := range orgs]. *)
Definition add_org (w : World) (config : GitHubConfig)
    (allRepos : gmap string (list GitHubRepo))
    (acc : list string * gmap string SeshSession) (orgConfig : GitHubOrgConfig)
  : list string * gmap string SeshSession :=
  match allRepos !! org_Name orgConfig with
  | None => acc
  | Some repos =>
      let displayName :=
        if String.eqb (org_DisplayName orgConfig) "" then org_Name orgConfig
        else org_DisplayName orgConfig in
      fold_left (add_repo w config displayName (org_Name orgConfig)) repos acc
  end.

Definition listGitHub (l : RealLister) (opts : ListOptions) : M (result SeshSessions) :=
  let config := l_config l in
  let orgs := GetOrganizations config in
  if Nat.eqb (length orgs) 0 then
    slog LevelDebug "No GitHub organizations configured, skipping GitHub repos" ;;
    ret (Ok {| Directory := ∅; OrderedIndex := [] |})
  else
    r <- gh_ListAllReposWithRefresh (l_github l) config (opt_Refresh opts) ;;
    match r with
    | Err err => ret (Err ("couldn't list GitHub repos: " +:+ err))
    | Ok allRepos =>
        acc <- gets (fun w => fold_left (add_org w config allRepos) orgs ([], ∅)) ;;
        acc <-
          (if IncludePersonal config then
             token <- config_GetTokenForOrg config "" ;;
             if negb (String.eqb token "") then
               r <- gh_GetAuthenticatedUsername (l_github l) token ;;
               match r with
               | Ok username =>
                   match allRepos !! username with
                   | Some personalRepos =>
                       gets (fun w =>
                               fold_left (add_repo w config username username)
                                 personalRepos acc)
                   | None => ret acc
                   end
               | Err _ => ret acc
               end
             else ret acc
           else ret acc) ;;
        ret (Ok {| Directory := snd acc; OrderedIndex := fst acc |})
    end.

(** The first session of the directory, in the order of [keys], whose
    display name is [name]. *)
Fixpoint find_named (directory : gmap string SeshSession) (keys : list string)
    (name : string) : option SeshSession :=
  match keys with
  | [] => None
  | key :: rest =>
      match directory !! key with
      | Some session =>
          if String.eqb (Name session) name then Some session
          else find_named directory rest name
      | None => find_named directory rest name
      end
  end.

(** FindGitHubSession. Go leaves the order in which [range] visits a map
    unspecified; the keys are visited here in the order of OrderedIndex,
    one of the orders Go may take. *)
Definition FindGitHubSession (l : RealLister) (name : string)
  : M (SeshSession * bool) :=
  let none := {| Src := ""; Name := ""; Path := ""; StartupCommand := "" |} in
  r <- listGitHub l {| opt_GitHub := true; opt_Refresh := false |} ;;
  match r with
  | Err err => ret (none, false)
  | Ok sessions =>
      match find_named (Directory sessions) (OrderedIndex sessions) name with
      | Some session => ret (session, true)
      | None =>
          match Directory sessions !! name with
          | Some session => ret (session, true)
          | None => ret (none, false)
          end
      end
  end.
End listGitHub.

(* --------------------------------------------------------------------- *)
(* connector/github.go: githubStrategy                                    *)
(* --------------------------------------------------------------------- *)

(** Modelled from the spec: model.Connection, whose declaration is not
    among the sources (section 4.6: found, the session, "new" and
    "register in recency index"). *)
Record Connection := {
  Found : bool;
  Session : SeshSession;
  New : bool;
  AddToZoxide : bool
}.

(** interface lister.Lister, the method the strategy calls *)
Record Lister := {
  lister_FindGitHubSession : string -> M (SeshSession * bool)
}.

(** interface git.Git, the method the strategy calls: Clone(url, cmdDir, dir) *)
Record Git := {
  git_Clone : string -> string -> string -> M (result string)
}.

Record RealConnector := {
  c_lister : Lister;
  c_git : Git
}.

Section githubStrategy.
Context `{Platform}.

Definition githubStrategy (c : RealConnector) (name : string) : M (result Connection) :=
  r <- lister_FindGitHubSession (c_lister c) name ;;
  let (session, exists_) := r in
  if negb exists_ then
    ret (Ok {| Found := false;
               Session := {| Src := ""; Name := ""; Path := ""; StartupCommand := "" |};
               New := false; AddToZoxide := false |})
  else
    let found (session : SeshSession) : M (result Connection) :=
      ret (Ok {| Found := true; Session := session;
                 New := true; AddToZoxide := true |}) in
    if negb (String.eqb (StartupCommand session) "")
       && strings_Contains (StartupCommand session) "git clone"
    then
      let parts := strings_Split (StartupCommand session) " " in
      if (4 <=? length parts)%nat
         && String.eqb (index parts 0) "git"
         && String.eqb (index parts 1) "clone"
      then
        let repoURL := index parts 2 in
        let clonePath := index parts 3 in
        let parentDir := filepath_Dir clonePath in
        err <- os_MkdirAll parentDir ;;
        match err with
        | Some err =>
            ret (Err ("failed to create parent directory: " +:+ os_error_text err))
        | None =>
            err <- os_Stat clonePath ;;
            r <- (if os_IsNotExist err
                  then git_Clone (c_git c) repoURL parentDir (filepath_Base clonePath)
                  else ret (Ok "")) ;;
            match r with
            | Err err => ret (Err ("failed to clone repository: " +:+ err))
            | Ok _ =>
                found {| Src := Src session; Name := Name session;
                         Path := clonePath; StartupCommand := "" |}
            end
        end
      else found session
    else found session.
End githubStrategy.


(* --------------------------------------------------------------------- *)
(* github/shorthand.go: GetClonePath, expandHome                          *)
(* --------------------------------------------------------------------- *)

(** strings.Replace(s, old, new, 1) for a one-byte [old]: the first
    occurrence is replaced, the rest of the text is kept. *)
Fixpoint strings_Replace_1 (s : string) (old : ascii) (new : string) : string :=
  match s with
  | EmptyString => EmptyString
  | String c s' =>
      if Ascii.eqb c old then new +:+ s'
      else String c (strings_Replace_1 s' old new)
  end.

(** expandHome expands ~ to the user home directory. *)
Definition expandHome (path : string) : M string :=
  if strings_HasPrefix path "~/" then
    r <- os_UserHomeDir ;;
    match r with
    | Ok homeDir => ret (strings_Replace_1 path "~" homeDir)
    | Err _ => ret path
    end
  else ret path.

(** GetClonePath determines where to clone the repository. *)
Definition GetClonePath (org repo : string) (config : GitHubConfig) : M string :=
  if negb (String.eqb (CloneDir config) "") then
    expandHome (CloneDir config +:+ "/github.com/" +:+ org +:+ "/" +:+ repo)
  else
    expandHome ("~/git/github.com/" +:+ org +:+ "/" +:+ repo).

(* --------------------------------------------------------------------- *)
(* cloner/cloner.go                                                       *)
(* --------------------------------------------------------------------- *)

(** s[:n] *)
Fixpoint string_take (n : nat) (s : string) : string :=
  match n, s with
  | S n', String c s' => String c (string_take n' s')
  | _, _ => EmptyString
  end.

(** strings.LastIndex(s, sep) for a one-byte separator: the offset of its
    last occurrence, -1 without one. *)
Fixpoint strings_LastIndex (s : string) (sep : ascii) : Z :=
  match s with
  | EmptyString => (-1)%Z
  | String c s' =>
      let i := strings_LastIndex s' sep in
      if (0 <=? i)%Z then (i + 1)%Z
      else if Ascii.eqb c sep then 0%Z else (-1)%Z
  end.

(** strings.HasSuffix(s, suffix) *)
Definition strings_HasSuffix (s suffix : string) : bool :=
  (String.length suffix <=? String.length s)%nat
  && String.eqb (string_drop (String.length s - String.length suffix) s) suffix.

(** strings.TrimSuffix(s, suffix): s without the suffix, once, if it ends
    with it. *)
Definition strings_TrimSuffix (s suffix : string) : string :=
  if strings_HasSuffix s suffix
  then string_take (String.length s - String.length suffix) s
  else s.

(** strings.Trim(s, cutset) for a one-byte cutset: the leading and the
    trailing occurrences of the byte are removed. *)
Fixpoint trim_left (s : string) (c : ascii) : string :=
  match s with
  | String x s' => if Ascii.eqb x c then trim_left s' c else s
  | EmptyString => EmptyString
  end.

Fixpoint trim_right (s : string) (c : ascii) : string :=
  match s with
  | EmptyString => EmptyString
  | String x s' =>
      match trim_right s' c with
      | EmptyString => if Ascii.eqb x c then EmptyString else String x EmptyString
      | t => String x t
      end
  end.

Definition strings_Trim (s : string) (c : ascii) : string :=
  trim_right (trim_left s c) c.

(** strings.Join(elems, sep) *)
Definition strings_Join (elems : list string) (sep : string) : string :=
  String.concat sep elems.

(** A Go call either returns or stops the program with a run-time panic
    (here: an index out of range). *)
Inductive outcome (A : Type) :=
| Returns (a : A)
| Panics.
Arguments Returns {A} a.
Arguments Panics {A}.

(** Modelled from the spec: model.GitCloneOptions, whose declaration is not
    among the sources (section 4.7: a repo reference and an optional
    destination override, the directory the command runs in and the leaf
    directory). *)
Record GitCloneOptions := {
  Repo : string;
  CmdDir : string;
  Dir : string
}.

(** interface connector.Connector, the method the cloner calls; the options
    it passes are the zero value model.ConnectOpts{}. *)
Record Connector := {
  Connect : string -> M (result string)
}.

(** The fields of RealCloner that Clone reads; of model.Config only the
    GitHub part. The shorthand converter is the one of github/shorthand.go. *)
Record RealCloner := {
  cl_connector : Connector;
  cl_git : Git;
  cl_config : GitHubConfig
}.

Definition getRepoName (url : string) : string :=
  let parts := strings_Split url "/" in
  let lastPart := List.last parts "" in
  strings_TrimSuffix lastPart ".git".

(** The copy of expandHome that cloner.go has as a method. *)
Definition RealCloner_expandHome (path : string) : M string :=
  if strings_HasPrefix path "~/" then
    r <- os_UserHomeDir ;;
    match r with
    | Ok homeDir => ret (strings_Replace_1 path "~" homeDir)
    | Err _ => ret path
    end
  else ret path.

(** Split clonePath into cmdDir and dir, which Clone does in both of its
    branches. *)
Definition split_clone_path (clonePath : string) (opts : GitCloneOptions)
  : GitCloneOptions :=
  let lastSlash := strings_LastIndex clonePath "/" in
  if (0 <? lastSlash)%Z then
    {| Repo := Repo opts;
       CmdDir := string_take (Z.to_nat lastSlash) clonePath;
       Dir := string_drop (Z.to_nat lastSlash + 1) clonePath |}
  else opts.

Section cloner.
Context `{Platform}.

(** os.Getwd(), of which the source drops the error: the working directory
    is not part of [World]. *)
Variable os_Getwd : M string.

(** net/url's Parse, which is outside the repository: the fields Host and
    Path of the parsed URL, or the error. *)
Variable url_Parse : string -> result (string * string).

Definition getPath (opts : GitCloneOptions) : M string :=
  path <- (if negb (String.eqb (CmdDir opts) "") then ret (CmdDir opts)
           else os_Getwd) ;;
  if negb (String.eqb (Dir opts) "") then ret (path +:+ "/" +:+ Dir opts)
  else ret (path +:+ "/" +:+ getRepoName (Repo opts)).

(** parseGitURL extracts domain, org, and repo from a git URL. *)
Definition parseGitURL (gitURL : string)
  : outcome (result (string * string * string)) :=
  if strings_HasPrefix gitURL "git@" then
    let parts := strings_Split gitURL ":" in
    if negb (Nat.eqb (length parts) 2) then
      Returns (Err "invalid SSH git URL format")
    else
      match strings_Split (index parts 0) "@" with
      | _ :: domain :: _ =>
          let pathParts :=
            strings_Split (strings_TrimSuffix (index parts 1) ".git") "/" in
          if (2 <=? length pathParts)%nat
          then Returns (Ok (domain, index pathParts 0, index pathParts 1))
          else Returns (Ok (domain, "", ""))
      | _ => Panics
      end
  else
    match url_Parse gitURL with
    | Err err => Returns (Err err)
    | Ok (host, path) =>
        let pathParts := strings_Split (strings_Trim path "/") "/" in
        if (2 <=? length pathParts)%nat
        then Returns (Ok (host, index pathParts 0,
                          strings_TrimSuffix (index pathParts 1) ".git"))
        else Returns (Ok (host, "", ""))
    end.

(** Clone up to the comment "Create parent directory if it doesn't exist":
    the URL to clone and the options with the destination filled in. *)
Definition resolve (c : RealCloner) (opts : GitCloneOptions)
  : M (outcome (result (string * GitCloneOptions))) :=
  let unspecified := String.eqb (CmdDir opts) "" && String.eqb (Dir opts) "" in
  if IsGitHubShorthand (Repo opts) then
    match ConvertToURL (Repo opts) (cl_config c) with
    | Err err => ret (Returns (Err err))
    | Ok repoURL =>
        if unspecified then
          match ExtractOrgAndRepo (Repo opts) with
          | Err err => ret (Returns (Err err))
          | Ok (org, repo) =>
              clonePath <- GetClonePath org repo (cl_config c) ;;
              ret (Returns (Ok (repoURL, split_clone_path clonePath opts)))
          end
        else ret (Returns (Ok (repoURL, opts)))
    end
  else
    let repoURL := Repo opts in
    if unspecified then
      match parseGitURL (Repo opts) with
      | Panics => ret Panics
      | Returns (Ok (domain, org, repo)) =>
          if negb (String.eqb domain "") && negb (String.eqb org "")
             && negb (String.eqb repo "")
          then
            let cloneDir :=
              if String.eqb (CloneDir (cl_config c)) "" then "~/git"
              else CloneDir (cl_config c) in
            cloneDir <- RealCloner_expandHome cloneDir ;;
            let clonePath := strings_Join [cloneDir; domain; org; repo] "/" in
            ret (Returns (Ok (repoURL, split_clone_path clonePath opts)))
          else ret (Returns (Ok (repoURL, opts)))
      | Returns (Err _) => ret (Returns (Ok (repoURL, opts)))
      end
    else ret (Returns (Ok (repoURL, opts))).

Definition Clone (c : RealCloner) (opts : GitCloneOptions)
  : M (outcome (result string)) :=
  r <- resolve c opts ;;
  match r with
  | Panics => ret Panics
  | Returns (Err err) => ret (Returns (Err err))
  | Returns (Ok (repoURL, opts)) =>
      err <- (if negb (String.eqb (CmdDir opts) "")
              then os_MkdirAll (CmdDir opts) else ret None) ;;
      match err with
      | Some err =>
          ret (Returns (Err ("failed to create directory " +:+ CmdDir opts
                               +:+ ": " +:+ os_error_text err)))
      | None =>
          r <- git_Clone (cl_git c) repoURL (CmdDir opts) (Dir opts) ;;
          match r with
          | Err err => ret (Returns (Err err))
          | Ok _ =>
              path <- getPath opts ;;
              r <- Connect (cl_connector c) path ;;
              match r with
              | Err err => ret (Returns (Err err))
              | Ok _ => ret (Returns (Ok path))
              end
          end
      end
  end.
End cloner.
(* ===================================================================== *)
(* Vocabulary of the statements and the inputs of the examples            *)
(* ===================================================================== *)

(* --------------------------------------------------------------------- *)
(* Scope lists                                                            *)
(* --------------------------------------------------------------------- *)

(** Number of entries of a scope list that carry a given name. *)
Definition count_name (name : string) (orgs : list GitHubOrgConfig) : nat :=
  length (List.filter (fun org => String.eqb (org_Name org) name) orgs).

Definition acme_org : GitHubOrgConfig :=
  {| org_Name := "acme"; org_DisplayName := "Acme Corp"; org_Token := "" |}.

Definition base_config : GitHubConfig :=
  {| Organization := ""; Organizations := []; Token := "";
     CacheTimeout := 0; CloneDir := ""; UseSSH := false;
     IncludePersonal := false; ShowUncloned := None; ShowDescription := None |}.

Definition legacy_acme_config (orgs : list GitHubOrgConfig) : GitHubConfig :=
  {| Organization := "acme"; Organizations := orgs; Token := "global-token";
     CacheTimeout := 0; CloneDir := ""; UseSSH := false;
     IncludePersonal := false; ShowUncloned := None; ShowDescription := None |}.

(* --------------------------------------------------------------------- *)
(* Shorthand and URL patterns                                             *)
(* --------------------------------------------------------------------- *)

(** An owner or repository name: non-empty, bytes of [a-zA-Z0-9._-] only. *)
Definition is_name (s : string) : bool :=
  negb (String.eqb s "")
  && forallb (in_bracket name_chars) (list_ascii_of_string s).

(** The spellings of the host part that githubURLRegex accepts. *)
Definition url_prefixes : list string :=
  ["github.com/"; "www.github.com/";
   "http://github.com/"; "http://www.github.com/";
   "https://github.com/"; "https://www.github.com/"].

(** Bytes of a text that are outside [a-zA-Z0-9._-]. *)
Definition foreign_bytes (s : list ascii) : nat :=
  length (List.filter (fun c => negb (in_bracket name_chars c)) s).

(** The final continuation of [search]: report where the match ended. *)
Definition accept : cont := fun pos' _ caps => Some (pos', caps).

(** githubURLRegex from its first capturing group on. *)
Definition url_tail : regex :=
  Concat [Cap 1 (Plus name_chars); Chr "/"; Cap 2 (Plus name_chars);
          Opt (lit ".git"); Opt (Chr "/"); Eol].

(** What may follow a maximal run of a bracket expression. *)
Definition run_ends (items : list bracket_item) (rest : list ascii) : Prop :=
  match rest with
  | [] => True
  | c :: _ => in_bracket items c = false
  end.

(* --------------------------------------------------------------------- *)
(* The cache                                                              *)
(* --------------------------------------------------------------------- *)

(** The file RealCache uses for a scope in a given world. *)
Definition cache_file `{Platform} (w : World) (org : string) : string :=
  fst (getCacheFilePath org w).

(** The instant the next time.Now() reports. *)
Definition next_reading (w : World) : Time := w_clock w (w_tick w).

(** The four ways in which a scope has no usable cache entry. *)
Inductive cache_miss `{Platform} (w : World) (org : string) : Prop :=
| miss_no_file :
    cache_file w org = "" \/ w_fs w !! cache_file w org = None ->
    cache_miss w org
| miss_unreadable data :
    w_fs w !! cache_file w org = Some (FileNode false data)
    \/ w_fs w !! cache_file w org = Some DirNode ->
    cache_miss w org
| miss_undecodable data :
    w_fs w !! cache_file w org = Some (FileNode true data) ->
    json_Unmarshal data = None ->
    cache_miss w org
| miss_expired data cache :
    w_fs w !! cache_file w org = Some (FileNode true data) ->
    json_Unmarshal data = Some cache ->
    (ExpiresAt cache < next_reading w)%Z ->
    cache_miss w org.

(** The largest timeout, in minutes, that time.Duration can hold. *)
Definition max_timeout_minutes : Z := 153722867%Z.

(** Set reported success: its last log record is "Cache updated". *)
Definition Set_succeeded (before after : World) : Prop :=
  exists l, w_log after = w_log before ++ l
            /\ last l = Some (LevelDebug, "Cache updated").

(* Paths of a Unix system, for the examples: they agree with path/filepath
   on clean paths. *)

(** The text before and after the last slash. *)
Fixpoint split_last_slash (s : string) : option (string * string) :=
  match s with
  | EmptyString => None
  | String c s' =>
      match split_last_slash s' with
      | Some (d, b) => Some (String c d, b)
      | None => if Ascii.eqb c "/" then Some (EmptyString, s') else None
      end
  end.

Definition unix_Dir (path : string) : string :=
  match split_last_slash path with
  | Some (EmptyString, _) => "/"
  | Some (d, _) => d
  | None => "."
  end.

Definition unix_Base (path : string) : string :=
  match split_last_slash path with
  | Some (_, b) => b
  | None => path
  end.

Fixpoint unix_Join (elems : list string) : string :=
  match elems with
  | [] => ""
  | e :: rest =>
      if String.eqb e "" then unix_Join rest
      else match unix_Join rest with
           | EmptyString => e
           | tail => e +:+ "/" +:+ tail
           end
  end.

(** A platform for the examples, whose codec knows one cache document. *)
Definition unix (doc : string) (entry : GitHubCache) : Platform :=
  {| filepath_Join := unix_Join;
     filepath_Dir := unix_Dir;
     filepath_Base := unix_Base;
     json_MarshalIndent c := if decide (c = entry) then Some doc else None;
     json_Unmarshal d := if String.eqb d doc then Some entry else None |}.

Definition widgets_repo : GitHubRepo :=
  {| repo_ID := 7; repo_Name := "widgets"; repo_FullName := "acme/widgets";
     repo_Description := "Widget factory";
     repo_CloneURL := "https://github.com/acme/widgets.git";
     repo_SSHURL := "git@github.com:acme/widgets.git";
     repo_HTMLURL := "https://github.com/acme/widgets";
     repo_Private := false; repo_Fork := false;
     repo_Archived := false; repo_Disabled := false;
     repo_Language := "Go";
     repo_UpdatedAt := "2024-05-01T10:00:00Z";
     repo_PushedAt := "2024-05-01T09:00:00Z";
     repo_Topics := ["cli"] |}.

(** A provider that knows nothing: every listing is empty, nobody is
    authenticated. *)
Definition quiet_world (fs : gmap string node) (clock : nat -> Time) : World :=
  {| w_fs := fs; w_home := Some "/home/u"; w_GITHUB_TOKEN := "";
     w_clock := clock; w_tick := 0; w_log := []; w_requests := [];
     w_listing := fun _ _ => LastPage [];
     w_user := fun _ _ => inr None |}.

(** An instant in 2024, in nanoseconds since the Unix epoch. *)
Definition t2024 : Time := 1714557600000000000%Z.

Definition acme_cache_file : string := "/home/u/.cache/sesh/github/acme.json".

(** A cache document for scope acme that expired at [t2024]. *)
Definition stale_entry : GitHubCache :=
  {| Repos := [widgets_repo]; CachedAt := (t2024 - 30 * time_Minute)%Z;
     ExpiresAt := t2024 |}.

Definition stale_world : World :=
  quiet_world {[ acme_cache_file := FileNode true "{stale}" ]}
              (fun _ => (t2024 + 1)%Z).

(** The entry that Set writes at [t2024] for a timeout in minutes. *)
Definition entry_at (now : Time) (repos : list GitHubRepo) (timeout : Z) : GitHubCache :=
  {| Repos := repos; CachedAt := now; ExpiresAt := Time_Add now (minutes timeout) |}.

Definition frozen_world : World := quiet_world ∅ (fun _ => t2024).

(** Two worlds that differ in the log only. *)
Definition same_but_log (w w' : World) : Prop :=
  w_fs w' = w_fs w /\ w_home w' = w_home w
  /\ w_GITHUB_TOKEN w' = w_GITHUB_TOKEN w
  /\ w_clock w' = w_clock w /\ w_tick w' = w_tick w
  /\ w_requests w' = w_requests w /\ w_listing w' = w_listing w
  /\ w_user w' = w_user w
  /\ exists l, w_log w' = w_log w ++ l.

(* --------------------------------------------------------------------- *)
(* The multi-scope fetch                                                  *)
(* --------------------------------------------------------------------- *)

Section adapter_vocabulary.
Variable client : Client.
Variable cache : Cache.
Variable config : GitHubConfig.
Variable refresh : bool.

(** A scope's fetch fails in world [w]: the cache gives nothing (or is
    bypassed), the organization endpoint answers with an error and, when the
    error text sends the code to the user endpoint, that one errors too. *)
Definition scope_failed (o : GitHubOrgConfig) (w : World) : Prop :=
  exists w1,
    (if refresh
     then w1 = snd (slog LevelDebug
                      "Cache refresh requested, fetching from GitHub API" w)
     else exists repos w',
            cache_Get cache (org_Name o) w = ((repos, false), w')
            /\ w1 = snd (slog LevelDebug "Cache miss, fetching from GitHub API" w'))
    /\ exists err w3,
         ListOrgReposWithToken client (org_Name o)
           (fst (config_GetTokenForOrg config (org_Name o) w1))
           (snd (config_GetTokenForOrg config (org_Name o) w1)) = (Err err, w3)
         /\ (strings_Contains err "404" = true ->
             exists err' w4,
               ListUserReposWithToken client (org_Name o)
                 (fst (config_GetTokenForOrg config (org_Name o) w1))
                 (snd (slog LevelDebug
                         "Organization not found, trying user endpoint" w3))
               = (Err err', w4)).

(** A scope's fetch succeeds in world [w] with [repos]: the cache holds them
    (and is consulted), or, the cache giving nothing or being bypassed, the
    organization endpoint answers with them, or it answers with an error
    whose text sends the code to the user endpoint and that one answers
    with them. *)
Definition scope_fetched (o : GitHubOrgConfig) (w : World)
    (repos : list GitHubRepo) : Prop :=
  (refresh = false
   /\ exists w', cache_Get cache (org_Name o) w = ((repos, true), w'))
  \/ exists w1,
       (if refresh
        then w1 = snd (slog LevelDebug
                         "Cache refresh requested, fetching from GitHub API" w)
        else exists cached w',
               cache_Get cache (org_Name o) w = ((cached, false), w')
               /\ w1 = snd (slog LevelDebug "Cache miss, fetching from GitHub API" w'))
       /\ ((exists w3,
              ListOrgReposWithToken client (org_Name o)
                (fst (config_GetTokenForOrg config (org_Name o) w1))
                (snd (config_GetTokenForOrg config (org_Name o) w1)) = (Ok repos, w3))
           \/ exists err w3,
                ListOrgReposWithToken client (org_Name o)
                  (fst (config_GetTokenForOrg config (org_Name o) w1))
                  (snd (config_GetTokenForOrg config (org_Name o) w1)) = (Err err, w3)
                /\ strings_Contains err "404" = true
                /\ exists w4,
                     ListUserReposWithToken client (org_Name o)
                       (fst (config_GetTokenForOrg config (org_Name o) w1))
                       (snd (slog LevelDebug
                               "Organization not found, trying user endpoint" w3))
                     = (Ok repos, w4)).

(** What the loop body obtains for a scope in world [w]: the repositories
    it stores under the scope's name when it starts from the empty map. *)
Definition scope_outcome (o : GitHubOrgConfig) (w : World)
  : option (list GitHubRepo) :=
  fst (scope_body client cache config refresh ∅ o w) !! org_Name o.

(** The outcomes of the scopes of a list, each in the world its
    predecessors left, in processing order. *)
Fixpoint loop_outcomes (orgs : list GitHubOrgConfig) (w : World)
  : list (string * option (list GitHubRepo)) :=
  match orgs with
  | [] => []
  | o :: rest =>
      (org_Name o, scope_outcome o w)
        :: loop_outcomes rest (snd (scope_body client cache config refresh ∅ o w))
  end.

(** The map the outcomes build: a success stores under its name, replacing
    what an earlier entry of that name stored; a failure stores nothing. *)
Definition store_outcome (m : gmap string (list GitHubRepo))
    (oc : string * option (list GitHubRepo)) : gmap string (list GitHubRepo) :=
  match snd oc with
  | Some repos => <[fst oc := repos]> m
  | None => m
  end.

Definition outcomes_map (outs : list (string * option (list GitHubRepo)))
  : gmap string (list GitHubRepo) :=
  fold_left store_outcome outs ∅.

(** What the personal-repository step stores after the loop over [orgs]. *)
Definition personal_stored (orgs : list GitHubOrgConfig) (w : World)
  : gmap string (list GitHubRepo) :=
  fst (personal_scope client cache config refresh ∅
         (snd (range (scope_body client cache config refresh) orgs ∅ w))).
End adapter_vocabulary.

(* Inputs of the examples. *)

Definition gadgets_repo : GitHubRepo :=
  {| repo_ID := 8; repo_Name := "gadgets"; repo_FullName := "beta/gadgets";
     repo_Description := "";
     repo_CloneURL := "https://github.com/beta/gadgets.git";
     repo_SSHURL := "git@github.com:beta/gadgets.git";
     repo_HTMLURL := "https://github.com/beta/gadgets";
     repo_Private := true; repo_Fork := false;
     repo_Archived := false; repo_Disabled := false;
     repo_Language := "";
     repo_UpdatedAt := "2024-04-01T10:00:00Z";
     repo_PushedAt := "2024-04-01T09:00:00Z";
     repo_Topics := [] |}.

Definition scope (name : string) : GitHubOrgConfig :=
  {| org_Name := name; org_DisplayName := ""; org_Token := "" |}.

(** Scopes alpha and beta, one global token. *)
Definition alpha_beta_config (personal : bool) : GitHubConfig :=
  {| Organization := ""; Organizations := [scope "alpha"; scope "beta"];
     Token := "t0ken"; CacheTimeout := 0; CloneDir := ""; UseSSH := false;
     IncludePersonal := personal; ShowUncloned := None; ShowDescription := None |}.

(** Whether the repositories of the authenticated user were asked for
    before. *)
Definition asked_owned (history : list request) : bool :=
  existsb (fun req => match snd req with ListOwned => true | _ => false end) history.

(** A provider where organization alpha has one repository and no other
    name is an organization (404); the token belongs to user beta, whose own
    repositories are served from the second request on, the first one
    meeting a gateway error. *)
Definition alpha_only_listing (history : list request) (req : request) : listing :=
  match snd req with
  | ListByOrg org =>
      if String.eqb org "alpha" then LastPage [widgets_repo]
      else Failed {| StatusCode := 404; ErrorText := "404 Not Found" |}
  | ListOwned =>
      if asked_owned history then LastPage [gadgets_repo]
      else Failed {| StatusCode := 502; ErrorText := "502 Bad Gateway" |}
  | _ => LastPage []
  end.

Definition alpha_only_world : World :=
  {| w_fs := ∅; w_home := Some "/home/u"; w_GITHUB_TOKEN := "";
     w_clock := fun _ => t2024; w_tick := 0; w_log := []; w_requests := [];
     w_listing := alpha_only_listing;
     w_user := fun _ _ => inr (Some "beta") |}.

(** The adapter as the program builds it, on the example platform. *)
Definition demo_github : GitHub :=
  NewGitHub (RealClient "") (@RealCache (unix "{}" stale_entry)).

Definition demo_ListAllReposWithRefresh :=
  RealGitHub_ListAllReposWithRefresh (RealClient "") (@RealCache (unix "{}" stale_entry)).

(* --------------------------------------------------------------------- *)
(* The catalog                                                            *)
(* --------------------------------------------------------------------- *)

(** The catalog key of a repository of a scope. *)
Definition key_of (scopeName : string) (repo : GitHubRepo) : string :=
  "github:" +:+ scopeName +:+ "/" +:+ repo_Name repo.

(** A repository is hidden when it is archived or disabled. *)
Definition hidden (repo : GitHubRepo) : bool :=
  repo_Archived repo || repo_Disabled repo.

(** A catalog key comes from a repository of the fetched map that is
    neither archived nor disabled. *)
Definition from_live_repo (allRepos : gmap string (list GitHubRepo))
    (key : string) : Prop :=
  exists scopeName repos repo,
    allRepos !! scopeName = Some repos
    /\ repo ∈ repos
    /\ repo_Archived repo = false
    /\ repo_Disabled repo = false
    /\ key = key_of scopeName repo.

(** The result map that a listing worked from, if it fetched one. *)
Definition fetched_by `{Platform} (l : RealLister) (opts : ListOptions) (w : World)
  : gmap string (list GitHubRepo) :=
  if Nat.eqb (length (GetOrganizations (l_config l))) 0 then ∅
  else match fst (gh_ListAllReposWithRefresh (l_github l) (l_config l)
                    (opt_Refresh opts) w) with
       | Ok allRepos => allRepos
       | Err _ => ∅
       end.

(** The name the personal-repository step of a listing works under, if it
    gets that far: the username the adapter reports for the global token in
    the world the fetch leaves. *)
Definition personal_name (l : RealLister) (opts : ListOptions) (w : World)
  : option string :=
  let config := l_config l in
  if Nat.eqb (length (GetOrganizations config)) 0 then None
  else
    let w1 := snd (gh_ListAllReposWithRefresh (l_github l) config
                     (opt_Refresh opts) w) in
    if IncludePersonal config then
      let token := GetTokenForOrg config (w_GITHUB_TOKEN w1) "" in
      if negb (String.eqb token "") then
        match fst (gh_GetAuthenticatedUsername (l_github l) token w1) with
        | Ok username => Some username
        | Err _ => None
        end
      else None
    else None.

(** A text without a slash. *)
Definition slash_free (s : string) : Prop :=
  ~ In "/"%char (list_ascii_of_string s).

(** Invariant of both loops: the directory holds exactly the keys of the
    index, and every key has property [P]. *)
Definition catalog_inv (P : string -> Prop)
    (acc : list string * gmap string SeshSession) : Prop :=
  dom (snd acc) = list_to_set (fst acc) /\ Forall P (fst acc).

(** The keys a scope can contribute: one per fetched repository. *)
Definition scope_keys (allRepos : gmap string (list GitHubRepo)) (scopeName : string)
  : list string :=
  match allRepos !! scopeName with
  | Some repos => map (key_of scopeName) repos
  | None => []
  end.

(* Inputs of the examples. *)

Definition attic_repo : GitHubRepo :=
  {| repo_ID := 9; repo_Name := "attic"; repo_FullName := "acme/attic";
     repo_Description := "Old things";
     repo_CloneURL := "https://github.com/acme/attic.git";
     repo_SSHURL := "git@github.com:acme/attic.git";
     repo_HTMLURL := "https://github.com/acme/attic";
     repo_Private := false; repo_Fork := false;
     repo_Archived := true; repo_Disabled := false;
     repo_Language := "";
     repo_UpdatedAt := "2019-04-01T10:00:00Z";
     repo_PushedAt := "2019-04-01T09:00:00Z";
     repo_Topics := [] |}.

Definition acme_config (cloneDir : string) : GitHubConfig :=
  {| Organization := ""; Organizations := [scope "acme"];
     Token := "t0ken"; CacheTimeout := 0; CloneDir := cloneDir; UseSSH := false;
     IncludePersonal := false; ShowUncloned := None; ShowDescription := None |}.

(** A world whose provider serves the given pages for organization acme. *)
Definition acme_world (pages : listing) : World :=
  {| w_fs := ∅; w_home := Some "/home/u"; w_GITHUB_TOKEN := "";
     w_clock := fun _ => t2024; w_tick := 0; w_log := []; w_requests := [];
     w_listing := fun _ req =>
       match snd req with
       | ListByOrg org => if String.eqb org "acme" then pages else LastPage []
       | _ => LastPage []
       end;
     w_user := fun _ _ => inr None |}.

Definition acme_lister (cloneDir : string) : RealLister :=
  {| l_config := acme_config cloneDir; l_github := demo_github |}.

Definition github_options : ListOptions :=
  {| opt_GitHub := true; opt_Refresh := false |}.

(** The catalog of a run, empty when the run failed. *)
Definition catalog_of (r : result SeshSessions) : SeshSessions :=
  match r with
  | Ok sessions => sessions
  | Err _ => {| Directory := ∅; OrderedIndex := [] |}
  end.

(** acme with a live and an archived repository. *)
Definition attic_world : World := acme_world (LastPage [widgets_repo; attic_repo]).

Definition attic_catalog : SeshSessions :=
  catalog_of (fst (@listGitHub (unix "{}" stale_entry) (acme_lister "")
                     github_options attic_world)).

(** acme while a repository is pushed between two page requests: it is
    served on both pages. *)
Definition moving_world : World :=
  acme_world (NextPage [widgets_repo] (LastPage [widgets_repo])).

Definition moving_catalog : SeshSessions :=
  catalog_of (fst (@listGitHub (unix "{}" stale_entry) (acme_lister "")
                     github_options moving_world)).


(** Scopes alpha (with an alias) and beta, and the personal repositories of
    the token's owner, carol. *)
Definition notes_repo : GitHubRepo :=
  {| repo_ID := 11; repo_Name := "notes"; repo_FullName := "carol/notes";
     repo_Description := "";
     repo_CloneURL := "https://github.com/carol/notes.git";
     repo_SSHURL := "git@github.com:carol/notes.git";
     repo_HTMLURL := "https://github.com/carol/notes";
     repo_Private := true; repo_Fork := false;
     repo_Archived := false; repo_Disabled := false;
     repo_Language := "";
     repo_UpdatedAt := "2024-03-01T10:00:00Z";
     repo_PushedAt := "2024-03-01T09:00:00Z";
     repo_Topics := [] |}.

Definition studio_config : GitHubConfig :=
  {| Organization := "";
     Organizations :=
       [ {| org_Name := "alpha"; org_DisplayName := "Alpha Team"; org_Token := "" |};
         scope "beta" ];
     Token := "t0ken"; CacheTimeout := 0; CloneDir := ""; UseSSH := true;
     IncludePersonal := true; ShowUncloned := None; ShowDescription := None |}.

Definition studio_world : World :=
  {| w_fs := ∅; w_home := Some "/home/u"; w_GITHUB_TOKEN := "";
     w_clock := fun _ => t2024; w_tick := 0; w_log := []; w_requests := [];
     w_listing := fun _ req =>
       match snd req with
       | ListByOrg org =>
           if String.eqb org "alpha" then LastPage [widgets_repo; attic_repo]
           else if String.eqb org "beta" then LastPage [gadgets_repo]
           else Failed {| StatusCode := 404; ErrorText := "404 Not Found" |}
       | ListOwned => LastPage [notes_repo]
       | _ => LastPage []
       end;
     w_user := fun _ _ => inr (Some "carol") |}.

Definition studio_lister : RealLister :=
  {| l_config := studio_config; l_github := demo_github |}.

Definition studio_catalog : SeshSessions :=
  catalog_of (fst (@listGitHub (unix "{}" stale_entry) studio_lister
                     github_options studio_world)).
(* --------------------------------------------------------------------- *)
(* The connector                                                          *)
(* --------------------------------------------------------------------- *)

(* Inputs of the examples. *)

(** A scope whose name contains the digits 404. *)
Definition team404_config : GitHubConfig :=
  {| Organization := ""; Organizations := [scope "team404"];
     Token := "t0ken"; CacheTimeout := 0; CloneDir := ""; UseSSH := false;
     IncludePersonal := false; ShowUncloned := None; ShowDescription := None |}.

Definition rate_limited : provider_error :=
  {| StatusCode := 403; ErrorText := "403 API rate limit exceeded" |}.

(** The organization endpoint is rate limited (HTTP 403); the user endpoint
    answers; the token belongs to somebody else. *)
Definition team404_world : World :=
  {| w_fs := ∅; w_home := Some "/home/u"; w_GITHUB_TOKEN := "";
     w_clock := fun _ => t2024; w_tick := 0; w_log := []; w_requests := [];
     w_listing := fun _ req =>
       match snd req with
       | ListByOrg _ => Failed rate_limited
       | ListByUser _ => LastPage [gadgets_repo]
       | _ => LastPage []
       end;
     w_user := fun _ _ => inr (Some "somebody") |}.

(** A git whose Clone(url, cmdDir, dir) creates cmdDir/dir. *)
Definition demo_git : Git :=
  {| git_Clone url cmdDir dir := fun w =>
       (Ok "", set_fs (<[cmdDir +:+ "/" +:+ dir := DirNode]> (w_fs w)) w) |}.

(** The connector over the lister of scope acme with the given clone_dir. *)
Definition acme_connector (cloneDir : string) : RealConnector :=
  {| c_lister :=
       {| lister_FindGitHubSession :=
            @FindGitHubSession (unix "{}" stale_entry) (acme_lister cloneDir) |};
     c_git := demo_git |}.

Definition spaced_clone_dir : string := "/home/u/my projects".

Definition spaced_target : string := "/home/u/my projects/github.com/acme/widgets".

(** A text without a space. *)
Definition space_free (s : string) : Prop :=
  ~ In " "%char (list_ascii_of_string s).

(** The startup command listGitHub attaches to a repository that is not
    cloned yet. *)
Definition clone_command (url path : string) : string :=
  "git clone " +:+ url +:+ " " +:+ path +:+ " && cd " +:+ path.


(* --------------------------------------------------------------------- *)
(* Clone destinations                                                     *)
(* --------------------------------------------------------------------- *)

(** A text without the byte [c]. *)
Definition byte_free (c : ascii) (s : string) : Prop :=
  ~ In c (list_ascii_of_string s).

(** The directory GetClonePath puts the host directories in, given the
    home directory if there is one: the configured clone directory, ~/git
    without one, a leading ~ replaced when a slash follows it. *)
Definition clone_root (config : GitHubConfig) (home : option string) : string :=
  let cloneDir := CloneDir config in
  match home with
  | Some homeDir =>
      if String.eqb cloneDir "" then homeDir +:+ "/git"
      else if String.eqb cloneDir "~" || strings_HasPrefix cloneDir "~/"
           then homeDir +:+ string_drop 1 cloneDir
           else cloneDir
  | None => if String.eqb cloneDir "" then "~/git" else cloneDir
  end.

(** The SSH spelling of a repository of any host. *)
Definition ssh_url (host org repo : string) : string :=
  "git@" +:+ host +:+ ":" +:+ org +:+ "/" +:+ repo +:+ ".git".

(** Clone options that leave the destination to the cloner. *)
Definition clone_of (repo : string) : GitCloneOptions :=
  {| Repo := repo; CmdDir := ""; Dir := "" |}.

(** A connector that attaches to every path. *)
Definition demo_connector : Connector :=
  {| Connect := fun path => ret (Ok path) |}.

Definition demo_cloner : RealCloner :=
  {| cl_connector := demo_connector; cl_git := demo_git; cl_config := base_config |}.

(** A working directory, and a URL parser that accepts nothing. *)
Definition demo_Getwd : M string := ret "/home/u/src".

Definition no_url_Parse (rawURL : string) : result (string * string) :=
  Err ("parse " +:+ rawURL +:+ ": invalid URI for request").

(** The home directory holds a file named occupied. *)
Definition occupied_world : World :=
  quiet_world {[ "/home/u/occupied" := FileNode true "" ]} (fun _ => t2024).

(** A URL parser that knows one URL. *)
Definition gitlab_url_Parse (rawURL : string) : result (string * string) :=
  if String.eqb rawURL "https://gitlab.com/team/app.git"
  then Ok ("gitlab.com", "/team/app.git")
  else no_url_Parse rawURL.

(** What is left of Clone once the parent directory is there: git clones
    the URL into the leaf directory of the parent, then the connector
    attaches to parent/leaf, which is the path returned. *)
Definition clone_and_attach (c : RealCloner) (url parent leaf : string)
  : M (outcome (result string)) :=
  r <- git_Clone (cl_git c) url parent leaf ;;
  match r with
  | Err err => ret (Returns (Err err))
  | Ok _ =>
      r <- Connect (cl_connector c) (parent +:+ "/" +:+ leaf) ;;
      match r with
      | Err err => ret (Returns (Err err))
      | Ok _ => ret (Returns (Ok (parent +:+ "/" +:+ leaf)))
      end
  end.

(* --------------------------------------------------------------------- *)
(* Tokens                                                                 *)
(* --------------------------------------------------------------------- *)

(** A scope with a token of its own. *)
Definition labs_org : GitHubOrgConfig :=
  {| org_Name := "labs"; org_DisplayName := "Labs"; org_Token := "labs-token" |}.

(** A later entry of the same name with another token. *)
Definition labs_spare_org : GitHubOrgConfig :=
  {| org_Name := "labs"; org_DisplayName := "Labs"; org_Token := "spare-token" |}.

(* --------------------------------------------------------------------- *)
(* Listings                                                               *)
(* --------------------------------------------------------------------- *)

(** The repositories of a listing whose pages all arrive, in page order;
    the error of the first page that fails otherwise. *)
Fixpoint pages_repos (pages : listing) : provider_error + list GitHubRepo :=
  match pages with
  | Failed e => inl e
  | LastPage repos => inr repos
  | NextPage repos rest =>
      match pages_repos rest with
      | inl e => inl e
      | inr more => inr (repos ++ more)
      end
  end.

(** The token a client built from [token] sends. *)
Definition sent_token (token : string) (w : World) : string :=
  if String.eqb token "" then w_GITHUB_TOKEN w else token.

(** Two worlds that differ in the recorded provider requests only. *)
Definition same_but_requests (w w' : World) : Prop :=
  w_fs w' = w_fs w /\ w_home w' = w_home w
  /\ w_GITHUB_TOKEN w' = w_GITHUB_TOKEN w
  /\ w_clock w' = w_clock w /\ w_tick w' = w_tick w
  /\ w_log w' = w_log w
  /\ w_listing w' = w_listing w /\ w_user w' = w_user w.

(* --------------------------------------------------------------------- *)
(* Catalog entries                                                        *)
(* --------------------------------------------------------------------- *)

(** The URL listGitHub puts in a clone command. *)
Definition url_of (config : GitHubConfig) (repo : GitHubRepo) : string :=
  if UseSSH config then repo_SSHURL repo else repo_CloneURL repo.

(** The display name of a repository under an alias. *)
Definition display_name (config : GitHubConfig) (alias : string) (repo : GitHubRepo)
  : string :=
  if negb (String.eqb (repo_Description repo) "") && ShouldShowDescription config
  then alias +:+ "/" +:+ repo_Name repo +:+ " (" +:+ repo_Description repo +:+ ")"
  else alias +:+ "/" +:+ repo_Name repo.

(** The alias listGitHub shows for a configured scope: its display name,
    or its name where that is empty. *)
Definition scope_display (orgConfig : GitHubOrgConfig) : string :=
  if String.eqb (org_DisplayName orgConfig) "" then org_Name orgConfig
  else org_DisplayName orgConfig.

(** The aliases a run of listGitHub uses for the repositories under a
    scope name: the alias of a configured scope of that name, or the name
    itself when it is the authenticated user of the personal step. *)
Definition scope_alias (l : RealLister) (opts : ListOptions) (w : World)
    (scopeName alias : string) : Prop :=
  (exists orgConfig,
      In orgConfig (GetOrganizations (l_config l))
      /\ org_Name orgConfig = scopeName
      /\ alias = scope_display orgConfig)
  \/ (personal_name l opts w = Some scopeName /\ alias = scopeName).

(** A session is either materialized (no startup command) or pending: its
    startup command clones the repository's URL into the session's path. *)
Definition session_of (config : GitHubConfig) (alias : string) (repo : GitHubRepo)
    (s : SeshSession) : Prop :=
  Src s = "github"
  /\ Name s = display_name config alias repo
  /\ (StartupCommand s = ""
      \/ (ShouldShowUncloned config = true
          /\ StartupCommand s = clone_command (url_of config repo) (Path s))).

(** A catalog entry made from a live repository of the fetched map, named
    under an alias of its scope. *)
Definition entry_of `{Platform} (l : RealLister) (opts : ListOptions) (w : World)
    (key : string) (s : SeshSession) : Prop :=
  exists scopeName alias repos repo,
    fetched_by l opts w !! scopeName = Some repos
    /\ repo ∈ repos
    /\ hidden repo = false
    /\ key = key_of scopeName repo
    /\ scope_alias l opts w scopeName alias
    /\ session_of (l_config l) alias repo s.

(** The lister interface over a RealLister. *)
Definition lister_of `{Platform} (l : RealLister) : Lister :=
  {| lister_FindGitHubSession := FindGitHubSession l |}.

(** The keys of the repositories of a scope that are neither archived nor
    disabled, in the order of the fetched list. *)
Definition live_keys (allRepos : gmap string (list GitHubRepo)) (scopeName : string)
  : list string :=
  match allRepos !! scopeName with
  | Some repos =>
      map (key_of scopeName) (List.filter (fun repo => negb (hidden repo)) repos)
  | None => []
  end.
(* ===================================================================== *)
(* Properties                                                             *)
(* ===================================================================== *)

(* --------------------------------------------------------------------- *)
(* GetOrganizations                                                       *)
(* --------------------------------------------------------------------- *)

Lemma org_found_count name orgs :
  org_found name orgs = negb (Nat.eqb (count_name name orgs) 0).
Proof.
  unfold org_found, count_name.
  induction orgs as [|o orgs IH]; simpl; [reflexivity|].
  destruct (String.eqb (org_Name o) name); simpl; [reflexivity | exact IH].
Qed.

Lemma count_name_app name l1 l2 :
  count_name name (l1 ++ l2) = count_name name l1 + count_name name l2.
Proof. unfold count_name. rewrite List.filter_app, length_app. reflexivity. Qed.

(** C6, as stated, fails: with the legacy name "acme" and a scope list that
    names "acme" twice, the legacy name is present in the list, yet
    GetOrganizations returns two entries of that name, not exactly one. *)
Lemma GetOrganizations_keeps_listed_duplicates :
  org_found "acme" (Organizations (legacy_acme_config [acme_org; acme_org])) = true
  /\ count_name "acme" (GetOrganizations (legacy_acme_config [acme_org; acme_org])) = 2
  /\ count_name "acme" (GetOrganizations (legacy_acme_config [acme_org; acme_org])) <> 1.
Proof. repeat split; vm_compute; congruence. Qed.

(** C6 (amended): for a non-empty legacy name, GetOrganizations never adds a
    second entry for a name the scope list already has: the list is returned
    unchanged, so it has exactly one entry of that name when the list names
    it once; when the list does not have the name, exactly one entry is
    appended, carrying the legacy name and the global token. *)
Theorem GetOrganizations_legacy_fold (c : GitHubConfig) :
  Organization c <> "" ->
  (org_found (Organization c) (Organizations c) = true ->
     GetOrganizations c = Organizations c
     /\ (count_name (Organization c) (Organizations c) = 1 ->
         count_name (Organization c) (GetOrganizations c) = 1))
  /\ (org_found (Organization c) (Organizations c) = false ->
     GetOrganizations c
       = Organizations c ++ [{| org_Name := Organization c;
                                org_DisplayName := Organization c;
                                org_Token := Token c |}]
     /\ count_name (Organization c) (GetOrganizations c) = 1).
Proof.
  intros Hne. unfold GetOrganizations. simpl.
  apply String.eqb_neq in Hne. rewrite Hne. simpl.
  split; intros Hf; rewrite Hf; simpl.
  - split; [reflexivity | tauto].
  - split; [reflexivity|].
    rewrite count_name_app.
    rewrite org_found_count in Hf.
    destruct (Nat.eqb_spec (count_name (Organization c) (Organizations c)) 0) as [E|E];
      [|discriminate].
    rewrite E. unfold count_name. simpl. rewrite String.eqb_refl. reflexivity.
Qed.

Lemma GetOrganizations_legacy_fold_witness :
  count_name "acme" (GetOrganizations (legacy_acme_config [acme_org])) = 1
  /\ count_name "acme" (GetOrganizations (legacy_acme_config [])) = 1.
Proof.
  split.
  - destruct (GetOrganizations_legacy_fold (legacy_acme_config [acme_org])) as [H _].
    + simpl. discriminate.
    + destruct H as [_ H]; [reflexivity|]. apply H. reflexivity.
  - destruct (GetOrganizations_legacy_fold (legacy_acme_config [])) as [_ H].
    + simpl. discriminate.
    + destruct H as [_ H]; [reflexivity|]. exact H.
Defined.
(* --------------------------------------------------------------------- *)
(* The matcher                                                            *)
(* --------------------------------------------------------------------- *)

Lemma list_ascii_of_string_app (a b : string) :
  list_ascii_of_string (a +:+ b) = list_ascii_of_string a ++ list_ascii_of_string b.
Proof. induction a as [|c a IH]; simpl; [reflexivity | by rewrite IH]. Qed.

Lemma star_greedy items w : forall rest pos caps (k : cont) m,
  forallb (in_bracket items) w = true ->
  run_ends items rest ->
  k (pos + length w) rest caps = Some m ->
  star items pos (w ++ rest) caps k = Some m.
Proof.
  induction w as [|c w IH]; intros rest pos caps k m Hw Hrest Hk.
  - simpl. rewrite Nat.add_0_r in Hk.
    destruct rest as [|c rest]; simpl; [exact Hk|].
    simpl in Hrest. rewrite Hrest. exact Hk.
  - simpl in Hw. apply andb_prop in Hw as [Hc Hw].
    simpl. rewrite Hc.
    rewrite (IH rest (S pos) caps k m); auto.
    rewrite <- Hk. f_equal. simpl. lia.
Qed.

Lemma star_sound items s : forall pos caps (k : cont) m,
  star items pos s caps k = Some m ->
  exists w rest, s = w ++ rest
    /\ forallb (in_bracket items) w = true
    /\ k (pos + length w) rest caps = Some m.
Proof.
  induction s as [|c s IH]; intros pos caps k m H; simpl in H.
  - exists [], []. rewrite Nat.add_0_r. auto.
  - destruct (in_bracket items c) eqn:Hc.
    + destruct (star items (S pos) s caps k) as [m'|] eqn:Hs.
      * inversion H; subst m'.
        destruct (IH _ _ _ _ Hs) as (w & rest & -> & Hw & Hk).
        exists (c :: w), rest. simpl. rewrite Hc, Hw. repeat split.
        rewrite <- Hk. f_equal. lia.
      * exists [], (c :: s). rewrite Nat.add_0_r. auto.
    + exists [], (c :: s). rewrite Nat.add_0_r. auto.
Qed.

(** A capturing group around [...]+ takes a maximal non-empty run. *)
Lemma rx_cap_plus_greedy n items w rest pos caps (k : cont) m :
  w <> [] ->
  forallb (in_bracket items) w = true ->
  run_ends items rest ->
  k (pos + length w) rest ((n, w) :: caps) = Some m ->
  rx (Cap n (Plus items)) pos (w ++ rest) caps k = Some m.
Proof.
  intros Hne Hw Hrest Hk.
  destruct w as [|c w]; [congruence|].
  simpl in Hw. apply andb_prop in Hw as [Hc Hw].
  simpl. rewrite Hc.
  apply star_greedy; auto. cbv beta.
  replace (S pos + length w - pos) with (S (length w)) by lia.
  rewrite firstn_cons, take_app_length.
  rewrite <- Hk. f_equal. simpl. lia.
Qed.

Lemma rx_cap_plus_sound n items s pos caps (k : cont) m :
  rx (Cap n (Plus items)) pos s caps k = Some m ->
  exists w rest, s = w ++ rest /\ w <> []
    /\ forallb (in_bracket items) w = true
    /\ k (pos + length w) rest ((n, w) :: caps) = Some m.
Proof.
  simpl. destruct s as [|c s]; [discriminate|].
  destruct (in_bracket items c) eqn:Hc; [|discriminate].
  intros H. apply star_sound in H as (w & rest & -> & Hw & Hk).
  exists (c :: w), rest. simpl. rewrite Hc, Hw. repeat split; [discriminate|].
  cbv beta in Hk.
  replace (S pos + length w - pos) with (S (length w)) in Hk by lia.
  rewrite firstn_cons, take_app_length in Hk.
  rewrite <- Hk. f_equal. lia.
Qed.

(** A pattern anchored by ^ matches at offset 0 or not at all. *)
Lemma search_anchored_later r s : forall pos,
  search (Cat Bol r) (S pos) s = None.
Proof.
  induction s as [|c s IH]; intros pos; simpl; [reflexivity | apply IH].
Qed.

Lemma search_anchored r s :
  search (Cat Bol r) 0 s =
    match rx r 0 s [] (fun pos' _ caps => Some (pos', caps)) with
    | Some (pos', caps) => Some (take pos' s, caps)
    | None => None
    end.
Proof.
  destruct s as [|c s]; simpl.
  - destruct (rx r 0 [] [] _) as [[pos' caps]|]; [|reflexivity].
    rewrite Nat.sub_0_r. reflexivity.
  - destruct (rx r 0 (c :: s) [] _) as [[pos' caps]|].
    + rewrite Nat.sub_0_r. reflexivity.
    + apply search_anchored_later.
Qed.

Lemma MatchString_FindStringSubmatch re input :
  MatchString re input = negb (Nat.eqb (length (FindStringSubmatch re input)) 0).
Proof.
  unfold MatchString, FindStringSubmatch.
  destruct (search re 0 (list_ascii_of_string input)) as [[whole caps]|]; reflexivity.
Qed.

Lemma FindStringSubmatch_nil re input :
  MatchString re input = false -> FindStringSubmatch re input = [].
Proof.
  unfold MatchString, FindStringSubmatch.
  destruct (search re 0 (list_ascii_of_string input)) as [[whole caps]|];
    [discriminate | reflexivity].
Qed.

(* --------------------------------------------------------------------- *)
(* Names                                                                  *)
(* --------------------------------------------------------------------- *)

Lemma is_name_bytes s :
  is_name s = true ->
  list_ascii_of_string s <> []
  /\ forallb (in_bracket name_chars) (list_ascii_of_string s) = true.
Proof.
  unfold is_name. intros H. apply andb_prop in H as [Hne Hall].
  split; [|exact Hall].
  destruct s; [discriminate | simpl; discriminate].
Qed.

Lemma foreign_bytes_app a b :
  foreign_bytes (a ++ b) = foreign_bytes a + foreign_bytes b.
Proof. unfold foreign_bytes. rewrite List.filter_app, length_app. reflexivity. Qed.

Lemma foreign_bytes_name w :
  forallb (in_bracket name_chars) w = true -> foreign_bytes w = 0.
Proof.
  unfold foreign_bytes. induction w as [|c w IH]; simpl; [reflexivity|].
  intros H. apply andb_prop in H as [Hc Hw]. rewrite Hc. simpl. auto.
Qed.

(* --------------------------------------------------------------------- *)
(* githubShorthandRegex and githubURLRegex                                *)
(* --------------------------------------------------------------------- *)

Lemma rx_cat a b p s c (k : cont) :
  rx (Cat a b) p s c k = rx a p s c (fun p' s' c' => rx b p' s' c' k).
Proof. reflexivity. Qed.

Lemma rx_chr ch p s c (k : cont) : rx (Chr ch) p (ch :: s) c k = k (S p) s c.
Proof. simpl. rewrite Ascii.eqb_refl. reflexivity. Qed.

Lemma rx_chr_sound ch p s c (k : cont) m :
  rx (Chr ch) p s c k = Some m -> exists s', s = ch :: s' /\ k (S p) s' c = Some m.
Proof.
  simpl. destruct s as [|c' s']; [discriminate|].
  destruct (Ascii.eqb_spec c' ch); [subst c' | discriminate]. eauto.
Qed.

Lemma rx_eol_sound p s c (k : cont) m :
  rx Eol p s c k = Some m -> s = [] /\ k p [] c = Some m.
Proof. simpl. destruct s; [auto | discriminate]. Qed.

Lemma shorthand_rx_match o r (k : cont) m :
  o <> [] -> r <> [] ->
  forallb (in_bracket name_chars) o = true ->
  forallb (in_bracket name_chars) r = true ->
  k (length o + 1 + length r) [] [(2, r); (1, o)] = Some m ->
  rx (Concat [Cap 1 (Plus name_chars); Chr "/"; Cap 2 (Plus name_chars); Eol])
     0 (o ++ "/"%char :: r) [] k = Some m.
Proof.
  intros Ho Hr Hoc Hrc Hk.
  unfold Concat. cbn [fold_right].
  rewrite rx_cat. apply rx_cap_plus_greedy; auto; [reflexivity|].
  rewrite rx_cat, rx_chr, rx_cat.
  rewrite <- (app_nil_r r) at 1.
  apply rx_cap_plus_greedy; auto; [exact I|].
  rewrite rx_cat. cbn [rx].
  rewrite <- Hk. f_equal. simpl. lia.
Qed.

Lemma shorthand_rx_sound s (k : cont) m :
  rx (Concat [Cap 1 (Plus name_chars); Chr "/"; Cap 2 (Plus name_chars); Eol])
     0 s [] k = Some m ->
  exists o r, s = o ++ "/"%char :: r /\ o <> [] /\ r <> []
    /\ forallb (in_bracket name_chars) o = true
    /\ forallb (in_bracket name_chars) r = true
    /\ k (length o + 1 + length r) [] [(2, r); (1, o)] = Some m.
Proof.
  unfold Concat. cbn [fold_right]. rewrite rx_cat. intros H.
  apply rx_cap_plus_sound in H as (o & rest & -> & Ho & Hoc & H).
  cbv beta in H. rewrite rx_cat in H.
  apply rx_chr_sound in H as (rest1 & -> & H).
  cbv beta in H. rewrite rx_cat in H.
  apply rx_cap_plus_sound in H as (r & rest' & -> & Hr & Hrc & H).
  cbv beta in H. rewrite rx_cat in H.
  apply rx_eol_sound in H as (-> & H). cbn [rx] in H.
  exists o, r. rewrite app_nil_r. repeat split; auto.
  rewrite <- H. f_equal. simpl. lia.
Qed.

(** Every text githubShorthandRegex matches has exactly one byte outside
    the name alphabet, its separating slash. *)
Lemma shorthand_match_one_foreign_byte s :
  search githubShorthandRegex 0 s <> None -> foreign_bytes s = 1.
Proof.
  unfold githubShorthandRegex. change (Concat (Bol :: ?l)) with (Cat Bol (Concat l)).
  rewrite search_anchored.
  destruct (rx _ 0 s [] _) as [m|] eqn:H; [|congruence].
  intros _. apply shorthand_rx_sound in H as (o & r & -> & _ & _ & Hoc & Hrc & _).
  rewrite foreign_bytes_app. change ("/"%char :: r) with (["/"%char] ++ r).
  rewrite foreign_bytes_app, (foreign_bytes_name o), (foreign_bytes_name r)
    by assumption.
  reflexivity.
Qed.

Lemma shorthand_search o r :
  o <> [] -> r <> [] ->
  forallb (in_bracket name_chars) o = true ->
  forallb (in_bracket name_chars) r = true ->
  search githubShorthandRegex 0 (o ++ "/"%char :: r)
    = Some (o ++ "/"%char :: r, [(2, r); (1, o)]).
Proof.
  intros Ho Hr Hoc Hrc.
  unfold githubShorthandRegex. change (Concat (Bol :: ?l)) with (Cat Bol (Concat l)).
  rewrite search_anchored.
  erewrite shorthand_rx_match; eauto. cbv beta iota.
  rewrite firstn_all2; [reflexivity|].
  rewrite length_app. simpl. lia.
Qed.

Lemma url_tail_match o r pos (k : cont) m :
  o <> [] -> r <> [] ->
  forallb (in_bracket name_chars) o = true ->
  forallb (in_bracket name_chars) r = true ->
  k (pos + length o + 1 + length r) [] [(2, r); (1, o)] = Some m ->
  rx url_tail pos (o ++ "/"%char :: r) [] k = Some m.
Proof.
  intros Ho Hr Hoc Hrc Hk.
  unfold url_tail, Concat. cbn [fold_right].
  rewrite rx_cat. apply rx_cap_plus_greedy; auto; [reflexivity|].
  rewrite rx_cat, rx_chr, rx_cat.
  rewrite <- (app_nil_r r) at 1.
  apply rx_cap_plus_greedy; auto; [exact I|].
  cbn. rewrite <- Hk. f_equal. lia.
Qed.

Lemma url_search pre o r :
  In pre url_prefixes ->
  o <> [] -> r <> [] ->
  forallb (in_bracket name_chars) o = true ->
  forallb (in_bracket name_chars) r = true ->
  search githubURLRegex 0 (list_ascii_of_string pre ++ o ++ "/"%char :: r)
    = Some (list_ascii_of_string pre ++ o ++ "/"%char :: r, [(2, r); (1, o)]).
Proof.
  intros Hpre Ho Hr Hoc Hrc.
  unfold githubURLRegex. change (Concat (Bol :: ?l)) with (Cat Bol (Concat l)).
  rewrite search_anchored.
  change (Concat [?a; ?b; ?c; ?d; ?e; ?f; ?g; ?h; ?i])
    with (Cat a (Cat b (Cat c url_tail))).
  assert (Hlen : forall n, n = length (list_ascii_of_string pre) ->
     rx url_tail n (o ++ "/"%char :: r) [] accept
       = Some (n + length o + 1 + length r, [(2, r); (1, o)])).
  { intros n _. apply url_tail_match; auto. }
  generalize dependent url_tail. intros tail Htail.
  simpl in Hpre.
  repeat (destruct Hpre as [<- | Hpre]); [.. | contradiction].
  all: cbn -[accept].
  all: fold accept.
  all: rewrite Htail by reflexivity.
  all: rewrite firstn_all2; [reflexivity|].
  all: simpl; rewrite length_app; simpl; lia.
Qed.

Lemma url_prefix_foreign pre :
  In pre url_prefixes -> 1 <= foreign_bytes (list_ascii_of_string pre).
Proof.
  simpl. intros H.
  repeat (destruct H as [<- | H]); [.. | contradiction]; vm_compute; lia.
Qed.

(** No spelling of the URL form is taken for the bare shorthand. *)
Lemma shorthand_rejects_url pre o r :
  In pre url_prefixes ->
  search githubShorthandRegex 0 (list_ascii_of_string pre ++ o ++ "/"%char :: r) = None.
Proof.
  intros Hpre.
  destruct (search _ 0 _) as [m|] eqn:H; [|reflexivity].
  assert (Hs : search githubShorthandRegex 0
                 (list_ascii_of_string pre ++ o ++ "/"%char :: r) <> None)
    by congruence.
  apply shorthand_match_one_foreign_byte in Hs.
  rewrite !foreign_bytes_app in Hs.
  change ("/"%char :: r) with (["/"%char] ++ r) in Hs.
  rewrite foreign_bytes_app in Hs.
  change (foreign_bytes ["/"%char]) with 1 in Hs.
  pose proof (url_prefix_foreign pre Hpre). lia.
Qed.

Lemma bytes_of_shorthand pre owner repo :
  list_ascii_of_string (pre +:+ owner +:+ "/" +:+ repo)
  = list_ascii_of_string pre ++ list_ascii_of_string owner
      ++ "/"%char :: list_ascii_of_string repo.
Proof. rewrite !list_ascii_of_string_app. reflexivity. Qed.

Lemma FindStringSubmatch_shorthand owner repo :
  is_name owner = true -> is_name repo = true ->
  FindStringSubmatch githubShorthandRegex (owner +:+ "/" +:+ repo)
  = [owner +:+ "/" +:+ repo; owner; repo].
Proof.
  intros Ho Hr.
  apply is_name_bytes in Ho as [Ho Hoc]. apply is_name_bytes in Hr as [Hr Hrc].
  unfold FindStringSubmatch.
  pose proof (bytes_of_shorthand "" owner repo) as E.
  change ("" +:+ owner +:+ "/" +:+ repo) with (owner +:+ "/" +:+ repo) in E.
  change (list_ascii_of_string "" ++ ?l) with l in E. rewrite E.
  rewrite shorthand_search by assumption.
  rewrite <- E, !string_of_list_ascii_of_string. simpl.
  rewrite !string_of_list_ascii_of_string. reflexivity.
Qed.

Lemma FindStringSubmatch_url pre owner repo :
  In pre url_prefixes ->
  is_name owner = true -> is_name repo = true ->
  FindStringSubmatch githubShorthandRegex (pre +:+ owner +:+ "/" +:+ repo) = []
  /\ FindStringSubmatch githubURLRegex (pre +:+ owner +:+ "/" +:+ repo)
     = [pre +:+ owner +:+ "/" +:+ repo; owner; repo].
Proof.
  intros Hpre Ho Hr.
  apply is_name_bytes in Ho as [Ho Hoc]. apply is_name_bytes in Hr as [Hr Hrc].
  unfold FindStringSubmatch.
  rewrite bytes_of_shorthand.
  rewrite shorthand_rejects_url by assumption.
  rewrite url_search by assumption.
  rewrite <- bytes_of_shorthand, !string_of_list_ascii_of_string. simpl.
  rewrite !string_of_list_ascii_of_string. auto.
Qed.

Lemma is_name_git repo : is_name repo = true -> is_name (repo +:+ ".git") = true.
Proof.
  unfold is_name. intros H. apply andb_prop in H as [Hne Hall].
  rewrite list_ascii_of_string_app, forallb_app, Hall.
  destruct repo; [discriminate | reflexivity].
Qed.

Lemma append_assoc (a b c : string) : (a +:+ b) +:+ c = a +:+ b +:+ c.
Proof.
  induction a as [|x a IH]; [reflexivity|].
  change (String x ((a +:+ b) +:+ c) = String x (a +:+ b +:+ c)). by rewrite IH.
Qed.

Lemma Extract_error_iff_unrecognised input :
  MatchString githubShorthandRegex input = false ->
  MatchString githubURLRegex input = false ->
  ExtractOrgAndRepo input = Err ("invalid GitHub shorthand format: " +:+ input).
Proof.
  intros H1 H2. unfold ExtractOrgAndRepo.
  rewrite (FindStringSubmatch_nil _ _ H1), (FindStringSubmatch_nil _ _ H2).
  reflexivity.
Qed.

(** C5: the bare shorthand and the un-suffixed github.com URL of the same
    owner and repository extract to the same pair, on the example
    acme/widgets and for all names over [a-zA-Z0-9._-] (with every spelling
    of the host part the URL pattern accepts); an input that matches neither
    pattern gives the invalid-format error. *)
Theorem ExtractOrgAndRepo_shorthand_url_equivalence (owner repo pre input : string) :
  is_name owner = true ->
  is_name repo = true ->
  In pre url_prefixes ->
  ExtractOrgAndRepo "acme/widgets" = Ok ("acme", "widgets")
  /\ ExtractOrgAndRepo "https://github.com/acme/widgets" = Ok ("acme", "widgets")
  /\ ExtractOrgAndRepo (owner +:+ "/" +:+ repo) = Ok (owner, repo)
  /\ ExtractOrgAndRepo ("https://github.com/" +:+ owner +:+ "/" +:+ repo)
       = Ok (owner, repo)
  /\ ExtractOrgAndRepo (pre +:+ owner +:+ "/" +:+ repo) = Ok (owner, repo)
  /\ (MatchString githubShorthandRegex input = false ->
      MatchString githubURLRegex input = false ->
      ExtractOrgAndRepo input = Err ("invalid GitHub shorthand format: " +:+ input)).
Proof.
  intros Ho Hr Hpre.
  assert (Hurl : forall p, In p url_prefixes ->
            ExtractOrgAndRepo (p +:+ owner +:+ "/" +:+ repo) = Ok (owner, repo)).
  { intros p Hp. unfold ExtractOrgAndRepo.
    destruct (FindStringSubmatch_url p owner repo Hp Ho Hr) as [-> ->].
    reflexivity. }
  split; [reflexivity|]. split; [reflexivity|].
  split.
  { unfold ExtractOrgAndRepo.
    rewrite (FindStringSubmatch_shorthand owner repo Ho Hr). reflexivity. }
  split; [apply Hurl; simpl; tauto|].
  split; [apply Hurl; exact Hpre|].
  apply Extract_error_iff_unrecognised.
Qed.

Lemma ExtractOrgAndRepo_shorthand_url_equivalence_witness :
  ExtractOrgAndRepo "kirksw/sesh" = Ok ("kirksw", "sesh")
  /\ ExtractOrgAndRepo "http://www.github.com/kirksw/sesh" = Ok ("kirksw", "sesh")
  /\ ExtractOrgAndRepo "acme/wid gets"
       = Err "invalid GitHub shorthand format: acme/wid gets".
Proof.
  destruct (ExtractOrgAndRepo_shorthand_url_equivalence
              "kirksw" "sesh" "http://www.github.com/" "acme/wid gets")
    as (_ & _ & H1 & _ & H2 & H3).
  - reflexivity.
  - reflexivity.
  - simpl. tauto.
  - split; [exact H1|]. split; [exact H2|].
    apply H3; reflexivity.
Defined.

(** C10: a github.com URL that ends in .git is recognised, but the greedy
    second group takes the suffix with it: the extracted repository still
    ends in .git, and ConvertToURL appends a second one. *)
Theorem git_suffixed_url_keeps_suffix (owner repo : string) (config : GitHubConfig) :
  is_name owner = true ->
  is_name repo = true ->
  IsGitHubShorthand ("https://github.com/" +:+ owner +:+ "/" +:+ repo +:+ ".git") = true
  /\ ExtractOrgAndRepo ("https://github.com/" +:+ owner +:+ "/" +:+ repo +:+ ".git")
       = Ok (owner, repo +:+ ".git")
  /\ ConvertToURL ("https://github.com/" +:+ owner +:+ "/" +:+ repo +:+ ".git") config
       = Ok ((if UseSSH config then "git@github.com:" else "https://github.com/")
               +:+ owner +:+ "/" +:+ repo +:+ ".git.git").
Proof.
  intros Ho Hr. pose proof (is_name_git repo Hr) as Hg.
  assert (Hp : In "https://github.com/" url_prefixes) by (simpl; tauto).
  destruct (FindStringSubmatch_url _ owner (repo +:+ ".git") Hp Ho Hg) as [E1 E2].
  assert (HE : ExtractOrgAndRepo
                 ("https://github.com/" +:+ owner +:+ "/" +:+ repo +:+ ".git")
               = Ok (owner, repo +:+ ".git")).
  { unfold ExtractOrgAndRepo. rewrite E1, E2. reflexivity. }
  split; [|split; [exact HE|]].
  - unfold IsGitHubShorthand.
    rewrite (MatchString_FindStringSubmatch githubURLRegex), E2.
    destruct (MatchString githubShorthandRegex _); reflexivity.
  - unfold ConvertToURL. rewrite HE.
    change ".git.git" with (".git" +:+ ".git").
    destruct (UseSSH config); f_equal;
      rewrite <- !append_assoc; reflexivity.
Qed.

Lemma git_suffixed_url_keeps_suffix_witness :
  ExtractOrgAndRepo "https://github.com/acme/widgets.git" = Ok ("acme", "widgets.git")
  /\ ConvertToURL "https://github.com/acme/widgets.git" base_config
       = Ok "https://github.com/acme/widgets.git.git".
Proof.
  destruct (git_suffixed_url_keeps_suffix "acme" "widgets" base_config)
    as (_ & H1 & H2); [reflexivity | reflexivity |].
  split; [exact H1 | exact H2].
Defined.
(* --------------------------------------------------------------------- *)
(* RealCache                                                              *)
(* --------------------------------------------------------------------- *)

Lemma same_but_log_refl w : same_but_log w w.
Proof. unfold same_but_log. repeat split; auto. exists []. by rewrite app_nil_r. Qed.

Lemma slog_same level msg w : same_but_log w (snd (slog level msg w)).
Proof. unfold same_but_log. simpl. repeat split; eauto. Qed.

Section RealCache_facts.
Context `{Platform}.

Lemma getCacheFilePath_frame org w :
  same_but_log w (snd (getCacheFilePath org w)).
Proof.
  unfold getCacheFilePath, bind, os_UserHomeDir, gets, ret.
  destruct (w_home w); simpl.
  - destruct (String.eqb org ""); apply same_but_log_refl.
  - apply slog_same.
Qed.

Ltac run_cache :=
  unfold bind, os_Stat, os_ReadFile, os_MkdirAll, os_WriteFile, gets, stat,
    ret, time_Now, slog, set_fs; simpl.

(** C2: a Get performed after the stored expires_at returns not-found even
    though the file exists and deserializes; so does a Get when the file is
    missing, cannot be read or cannot be deserialized. Get has no error
    result: each case is the pair (nil, false), and the file system is left
    as it was. *)
Theorem RealCache_Get_miss (w : World) (org : string) :
  cache_miss w org ->
  exists w', RealCache_Get org w = (([], false), w') /\ w_fs w' = w_fs w.
Proof.
  intros Hmiss.
  pose proof (getCacheFilePath_frame org w) as Hf.
  unfold RealCache_Get. unfold bind at 1.
  destruct Hmiss as [Hm | data Hm | data Hm Hj | data cache Hm Hj Hexp];
    unfold cache_file, next_reading in *;
    destruct (getCacheFilePath org w) as [path w0]; simpl in Hf;
    destruct Hf as (Hfs & _ & _ & Hclock & Htick & _ & _ & _ & l & Hlog);
    simpl in Hm; rewrite <- Hfs in Hm.
  - run_cache. destruct Hm as [-> | Hm]; [simpl; eauto|].
    destruct (String.eqb path ""); [simpl; eauto|].
    rewrite Hm. simpl. eauto.
  - run_cache. destruct (String.eqb path ""); [simpl; eauto|].
    destruct Hm as [Hm | Hm]; repeat (rewrite Hm; simpl);
      (eexists; split; [reflexivity | exact Hfs]).
  - run_cache. destruct (String.eqb path ""); [simpl; eauto|].
    repeat (rewrite Hm; simpl). rewrite Hj. simpl.
    eexists; split; [reflexivity | exact Hfs].
  - run_cache. destruct (String.eqb path ""); [simpl; eauto|].
    repeat (rewrite Hm; simpl). rewrite Hj. simpl.
    rewrite Hclock, Htick. unfold Time_After.
    apply Z.ltb_lt in Hexp. rewrite Hexp. simpl.
    eexists; split; [reflexivity | exact Hfs].
Qed.

Lemma RealCache_Get_hit w org data cache :
  cache_file w org <> "" ->
  w_fs w !! cache_file w org = Some (FileNode true data) ->
  json_Unmarshal data = Some cache ->
  (next_reading w <= ExpiresAt cache)%Z ->
  fst (RealCache_Get org w) = (Repos cache, true).
Proof.
  intros Hne Hm Hj Hexp.
  pose proof (getCacheFilePath_frame org w) as Hf.
  unfold RealCache_Get. unfold bind at 1.
  unfold cache_file, next_reading in *.
  destruct (getCacheFilePath org w) as [path w0]. simpl in Hf, Hne, Hm.
  destruct Hf as (Hfs & _ & _ & Hclock & Htick & _ & _ & _ & l & Hlog).
  rewrite <- Hfs in Hm.
  run_cache. apply String.eqb_neq in Hne. rewrite Hne. repeat (rewrite Hm; simpl).
  rewrite Hj. simpl. rewrite Hclock, Htick. unfold Time_After.
  apply Z.ltb_ge in Hexp. rewrite Hexp. reflexivity.
Qed.
Lemma cache_file_home w w' org :
  w_home w' = w_home w -> cache_file w' org = cache_file w org.
Proof.
  unfold cache_file, getCacheFilePath, bind, os_UserHomeDir, gets, ret.
  intros ->. destruct (w_home w); simpl; [|reflexivity].
  destruct (String.eqb org ""); reflexivity.
Qed.

Lemma not_reported_after_error (before : list slog_record) l0 level msg :
  level <> LevelDebug ->
  ~ (exists l, (before ++ l0) ++ [(level, msg)] = before ++ l
               /\ last l = Some (LevelDebug, "Cache updated")).
Proof.
  intros Hlevel (l & Hl & Hlast).
  rewrite <- app_assoc in Hl. apply app_inv_head in Hl. subst l.
  rewrite last_snoc in Hlast. congruence.
Qed.

Lemma os_MkdirAll_frame path w :
  w_home (snd (os_MkdirAll path w)) = w_home w
  /\ w_clock (snd (os_MkdirAll path w)) = w_clock w
  /\ w_tick (snd (os_MkdirAll path w)) = w_tick w
  /\ w_log (snd (os_MkdirAll path w)) = w_log w.
Proof.
  unfold os_MkdirAll. destruct (String.eqb path ""); [auto|].
  destruct (mkdir_all (String.length path) (w_fs w) path) as [err fs]. auto.
Qed.

Lemma os_WriteFile_inv name data w err w' :
  os_WriteFile name data w = (err, w') ->
  w_home w' = w_home w /\ w_clock w' = w_clock w
  /\ w_tick w' = w_tick w /\ w_log w' = w_log w
  /\ (err = None -> name <> "" /\ w_fs w' !! name = Some (FileNode true data)).
Proof.
  unfold os_WriteFile.
  destruct (String.eqb_spec name "") as [->|Hne].
  { intros [= <- <-]. repeat split; auto; discriminate. }
  destruct (w_fs w !! filepath_Dir name) as [[|]|];
    try (intros [= <- <-]; repeat split; auto; discriminate).
  destruct (w_fs w !! name) as [[|[|]]|];
    try (intros [= <- <-]; repeat split; auto; discriminate).
  all: intros [= <- <-]; simpl; repeat split; auto;
    apply lookup_insert_eq.
Qed.

(** What a successful Set leaves behind. *)
Lemma RealCache_Set_succeeded_inv w org repos timeout w1 :
  snd (RealCache_Set org repos timeout w) = w1 ->
  Set_succeeded w w1 ->
  exists data,
    cache_file w org <> ""
    /\ json_MarshalIndent (entry_at (next_reading w) repos timeout) = Some data
    /\ w_fs w1 !! cache_file w org = Some (FileNode true data)
    /\ w_home w1 = w_home w
    /\ w_clock w1 = w_clock w
    /\ w_tick w1 = S (w_tick w).
Proof.
  pose proof (getCacheFilePath_frame org w) as Hf.
  unfold Set_succeeded, RealCache_Set, cache_file, next_reading, entry_at.
  unfold bind at 1.
  destruct (getCacheFilePath org w) as [path w0]. simpl in Hf. simpl fst.
  destruct Hf as (Hfs & Hhome & _ & Hclock & Htick & _ & _ & _ & l0 & Hlog).
  unfold bind at 1.
  pose proof (os_MkdirAll_frame (filepath_Dir path) w0) as (Mh & Mc & Mt & Ml).
  destruct (os_MkdirAll (filepath_Dir path) w0) as [[e|] w2]; simpl in Mh, Mc, Mt, Ml.
  { simpl. intros <- Hs. exfalso. simpl in Hs. rewrite Ml, Hlog in Hs.
    revert Hs. by apply not_reported_after_error. }
  unfold bind at 1, time_Now at 1. simpl.
  rewrite Mc, Mt, Hclock, Htick.
  destruct (json_MarshalIndent _) as [data|] eqn:Hj.
  2:{ simpl. intros <- Hs. exfalso. simpl in Hs. rewrite Ml, Hlog in Hs.
      revert Hs. by apply not_reported_after_error. }
  unfold bind at 1.
  match goal with |- context [os_WriteFile path data ?w] =>
    pose proof (os_WriteFile_inv path data w) as Hw;
    destruct (os_WriteFile path data w) as [[e|] w3]
  end.
  { destruct (Hw _ _ eq_refl) as (_ & _ & _ & Wl & _). simpl in Wl.
    simpl. intros <- Hs. exfalso. simpl in Hs. rewrite Wl, Ml, Hlog in Hs.
    revert Hs. by apply not_reported_after_error. }
  destruct (Hw _ _ eq_refl) as (Wh & Wc & Wt & Wl & Wf). simpl in Wh, Wc, Wt, Wl.
  destruct (Wf eq_refl) as [Hne Hfile].
  simpl. intros <- _. exists data. simpl.
  repeat split; auto; congruence.
Qed.

Lemma wrap64_small z :
  (- 2 ^ 63 <= z < 2 ^ 63)%Z -> wrap64 z = z.
Proof. intros Hz. unfold wrap64. rewrite Z.mod_small; lia. Qed.

Lemma minutes_exact timeout :
  (0 < timeout <= max_timeout_minutes)%Z ->
  minutes timeout = (timeout * time_Minute)%Z.
Proof.
  unfold minutes, max_timeout_minutes, time_Minute. intros Ht.
  rewrite (wrap64_small timeout) by lia. apply wrap64_small. lia.
Qed.

(** C3 (amended): for a timeout of 1 to 153722867 minutes, when Set wrote the
    file and the document decodes to the entry it encodes, a Get on the
    world Set leaves, no later than the timeout after Set read the clock,
    reports found with exactly the stored repositories. *)
Theorem RealCache_Set_Get_roundtrip (w : World) (org : string)
    (repos : list GitHubRepo) (timeout : Z) :
  (0 < timeout <= max_timeout_minutes)%Z ->
  Set_succeeded w (snd (RealCache_Set org repos timeout w)) ->
  (forall data,
     json_MarshalIndent (entry_at (next_reading w) repos timeout) = Some data ->
     json_Unmarshal data = Some (entry_at (next_reading w) repos timeout)) ->
  (next_reading (snd (RealCache_Set org repos timeout w))
     <= next_reading w + timeout * time_Minute)%Z ->
  fst (RealCache_Get org (snd (RealCache_Set org repos timeout w))) = (repos, true).
Proof.
  intros Ht Hs Hcodec Hsoon.
  destruct (RealCache_Set_succeeded_inv w org repos timeout _ eq_refl Hs)
    as (data & Hne & Hj & Hfile & Hhome & Hclock & Htick).
  set (w1 := snd (RealCache_Set org repos timeout w)) in *.
  change repos with (Repos (entry_at (next_reading w) repos timeout)).
  apply (RealCache_Get_hit w1 org data).
  - by rewrite (cache_file_home w w1 org Hhome).
  - by rewrite (cache_file_home w w1 org Hhome).
  - by apply Hcodec.
  - simpl. unfold Time_Add. rewrite minutes_exact by assumption. exact Hsoon.
Qed.
End RealCache_facts.

Lemma RealCache_Get_miss_witness :
  exists w',
    @RealCache_Get (unix "{stale}" stale_entry) "acme" stale_world = (([], false), w')
    /\ w_fs w' = w_fs stale_world.
Proof.
  apply (@RealCache_Get_miss (unix "{stale}" stale_entry) stale_world "acme").
  apply (miss_expired _ _ "{stale}" stale_entry); vm_compute; reflexivity.
Defined.

Lemma RealCache_Set_Get_roundtrip_witness :
  fst (@RealCache_Get (unix "{fresh}" (entry_at t2024 [widgets_repo] 30)) "acme"
         (snd (@RealCache_Set (unix "{fresh}" (entry_at t2024 [widgets_repo] 30))
                 "acme" [widgets_repo] 30 frozen_world)))
  = ([widgets_repo], true).
Proof.
  apply (@RealCache_Set_Get_roundtrip
           (unix "{fresh}" (entry_at t2024 [widgets_repo] 30))
           frozen_world "acme" [widgets_repo] 30).
  - vm_compute. split; congruence.
  - exists [(LevelDebug, "Cache updated")]. split; vm_compute; reflexivity.
  - intros data Hd. vm_compute in Hd. injection Hd as <-. vm_compute. reflexivity.
  - vm_compute. congruence.
Defined.

(** C3, as stated, fails: a timeout of 153722868 minutes is positive, Set
    writes the file and the document decodes to what was encoded, and Get
    follows at the very instant of Set; but the int64 product
    time.Duration(timeout) * time.Minute wraps to a negative duration, the
    entry is stored as already expired, and Get reports not-found. *)
Lemma RealCache_Set_Get_overflow :
  (0 < 153722868)%Z
  /\ Set_succeeded frozen_world
       (snd (@RealCache_Set (unix "{far}" (entry_at t2024 [widgets_repo] 153722868))
               "acme" [widgets_repo] 153722868 frozen_world))
  /\ @json_Unmarshal (unix "{far}" (entry_at t2024 [widgets_repo] 153722868)) "{far}"
       = Some (entry_at t2024 [widgets_repo] 153722868)
  /\ (next_reading
         (snd (@RealCache_Set (unix "{far}" (entry_at t2024 [widgets_repo] 153722868))
                 "acme" [widgets_repo] 153722868 frozen_world))
       <= next_reading frozen_world + 153722868 * time_Minute)%Z
  /\ (ExpiresAt (entry_at t2024 [widgets_repo] 153722868) < t2024)%Z
  /\ fst (@RealCache_Get (unix "{far}" (entry_at t2024 [widgets_repo] 153722868)) "acme"
            (snd (@RealCache_Set (unix "{far}" (entry_at t2024 [widgets_repo] 153722868))
                    "acme" [widgets_repo] 153722868 frozen_world)))
     = ([], false).
Proof.
  split; [lia|].
  split; [exists [(LevelDebug, "Cache updated")]; split; vm_compute; reflexivity|].
  split; [vm_compute; reflexivity|].
  split; [vm_compute; congruence|].
  split; [vm_compute; reflexivity|].
  vm_compute. reflexivity.
Qed.
(* --------------------------------------------------------------------- *)
(* RealGitHub.ListAllReposWithRefresh                                     *)
(* --------------------------------------------------------------------- *)

Section adapter_facts.
Variable client : Client.
Variable cache : Cache.
Variable config : GitHubConfig.
Variable refresh : bool.

Local Abbreviation body := (scope_body client cache config refresh).

(** The body treats the map it is given as a black box: it either stores
    one list under the scope's name or leaves the map alone, and which of
    the two, with what world, does not depend on the map. *)
Ltac run_step :=
  match goal with
  | |- context [let (_, _) := ?e in _] => destruct e as [? ?] eqn:?
  | |- context [match ?e with Ok _ => _ | Err _ => _ end] => destruct e eqn:?
  | |- context [if ?e then _ else _] => destruct e eqn:?
  end.

Lemma fetch_scope_uniform o w :
  exists oc w', forall results,
    fetch_scope client cache config results o w
    = (store_outcome results (org_Name o, oc), w').
Proof.
  unfold fetch_scope, bind, ret.
  repeat run_step;
    first [ by eexists (Some _), _ | by eexists None, _ ].
Qed.

Lemma scope_body_uniform o w :
  exists oc w', forall results,
    body results o w = (store_outcome results (org_Name o, oc), w').
Proof.
  unfold scope_body, bind, ret. 
  destruct refresh; simpl.
  - apply fetch_scope_uniform.
  - destruct (cache_Get cache (org_Name o) w) as [[cached [|]] w1].
    + by exists (Some cached), w1.
    + apply fetch_scope_uniform.
Qed.

Lemma scope_body_outcome o w results :
  body results o w
  = (store_outcome results (org_Name o, scope_outcome client cache config refresh o w),
     snd (body ∅ o w)).
Proof.
  destruct (scope_body_uniform o w) as (oc & w' & Hu).
  unfold scope_outcome. rewrite (Hu results), (Hu ∅). simpl.
  f_equal. f_equal. f_equal.
  destruct oc as [repos|]; unfold store_outcome; simpl.
  - by rewrite lookup_insert_eq.
  - by rewrite lookup_empty.
Qed.

Lemma range_outcomes orgs : forall results w,
  range body orgs results w
  = (fold_left store_outcome
       (loop_outcomes client cache config refresh orgs w) results,
     snd (range body orgs ∅ w)).
Proof.
  induction orgs as [|o orgs IH]; intros results w; simpl; [reflexivity|].
  unfold bind. rewrite (scope_body_outcome o w results).
  rewrite (scope_body_outcome o w ∅). simpl.
  rewrite IH. f_equal. symmetry. rewrite IH. reflexivity.
Qed.

Lemma loop_outcomes_length orgs : forall w,
  length (loop_outcomes client cache config refresh orgs w) = length orgs.
Proof. induction orgs as [|o orgs IH]; intros w; simpl; [|rewrite IH]; reflexivity. Qed.

Lemma loop_outcomes_app l1 l2 w :
  loop_outcomes client cache config refresh (l1 ++ l2) w
  = loop_outcomes client cache config refresh l1 w
    ++ loop_outcomes client cache config refresh l2 (snd (range body l1 ∅ w)).
Proof.
  revert w. induction l1 as [|o l1 IH]; intros w; simpl; [reflexivity|].
  rewrite IH. f_equal. f_equal. f_equal.
  unfold bind. destruct (body ∅ o w) as [r1 w1] eqn:E. simpl.
  rewrite (range_outcomes l1 r1 w1). reflexivity.
Qed.

Lemma outcomes_map_success outs n repos :
  (n, Some repos) ∈ outs -> is_Some (outcomes_map outs !! n).
Proof.
  unfold outcomes_map.
  induction outs as [|[n' oc] outs IH] using rev_ind; intros Hin.
  - by apply elem_of_nil in Hin.
  - rewrite fold_left_app. simpl.
    apply elem_of_app in Hin as [Hin | Hin].
    + specialize (IH Hin). unfold store_outcome. simpl.
      destruct oc as [repos'|]; [|exact IH].
      destruct (decide (n' = n)) as [->|Hne].
      * rewrite lookup_insert_eq. eauto.
      * by rewrite lookup_insert_ne.
    + apply list_elem_of_singleton in Hin. injection Hin as <- <-.
      unfold store_outcome. simpl. rewrite lookup_insert_eq. eauto.
Qed.

Lemma outcomes_map_no_success outs n :
  (forall repos, (n, Some repos) ∉ outs) -> outcomes_map outs !! n = None.
Proof.
  unfold outcomes_map.
  induction outs as [|[n' oc] outs IH] using rev_ind; intros Hno.
  - apply lookup_empty.
  - rewrite fold_left_app. simpl. unfold store_outcome. simpl.
    assert (Hrest : forall repos, (n, Some repos) ∉ outs).
    { intros repos Hin. apply (Hno repos). apply elem_of_app. by left. }
    destruct oc as [repos'|]; [|by apply IH].
    destruct (decide (n' = n)) as [->|Hne].
    + exfalso. apply (Hno repos'). apply elem_of_app. right.
      by apply list_elem_of_singleton.
    + rewrite lookup_insert_ne by done. by apply IH.
Qed.

Lemma fetch_personal_uniform token username w results :
  fetch_personal client cache config token username results w
  = (fst (fetch_personal client cache config token username ∅ w) ∪ results,
     snd (fetch_personal client cache config token username ∅ w)).
Proof.
  unfold fetch_personal, bind, ret.
  repeat run_step; simpl.
  - by rewrite insert_union_singleton_l, insert_empty.
  - simpl; by rewrite (left_id_L ∅ (∪)).
Qed.

Lemma personal_scope_uniform w results :
  personal_scope client cache config refresh results w
  = (fst (personal_scope client cache config refresh ∅ w) ∪ results,
     snd (personal_scope client cache config refresh ∅ w)).
Proof.
  unfold personal_scope, bind, ret.
  destruct (IncludePersonal config); [|simpl; by rewrite (left_id_L ∅ (∪))].
  destruct (config_GetTokenForOrg config "" w) as [token w1].
  destruct (negb (String.eqb token "")); [|simpl; by rewrite (left_id_L ∅ (∪))].
  destruct (GetAuthenticatedUsername client token w1) as [[username|err] w2].
  2:{ destruct (slog _ _ w2) as [[] w3]. simpl; by rewrite (left_id_L ∅ (∪)). }
  destruct refresh; cbn [negb].
  - destruct (slog _ _ w2) as [[] w3]. apply fetch_personal_uniform.
  - destruct (cache_Get cache username w2) as [[cached [|]] w3].
    + simpl. by rewrite insert_union_singleton_l, insert_empty.
    + destruct (slog _ _ w3) as [[] w4]. apply fetch_personal_uniform.
Qed.

Lemma scope_failed_outcome o w :
  scope_failed client cache config refresh o w ->
  scope_outcome client cache config refresh o w = None
  /\ forall results, fst (body results o w) = results.
Proof.
  intros (w1 & Hcache & err & w3 & Horg & Huser).
  assert (Hfetch : forall results,
            fst (fetch_scope client cache config results o w1) = results).
  { intros results.
    unfold fetch_scope, bind, ret, config_GetTokenForOrg, gets, slog in *.
    simpl in *. rewrite Horg.
    destruct (strings_Contains err "404"); [|reflexivity].
    destruct (Huser eq_refl) as (err' & w4 & ->). reflexivity. }
  assert (Hbody : forall results, fst (body results o w) = results).
  { intros results. unfold scope_body, bind, ret.
    destruct refresh; cbn [negb].
    - subst w1. destruct (slog _ _ w) as [[] w1]. apply Hfetch.
    - destruct Hcache as (repos & w' & -> & ->).
      destruct (slog _ _ w') as [[] w1]. apply Hfetch. }
  split; [|exact Hbody].
  unfold scope_outcome. rewrite Hbody. apply lookup_empty.
Qed.

Lemma loop_outcomes_names orgs : forall w,
  map fst (loop_outcomes client cache config refresh orgs w) = map org_Name orgs.
Proof.
  induction orgs as [|o orgs IH]; intros w; simpl; [|rewrite IH]; reflexivity.
Qed.

Lemma store_outcomes_lookup_ne outs n : forall m : gmap string (list GitHubRepo),
  (forall x, x ∈ outs -> fst x <> n) ->
  fold_left store_outcome outs m !! n = m !! n.
Proof.
  induction outs as [|[n' oc] outs IH]; intros m Hne; simpl; [reflexivity|].
  rewrite IH by (intros x Hx; apply Hne; by right).
  unfold store_outcome. simpl. destruct oc as [repos|]; [|reflexivity].
  apply lookup_insert_ne. apply (Hne (n', Some repos)). by left.
Qed.

Lemma scope_fetched_outcome o w repos :
  scope_fetched client cache config refresh o w repos ->
  scope_outcome client cache config refresh o w = Some repos.
Proof.
  assert (Hfetch : forall w1,
    (exists w3,
       ListOrgReposWithToken client (org_Name o)
         (fst (config_GetTokenForOrg config (org_Name o) w1))
         (snd (config_GetTokenForOrg config (org_Name o) w1)) = (Ok repos, w3))
    \/ (exists err w3,
          ListOrgReposWithToken client (org_Name o)
            (fst (config_GetTokenForOrg config (org_Name o) w1))
            (snd (config_GetTokenForOrg config (org_Name o) w1)) = (Err err, w3)
          /\ strings_Contains err "404" = true
          /\ exists w4,
               ListUserReposWithToken client (org_Name o)
                 (fst (config_GetTokenForOrg config (org_Name o) w1))
                 (snd (slog LevelDebug
                         "Organization not found, trying user endpoint" w3))
               = (Ok repos, w4)) ->
    fst (fetch_scope client cache config ∅ o w1) !! org_Name o = Some repos).
  { intros w1 Hcases.
    unfold fetch_scope, bind, ret, config_GetTokenForOrg, gets, slog in *.
    simpl in *.
    destruct Hcases as [(w3 & ->) | (err & w3 & -> & -> & w4 & Huser)].
    - destruct (cache_Set cache _ _ _ w3) as [[] w5]. simpl.
      apply lookup_insert_eq.
    - rewrite Huser. destruct (cache_Set cache _ _ _ w4) as [[] w5]. simpl.
      apply lookup_insert_eq. }
  unfold scope_fetched, scope_outcome, scope_body, bind, ret.
  intros [[Hr (w' & Hget)] | (w1 & Hcache & Hcases)].
  - rewrite Hr. cbn [negb]. cbv beta. rewrite Hget. simpl. apply lookup_insert_eq.
  - destruct refresh; cbn [negb].
    + subst w1. destruct (slog _ _ w) as [[] w1]. by apply Hfetch.
    + destruct Hcache as (cached & w' & -> & ->).
      destruct (slog _ _ w') as [[] w1]. by apply Hfetch.
Qed.

(** C1 (amended): every scope is processed; a scope whose fetch fails
    contributes the outcome "nothing" and the scopes after it are processed
    in the world it leaves; a scope whose fetch succeeds (a cache hit, an
    answer of the organization endpoint, or an answer of the user endpoint
    after an error text with 404) contributes exactly the repositories
    obtained. ListAllReposWithRefresh returns, with a nil error, the map
    built from the outcomes and the personal-repository step: every scope
    that succeeded has its name in the map, with exactly its repositories
    when no later scope has that name and the personal step stored nothing
    under it; the failed scope's name is absent when no other entry of that
    name succeeded and the personal step stored nothing under it. *)
Theorem ListAllReposWithRefresh_partial_failure
    (pre : list GitHubOrgConfig) (o : GitHubOrgConfig)
    (post : list GitHubOrgConfig) (w : World) :
  GetOrganizations config = pre ++ o :: post ->
  scope_failed client cache config refresh o (snd (range body pre ∅ w)) ->
  let outs := loop_outcomes client cache config refresh (GetOrganizations config) w in
  let personal :=
    personal_stored client cache config refresh (GetOrganizations config) w in
  exists results w',
    RealGitHub_ListAllReposWithRefresh client cache config refresh w = (Ok results, w')
    /\ results = personal ∪ outcomes_map outs
    /\ length outs = length (GetOrganizations config)
    /\ outs = loop_outcomes client cache config refresh pre w
              ++ (org_Name o, None)
              :: loop_outcomes client cache config refresh post
                   (snd (body ∅ o (snd (range body pre ∅ w))))
    /\ (forall n repos, (n, Some repos) ∈ outs -> n ∈ dom results)
    /\ (forall pre' o' post' repos,
          GetOrganizations config = pre' ++ o' :: post' ->
          scope_fetched client cache config refresh o'
            (snd (range body pre' ∅ w)) repos ->
          (org_Name o', Some repos) ∈ outs
          /\ org_Name o' ∈ dom results
          /\ ((forall q, q ∈ post' -> org_Name q <> org_Name o') ->
              personal !! org_Name o' = None ->
              results !! org_Name o' = Some repos))
    /\ ((forall repos, (org_Name o, Some repos) ∉ outs) ->
        personal !! org_Name o = None ->
        results !! org_Name o = None).
Proof.
  intros Horgs Hfail outs personal.
  destruct (scope_failed_outcome o _ Hfail) as [Hnone _].
  unfold RealGitHub_ListAllReposWithRefresh, bind, ret.
  rewrite (range_outcomes (GetOrganizations config) ∅ w).
  rewrite personal_scope_uniform. fold outs.
  eexists _, _. split; [reflexivity|].
  split; [reflexivity|].
  split; [apply loop_outcomes_length|].
  split.
  { unfold outs. rewrite Horgs, loop_outcomes_app. simpl. rewrite Hnone.
    reflexivity. }
  split.
  { intros n repos Hin. apply elem_of_dom.
    apply lookup_union_is_Some. right.
    exact (outcomes_map_success outs n repos Hin). }
  split.
  - intros pre' o' post' repos Horgs' Hok.
    apply scope_fetched_outcome in Hok.
    assert (Houts : outs = loop_outcomes client cache config refresh pre' w
                           ++ (org_Name o', Some repos)
                           :: loop_outcomes client cache config refresh post'
                                (snd (body ∅ o' (snd (range body pre' ∅ w))))).
    { unfold outs. rewrite Horgs', loop_outcomes_app. simpl. by rewrite Hok. }
    assert (Hin : (org_Name o', Some repos) ∈ outs).
    { rewrite Houts. apply elem_of_app. right. by left. }
    split; [exact Hin|]. split.
    { apply elem_of_dom. apply lookup_union_is_Some. right.
      exact (outcomes_map_success outs _ repos Hin). }
    intros Hlater Hp.
    rewrite lookup_union_r by exact Hp.
    unfold outcomes_map. rewrite Houts, fold_left_app. simpl.
    rewrite store_outcomes_lookup_ne.
    + unfold store_outcome. simpl. apply lookup_insert_eq.
    + intros x Hx Ex.
      apply (list_elem_of_fmap_2 fst) in Hx.
      change (fst <$> ?l) with (map fst l) in Hx.
      rewrite loop_outcomes_names in Hx.
      apply list_elem_of_fmap in Hx as (q & Eq & Hq).
      apply (Hlater q Hq). congruence.
  - intros Hno Hp. apply lookup_union_None_2.
    + exact Hp.
    + exact (outcomes_map_no_success outs _ Hno).
Qed.
End adapter_facts.


Lemma beta_failed_after_alpha (personal : bool) :
  scope_failed (RealClient "") (@RealCache (unix "{}" stale_entry))
    (alpha_beta_config personal) false (scope "beta")
    (snd (range (scope_body (RealClient "") (@RealCache (unix "{}" stale_entry))
                   (alpha_beta_config personal) false)
            [scope "alpha"] ∅ alpha_only_world)).
Proof.
  eexists. split.
  - eexists _, _. split; [vm_compute; reflexivity | reflexivity].
  - eexists _, _. split; [vm_compute; reflexivity|].
    intros _. eexists _, _. vm_compute. reflexivity.
Qed.

Lemma alpha_fetched (personal : bool) :
  scope_fetched (RealClient "") (@RealCache (unix "{}" stale_entry))
    (alpha_beta_config personal) false (scope "alpha")
    (snd (range (scope_body (RealClient "") (@RealCache (unix "{}" stale_entry))
                   (alpha_beta_config personal) false)
            [] ∅ alpha_only_world))
    [widgets_repo].
Proof.
  right. eexists. split.
  - eexists _, _. split; [vm_compute; reflexivity | reflexivity].
  - left. eexists. vm_compute. reflexivity.
Qed.

Lemma ListAllReposWithRefresh_partial_failure_witness :
  exists results w',
    demo_ListAllReposWithRefresh (alpha_beta_config false) false alpha_only_world
    = (Ok results, w')
    /\ results !! "alpha" = Some [widgets_repo]
    /\ results !! "beta" = None
    /\ results = {[ "alpha" := [widgets_repo] ]}.
Proof.
  destruct (ListAllReposWithRefresh_partial_failure
              (RealClient "") (@RealCache (unix "{}" stale_entry))
              (alpha_beta_config false) false
              [scope "alpha"] (scope "beta") [] alpha_only_world)
    as (results & w' & Hrun & Hres & _ & Houts & _ & Hok & Hfailed).
  - reflexivity.
  - apply beta_failed_after_alpha.
  - exists results, w'. split; [exact Hrun|].
    destruct (Hok [] (scope "alpha") [scope "beta"] [widgets_repo] eq_refl
                (alpha_fetched false)) as (_ & _ & Halpha).
    split; [|split].
    + apply Halpha.
      * intros q Hq. apply list_elem_of_singleton in Hq as ->. discriminate.
      * vm_compute. reflexivity.
    + apply Hfailed.
      * rewrite Houts. vm_compute. intros repos Hin.
        apply elem_of_cons in Hin as [Hin|Hin]; [discriminate|].
        apply elem_of_cons in Hin as [Hin|Hin]; [discriminate|].
        by apply elem_of_nil in Hin.
      * vm_compute. reflexivity.
    + rewrite Hres. vm_compute. reflexivity.
Defined.

(** C1, as stated, fails: with scopes alpha and beta and personal
    repositories included, the fetch of beta fails (cache miss, the
    organization endpoint answers 404 and the user endpoint 502), yet the
    authenticated user is beta, whose personal repositories are fetched
    afterwards and stored under that very name: the failed scope's name is
    in the returned map. *)
Lemma ListAllReposWithRefresh_failed_scope_present :
  2 <= length (GetOrganizations (alpha_beta_config true))
  /\ scope_failed (RealClient "") (@RealCache (unix "{}" stale_entry))
       (alpha_beta_config true) false (scope "beta")
       (snd (range (scope_body (RealClient "") (@RealCache (unix "{}" stale_entry))
                      (alpha_beta_config true) false)
               [scope "alpha"] ∅ alpha_only_world))
  /\ fst (demo_ListAllReposWithRefresh (alpha_beta_config true) false alpha_only_world)
     = Ok {[ "alpha" := [widgets_repo]; "beta" := [gadgets_repo] ]}
  /\ ({[ "alpha" := [widgets_repo]; "beta" := [gadgets_repo] ]}
        : gmap string (list GitHubRepo)) !! "beta" <> None.
Proof.
  split; [vm_compute; lia|].
  split; [apply beta_failed_after_alpha|].
  split; [vm_compute; reflexivity|].
  vm_compute. discriminate.
Qed.
(* --------------------------------------------------------------------- *)
(* listGitHub                                                             *)
(* --------------------------------------------------------------------- *)

Section listGitHub_facts.
Context `{Platform}.

(** One round of the repository loop: a hidden repository changes nothing;
    any other either changes nothing or appends its key and stores a
    session under it. *)
Lemma add_repo_cases w config displayName scopeName acc repo :
  add_repo w config displayName scopeName acc repo = acc
  \/ (hidden repo = false
      /\ exists session,
           add_repo w config displayName scopeName acc repo
           = (fst acc ++ [key_of scopeName repo],
              <[key_of scopeName repo := session]> (snd acc))).
Proof.
  unfold add_repo, hidden, key_of. destruct acc as [orderedIndex directory].
  destruct (repo_Archived repo || repo_Disabled repo); [by left|].
  match goal with |- context [if ?c then (orderedIndex, directory) else _] =>
    destruct c end; [by left|].
  right. split; [reflexivity|]. eexists. reflexivity.
Qed.

Lemma add_repo_hidden w config displayName scopeName acc repo :
  hidden repo = true ->
  add_repo w config displayName scopeName acc repo = acc.
Proof.
  unfold add_repo, hidden. destruct acc as [orderedIndex directory].
  intros ->. reflexivity.
Qed.

Lemma catalog_inv_add_repo (P : string -> Prop) w config displayName scopeName repos :
  forall acc,
    (forall repo, repo ∈ repos -> hidden repo = false -> P (key_of scopeName repo)) ->
    catalog_inv P acc ->
    catalog_inv P (fold_left (add_repo w config displayName scopeName) repos acc).
Proof.
  induction repos as [|repo repos IH]; intros acc HP Hinv; simpl; [exact Hinv|].
  apply IH.
  { intros r Hr. apply HP. by right. }
  destruct (add_repo_cases w config displayName scopeName acc repo)
    as [-> | (Hlive & session & ->)]; [exact Hinv|].
  destruct Hinv as [Hdom Hall]. split; simpl.
  - rewrite dom_insert_L, Hdom, list_to_set_app_L. simpl.
    rewrite (right_id_L ∅ (∪)). apply (comm_L (∪)).
  - apply Forall_app. split; [exact Hall|].
    apply Forall_singleton. apply HP; [by left | exact Hlive].
Qed.

Lemma catalog_inv_add_org (P : string -> Prop) w config allRepos orgs :
  forall acc,
    (forall scopeName repos repo,
       allRepos !! scopeName = Some repos -> repo ∈ repos -> hidden repo = false ->
       P (key_of scopeName repo)) ->
    catalog_inv P acc ->
    catalog_inv P (fold_left (add_org w config allRepos) orgs acc).
Proof.
  induction orgs as [|o orgs IH]; intros acc HP Hinv; simpl; [exact Hinv|].
  apply IH; [exact HP|].
  unfold add_org. destruct (allRepos !! org_Name o) as [repos|] eqn:E; [|exact Hinv].
  apply catalog_inv_add_repo; [|exact Hinv].
  intros repo Hr Hlive. exact (HP _ _ _ E Hr Hlive).
Qed.

(** What listGitHub returns, for any implementation of the GitHub
    interface. *)
Lemma listGitHub_inv (P : string -> Prop) l opts w sessions w' :
  listGitHub l opts w = (Ok sessions, w') ->
  (forall scopeName repos repo,
     fetched_by l opts w !! scopeName = Some repos -> repo ∈ repos ->
     hidden repo = false -> P (key_of scopeName repo)) ->
  catalog_inv P (OrderedIndex sessions, Directory sessions).
Proof.
  unfold listGitHub, fetched_by.
  destruct (Nat.eqb (length (GetOrganizations (l_config l))) 0).
  { unfold bind, ret. destruct (slog _ _ w) as [[] w1]. intros [= <- <-] _.
    split; simpl; [apply dom_empty_L | constructor]. }
  unfold bind at 1.
  destruct (gh_ListAllReposWithRefresh _ _ _ w) as [[allRepos|err] w1];
    [|unfold ret; discriminate].
  simpl fst. intros Hrun HP.
  unfold bind at 1, gets at 1 in Hrun.
  assert (Horgs : catalog_inv P
            (fold_left (add_org w1 (l_config l) allRepos)
               (GetOrganizations (l_config l)) ([], ∅))).
  { apply catalog_inv_add_org; [exact HP|].
    split; simpl; [apply dom_empty_L | constructor]. }
  revert Hrun Horgs. generalize (fold_left (add_org w1 (l_config l) allRepos)
                                   (GetOrganizations (l_config l)) ([], ∅)).
  intros acc Hrun Hacc.
  unfold bind at 1 in Hrun.
  match type of Hrun with (let (a, w'0) := ?m w1 in _) = _ =>
    assert (Hp : catalog_inv P (fst (m w1))); [|destruct (m w1) as [acc' w2]] end.
  { destruct (IncludePersonal (l_config l)); [|exact Hacc].
    unfold bind, ret, config_GetTokenForOrg, gets. simpl.
    destruct (negb _); [|exact Hacc].
    destruct (gh_GetAuthenticatedUsername _ _ w1) as [[username|err] w2];
      [|exact Hacc].
    destruct (allRepos !! username) as [personalRepos|] eqn:E; [|exact Hacc].
    simpl. apply catalog_inv_add_repo; [|exact Hacc].
    intros repo Hr Hlive. exact (HP _ _ _ E Hr Hlive). }
  unfold ret in Hrun. injection Hrun as <- <-. simpl in *.
  destruct acc'. exact Hp.
Qed.

(* Keys *)

Lemma slash_split (s1 s2 n1 n2 : string) :
  slash_free s1 -> slash_free s2 ->
  s1 +:+ "/" +:+ n1 = s2 +:+ "/" +:+ n2 -> s1 = s2 /\ n1 = n2.
Proof.
  unfold slash_free. revert s2.
  induction s1 as [|c1 s1 IH]; intros [|c2 s2] H1 H2 E.
  - by injection E.
  - injection E as <- _. exfalso. apply H2. by left.
  - injection E as -> _. exfalso. apply H1. by left.
  - injection E as <- E.
    destruct (IH s2) as [-> ->]; auto.
    + intros Hin. apply H1. by right.
    + intros Hin. apply H2. by right.
Qed.

Lemma key_of_inj s1 s2 r1 r2 :
  slash_free s1 -> slash_free s2 ->
  key_of s1 r1 = key_of s2 r2 -> s1 = s2 /\ repo_Name r1 = repo_Name r2.
Proof.
  unfold key_of. intros H1 H2 E.
  apply (inj (String.app "github:")) in E.
  by apply slash_split.
Qed.

Lemma add_repo_index w config displayName scopeName repos : forall acc,
  exists keys,
    fst (fold_left (add_repo w config displayName scopeName) repos acc)
    = fst acc ++ keys
    /\ keys `sublist_of` map (key_of scopeName) repos.
Proof.
  induction repos as [|repo repos IH]; intros acc; simpl.
  - exists []. by rewrite app_nil_r.
  - destruct (add_repo_cases w config displayName scopeName acc repo)
      as [-> | (_ & session & ->)].
    + destruct (IH acc) as (keys & -> & Hsub).
      exists keys. split; [reflexivity|]. by apply sublist_cons.
    + destruct (IH (fst acc ++ [key_of scopeName repo],
                    <[key_of scopeName repo := session]> (snd acc)))
        as (keys & -> & Hsub). simpl.
      exists (key_of scopeName repo :: keys).
      rewrite <- app_assoc. split; [reflexivity|]. by apply sublist_skip.
Qed.

Lemma add_org_index w config allRepos orgs : forall acc,
  exists keys,
    fst (fold_left (add_org w config allRepos) orgs acc) = fst acc ++ keys
    /\ keys `sublist_of` flat_map (fun o => scope_keys allRepos (org_Name o)) orgs.
Proof.
  induction orgs as [|o orgs IH]; intros acc; simpl.
  - exists []. by rewrite app_nil_r.
  - destruct (IH (add_org w config allRepos acc o)) as (keys & -> & Hsub).
    unfold add_org, scope_keys.
    destruct (allRepos !! org_Name o) as [repos|].
    + destruct (add_repo_index w config
                  (if String.eqb (org_DisplayName o) "" then org_Name o
                   else org_DisplayName o)
                  (org_Name o) repos acc) as (keys0 & -> & Hsub0).
      exists (keys0 ++ keys). rewrite app_assoc. split; [reflexivity|].
      by apply sublist_app.
    + exists keys. split; [reflexivity|]. exact Hsub.
Qed.

Lemma scope_keys_NoDup allRepos scopeName :
  (forall repos, allRepos !! scopeName = Some repos -> NoDup (map repo_Name repos)) ->
  NoDup (scope_keys allRepos scopeName).
Proof.
  unfold scope_keys. intros Hn.
  destruct (allRepos !! scopeName) as [repos|]; [|constructor].
  specialize (Hn repos eq_refl).
  induction repos as [|r repos IH]; simpl; [constructor|].
  simpl in Hn. apply NoDup_cons in Hn as [Hr Hn].
  apply NoDup_cons. split; [|by apply IH].
  intros Hin. apply Hr.
  apply list_elem_of_In, in_map_iff in Hin as (r' & E & Hin).
  apply list_elem_of_In, in_map_iff. exists r'. split; [|exact Hin].
  unfold key_of in E. apply (inj (String.app "github:")) in E.
  apply (inj (String.app scopeName)) in E. by injection E.
Qed.

Lemma all_keys_NoDup allRepos orgs :
  NoDup (map org_Name orgs) ->
  Forall (fun o => slash_free (org_Name o)) orgs ->
  (forall scopeName repos,
     allRepos !! scopeName = Some repos -> NoDup (map repo_Name repos)) ->
  NoDup (flat_map (fun o => scope_keys allRepos (org_Name o)) orgs).
Proof.
  intros Hnames Hslash Hrepos.
  induction orgs as [|o orgs IH]; simpl; [constructor|].
  simpl in Hnames. apply NoDup_cons in Hnames as [Ho Hnames].
  apply Forall_cons in Hslash as [Hso Hslash].
  apply NoDup_app. split; [|split].
  - apply scope_keys_NoDup. intros repos. apply Hrepos.
  - intros key Hk Hk'.
    apply list_elem_of_In, in_flat_map in Hk' as (o' & Ho' & Hk').
    unfold scope_keys in Hk, Hk'.
    destruct (allRepos !! org_Name o) as [repos|]; [|by apply elem_of_nil in Hk].
    destruct (allRepos !! org_Name o') as [repos'|]; [|contradiction].
    apply list_elem_of_In, in_map_iff in Hk as (r & <- & _).
    apply in_map_iff in Hk' as (r' & E & _).
    assert (Hso' : slash_free (org_Name o')).
    { rewrite Forall_forall in Hslash. apply Hslash. by apply list_elem_of_In. }
    destruct (key_of_inj _ _ _ _ Hso' Hso E) as [E' _].
    apply Ho. rewrite <- E'. apply list_elem_of_In, in_map. exact Ho'.
  - by apply IH.
Qed.

Lemma remove_dups_length_le (l : list string) : length (remove_dups l) <= length l.
Proof.
  induction l as [|x l IH]; simpl; [lia|].
  destruct (decide_rel elem_of x l); simpl; lia.
Qed.

Lemma NoDup_length_remove_dups (l : list string) :
  NoDup l <-> length l = length (remove_dups l).
Proof.
  induction l as [|x l IH]; simpl.
  - split; [reflexivity | constructor].
  - pose proof (remove_dups_length_le l).
    destruct (decide_rel elem_of x l) as [Hin|Hin]; simpl.
    + split; [|lia]. intros Hnd. apply NoDup_cons in Hnd as [Hx _]. contradiction.
    + rewrite NoDup_cons. split.
      * intros [_ Hnd]. f_equal. by apply IH.
      * intros E. split; [exact Hin|]. apply IH. lia.
Qed.

Lemma size_list_to_set_remove_dups (l : list string) :
  size (list_to_set l : gset string) = length (remove_dups l).
Proof.
  rewrite <- (size_list_to_set (C := gset string) (remove_dups l))
    by apply NoDup_remove_dups.
  f_equal. apply set_eq. intros x.
  by rewrite !elem_of_list_to_set, elem_of_remove_dups.
Qed.

(** C7: no catalog entry comes from an archived or disabled repository:
    every key of OrderedIndex and of Directory is the key of a fetched
    repository that is neither; and the loop body leaves the catalog as it
    is at such a repository, whatever the configuration (show-uncloned
    included) and the file system (cloned or not). *)
Theorem listGitHub_skips_archived_disabled
    (l : RealLister) (opts : ListOptions) (w w' : World) (sessions : SeshSessions) :
  listGitHub l opts w = (Ok sessions, w') ->
  (forall key, key ∈ OrderedIndex sessions ->
               from_live_repo (fetched_by l opts w) key)
  /\ (forall key, key ∈ dom (Directory sessions) ->
                  from_live_repo (fetched_by l opts w) key)
  /\ (forall w0 config displayName scopeName acc repo,
        repo_Archived repo = true \/ repo_Disabled repo = true ->
        add_repo w0 config displayName scopeName acc repo = acc).
Proof.
  intros Hrun.
  assert (Hinv : catalog_inv (from_live_repo (fetched_by l opts w))
                   (OrderedIndex sessions, Directory sessions)).
  { apply (listGitHub_inv _ l opts w sessions w' Hrun).
    intros scopeName repos repo Hs Hr Hlive.
    unfold hidden in Hlive. apply orb_false_elim in Hlive as [Ha Hd].
    exists scopeName, repos, repo. auto. }
  destruct Hinv as [Hdom Hall]. simpl in Hdom, Hall.
  rewrite Forall_forall in Hall.
  split; [exact Hall|]. split.
  - intros key Hk. rewrite Hdom in Hk. apply elem_of_list_to_set in Hk. auto.
  - intros w0 config displayName scopeName acc repo Hh.
    apply add_repo_hidden. unfold hidden.
    destruct Hh as [-> | ->]; [reflexivity | apply orb_true_r].
Qed.

(** C8 (amended): Directory holds exactly the keys of OrderedIndex, each
    once, so its size is the number of distinct keys of OrderedIndex and
    never more than its length; OrderedIndex is free of duplicates exactly
    when the two are equal; that is the case when the scope names are
    distinct and without a slash, no fetched list names a repository twice
    and, where the personal-repository step runs, the authenticated
    username is without a slash and is no scope name. *)
Theorem listGitHub_catalog_keys
    (l : RealLister) (opts : ListOptions) (w w' : World) (sessions : SeshSessions) :
  listGitHub l opts w = (Ok sessions, w') ->
  dom (Directory sessions) = list_to_set (OrderedIndex sessions)
  /\ (forall key, key ∈ OrderedIndex sessions ->
                  is_Some (Directory sessions !! key))
  /\ size (Directory sessions) = length (remove_dups (OrderedIndex sessions))
  /\ size (Directory sessions) <= length (OrderedIndex sessions)
  /\ (NoDup (OrderedIndex sessions) <->
      length (OrderedIndex sessions) = size (Directory sessions))
  /\ (NoDup (map org_Name (GetOrganizations (l_config l))) ->
      Forall (fun o => slash_free (org_Name o)) (GetOrganizations (l_config l)) ->
      (forall scopeName repos,
         fetched_by l opts w !! scopeName = Some repos ->
         NoDup (map repo_Name repos)) ->
      (forall username,
         personal_name l opts w = Some username ->
         slash_free username
         /\ ~ In username (map org_Name (GetOrganizations (l_config l)))) ->
      NoDup (OrderedIndex sessions)
      /\ length (OrderedIndex sessions) = size (Directory sessions)).
Proof.
  intros Hrun.
  destruct (listGitHub_inv (fun _ => True) l opts w sessions w' Hrun) as [Hdom _];
    [done|]. simpl in Hdom.
  assert (Hsize : size (Directory sessions)
                  = length (remove_dups (OrderedIndex sessions))).
  { rewrite <- size_list_to_set_remove_dups, <- Hdom. symmetry. apply size_dom. }
  assert (Hiff : NoDup (OrderedIndex sessions) <->
                 length (OrderedIndex sessions) = size (Directory sessions)).
  { rewrite Hsize. apply NoDup_length_remove_dups. }
  split; [exact Hdom|]. split.
  { intros key Hk. apply elem_of_dom. rewrite Hdom. by apply elem_of_list_to_set. }
  split; [exact Hsize|]. split.
  { rewrite Hsize. apply remove_dups_length_le. }
  split; [exact Hiff|].
  intros Hnames Hslash Hrepos Hpersonal.
  assert (Hnd : NoDup (OrderedIndex sessions)); [|split; [exact Hnd | by apply Hiff]].
  revert Hrun Hrepos Hpersonal. unfold listGitHub, fetched_by, personal_name.
  destruct (Nat.eqb (length (GetOrganizations (l_config l))) 0).
  { unfold bind, ret. destruct (slog _ _ w) as [[] w1]. intros [= <- <-] _ _.
    constructor. }
  unfold bind at 1.
  destruct (gh_ListAllReposWithRefresh _ _ _ w) as [[allRepos|err] w1];
    [|unfold ret; discriminate].
  cbn [fst snd]. intros Hrun Hrepos Hpersonal.
  unfold bind at 1, gets at 1 in Hrun.
  destruct (add_org_index w1 (l_config l) allRepos (GetOrganizations (l_config l))
              ([], ∅)) as (keys & Hkeys & Hsub).
  cbn [fst app] in Hkeys.
  assert (Horgs : NoDup (flat_map (fun o => scope_keys allRepos (org_Name o))
                           (GetOrganizations (l_config l)))).
  { by apply all_keys_NoDup. }
  revert Hrun Hkeys. generalize (fold_left (add_org w1 (l_config l) allRepos)
                                   (GetOrganizations (l_config l)) ([], ∅)).
  intros acc Hrun Hkeys.
  assert (Hnone : NoDup (fst acc)).
  { rewrite Hkeys. eapply sublist_NoDup; [exact Horgs | exact Hsub]. }
  unfold bind at 1 in Hrun.
  match type of Hrun with (let (a, w'0) := ?m w1 in _) = _ =>
    assert (Hp : NoDup (fst (fst (m w1)))); [|destruct (m w1) as [acc' w2]] end.
  { destruct (IncludePersonal (l_config l)); [|exact Hnone].
    unfold bind, ret, config_GetTokenForOrg, gets. cbn [fst snd].
    destruct (negb (String.eqb (GetTokenForOrg (l_config l) (w_GITHUB_TOKEN w1) "")
                      "")); [|exact Hnone].
    destruct (gh_GetAuthenticatedUsername _ _ w1) as [[username|err] w2];
      [|exact Hnone].
    cbn [fst] in Hpersonal.
    destruct (allRepos !! username) as [personalRepos|] eqn:E; [|exact Hnone].
    cbn [fst].
    destruct (Hpersonal username eq_refl) as [Hus Hun].
    destruct (add_repo_index w2 (l_config l) username username personalRepos acc)
      as (keys2 & -> & Hsub2).
    rewrite Hkeys.
    assert (Hall : NoDup (flat_map (fun o => scope_keys allRepos (org_Name o))
                            (GetOrganizations (l_config l) ++ [scope username]))).
    { apply all_keys_NoDup; [| |exact Hrepos].
      - rewrite map_app. simpl. apply NoDup_app. split; [exact Hnames|].
        split; [|apply NoDup_singleton].
        intros n Hn Hn'. apply list_elem_of_singleton in Hn' as ->.
        apply Hun. by apply list_elem_of_In.
      - apply Forall_app. split; [exact Hslash|]. by apply Forall_singleton. }
    rewrite flat_map_app in Hall. simpl in Hall. rewrite app_nil_r in Hall.
    eapply sublist_NoDup; [exact Hall|].
    apply sublist_app; [exact Hsub|].
    unfold scope_keys. by rewrite E. }
  unfold ret in Hrun. apply (f_equal fst) in Hrun. cbn [fst] in Hrun.
  assert (Es : sessions = {| Directory := snd acc'; OrderedIndex := fst acc' |})
    by congruence.
  rewrite Es. exact Hp.
Qed.
End listGitHub_facts.

Lemma attic_run :
  @listGitHub (unix "{}" stale_entry) (acme_lister "") github_options attic_world
  = (Ok attic_catalog,
     snd (@listGitHub (unix "{}" stale_entry) (acme_lister "")
            github_options attic_world)).
Proof. vm_compute. reflexivity. Qed.

Lemma attic_fetched :
  @fetched_by (unix "{}" stale_entry) (acme_lister "") github_options attic_world
  = {[ "acme" := [widgets_repo; attic_repo] ]}.
Proof. vm_compute. reflexivity. Qed.

Lemma listGitHub_skips_archived_disabled_witness :
  OrderedIndex attic_catalog = ["github:acme/widgets"]
  /\ from_live_repo {[ "acme" := [widgets_repo; attic_repo] ]} "github:acme/widgets".
Proof.
  split; [vm_compute; reflexivity|].
  rewrite <- attic_fetched.
  destruct (@listGitHub_skips_archived_disabled (unix "{}" stale_entry)
              (acme_lister "") github_options attic_world _ attic_catalog attic_run)
    as [Hindex _].
  apply Hindex.
  change (OrderedIndex attic_catalog) with ["github:acme/widgets"].
  apply list_elem_of_here.
Defined.

Lemma studio_run :
  @listGitHub (unix "{}" stale_entry) studio_lister github_options studio_world
  = (Ok studio_catalog,
     snd (@listGitHub (unix "{}" stale_entry) studio_lister
            github_options studio_world)).
Proof. vm_compute. reflexivity. Qed.

Lemma studio_fetched :
  @fetched_by (unix "{}" stale_entry) studio_lister github_options studio_world
  = {[ "alpha" := [widgets_repo; attic_repo]; "beta" := [gadgets_repo];
       "carol" := [notes_repo] ]}.
Proof. vm_compute. reflexivity. Qed.

Lemma listGitHub_catalog_keys_witness :
  OrderedIndex studio_catalog
  = ["github:alpha/widgets"; "github:beta/gadgets"; "github:carol/notes"]
  /\ NoDup (OrderedIndex studio_catalog)
  /\ length (OrderedIndex studio_catalog) = size (Directory studio_catalog).
Proof.
  split; [vm_compute; reflexivity|].
  destruct (@listGitHub_catalog_keys (unix "{}" stale_entry)
              studio_lister github_options studio_world _ studio_catalog studio_run)
    as (_ & _ & _ & _ & _ & Hdistinct).
  apply Hdistinct.
  - apply (bool_decide_unpack _). vm_compute. exact I.
  - repeat constructor; unfold slash_free; vm_compute; intuition discriminate.
  - rewrite studio_fetched. intros scopeName repos Hl.
    apply lookup_insert_Some in Hl as [[_ <-] | [_ Hl]];
      [apply (bool_decide_unpack _); vm_compute; exact I|].
    apply lookup_insert_Some in Hl as [[_ <-] | [_ Hl]];
      [apply (bool_decide_unpack _); vm_compute; exact I|].
    apply lookup_singleton_Some in Hl as [_ <-].
    apply (bool_decide_unpack _). vm_compute. exact I.
  - intros username Hu. vm_compute in Hu. injection Hu as <-.
    split; [unfold slash_free; vm_compute; intuition discriminate|].
    vm_compute. intuition discriminate.
Defined.

(** C8, as stated, fails: when the provider serves a repository on two
    pages of one listing, its key is appended to OrderedIndex twice while
    Directory holds it once. *)
Lemma listGitHub_repeated_key :
  fst (@listGitHub (unix "{}" stale_entry) (acme_lister "") github_options moving_world)
  = Ok moving_catalog
  /\ OrderedIndex moving_catalog = ["github:acme/widgets"; "github:acme/widgets"]
  /\ size (Directory moving_catalog) = 1
  /\ length (OrderedIndex moving_catalog) <> size (Directory moving_catalog)
  /\ ~ NoDup (OrderedIndex moving_catalog).
Proof.
  split; [vm_compute; reflexivity|].
  split; [vm_compute; reflexivity|].
  split; [vm_compute; reflexivity|].
  split; [vm_compute; lia|].
  change (OrderedIndex moving_catalog)
    with ["github:acme/widgets"; "github:acme/widgets"].
  intros Hnd. apply NoDup_cons in Hnd as [Hin _]. apply Hin. by left.
Qed.
(* --------------------------------------------------------------------- *)
(* The not-found test of ListAllReposWithRefresh                           *)
(* --------------------------------------------------------------------- *)

Lemma prefix_app_l (sub s t : string) :
  String.prefix sub s = true -> String.prefix sub (s +:+ t) = true.
Proof.
  revert s. induction sub as [|c sub IH]; intros s.
  { intros _. destruct (s +:+ t); reflexivity. }
  destruct s as [|c' s]; simpl; [discriminate|].
  change (String c' s +:+ t) with (String c' (s +:+ t)). simpl.
  destruct (Ascii.ascii_dec c c'); [apply IH | discriminate].
Qed.

Lemma strings_Contains_cons c s sub :
  strings_Contains (String c s) sub
  = if String.prefix sub (String c s) then true else strings_Contains s sub.
Proof. reflexivity. Qed.

Lemma strings_Contains_app_l (s t sub : string) :
  strings_Contains s sub = true -> strings_Contains (s +:+ t) sub = true.
Proof.
  induction s as [|c s IH].
  - simpl. destruct sub; [|discriminate]. intros _. destruct t; reflexivity.
  - change (String c s +:+ t) with (String c (s +:+ t)).
    rewrite !strings_Contains_cons.
    pose proof (prefix_app_l sub (String c s) t) as Hp.
    change (String c s +:+ t) with (String c (s +:+ t)) in Hp.
    destruct (String.prefix sub (String c s)).
    + intros _. rewrite Hp; reflexivity.
    + intros Hc. rewrite (IH Hc).
      destruct (String.prefix sub (String c (s +:+ t))); reflexivity.
Qed.

Lemma strings_Contains_app_r (p s sub : string) :
  strings_Contains s sub = true -> strings_Contains (p +:+ s) sub = true.
Proof.
  intros Hc. induction p as [|c p IH]; [exact Hc|].
  change (String c p +:+ s) with (String c (p +:+ s)).
  rewrite strings_Contains_cons, IH.
  destruct (String.prefix sub (String c (p +:+ s))); reflexivity.
Qed.

(** Every failure of the organization endpoint is reported with the scope
    name in its text: for a scope whose name contains 404, the text
    contains 404 whatever the status of the failure. *)
Lemma org_failure_text_names_scope (org token : string) (w : World) (e : provider_error) :
  w_listing w (w_requests w)
    (fst (createGitHubClient token w), ListByOrg org) = Failed e ->
  exists text,
    fst (RealClient_ListOrgReposWithToken org token w) = Err text
    /\ (strings_Contains org "404" = true -> strings_Contains text "404" = true).
Proof.
  intros Hl. unfold RealClient_ListOrgReposWithToken, bind, ret.
  assert (Hw : snd (createGitHubClient token w) = w).
  { unfold createGitHubClient, os_Getenv_GITHUB_TOKEN, gets, ret.
    destruct (String.eqb token ""); reflexivity. }
  destruct (createGitHubClient token w) as [client w0]. simpl in Hl, Hw. subst w0.
  unfold provider_list. simpl. rewrite Hl. simpl.
  eexists. split; [reflexivity|].
  intros Hc. apply strings_Contains_app_r, strings_Contains_app_l. exact Hc.
Qed.

(** C9, the code at the failing input: scope team404, refresh requested, the
    organization endpoint rate limited with status 403. The failure is not
    a 404, yet its text contains the scope name and with it "404": the
    user endpoint is asked next, with the same token, and its answer is
    stored for the scope. *)
Theorem user_endpoint_retried_after_rate_limit :
  w_listing team404_world [] ("t0ken", ListByOrg "team404") = Failed rate_limited
  /\ StatusCode rate_limited = 403%Z
  /\ fst (RealClient_ListOrgReposWithToken "team404" "t0ken" team404_world)
     = Err "failed to list repositories for org team404: 403 API rate limit exceeded"
  /\ w_requests (snd (demo_ListAllReposWithRefresh team404_config true team404_world))
     = [("t0ken", ListByOrg "team404"); ("t0ken", GetUser);
        ("t0ken", ListByUser "team404")]
  /\ fst (demo_ListAllReposWithRefresh team404_config true team404_world)
     = Ok {[ "team404" := [gadgets_repo] ]}.
Proof. repeat split; vm_compute; reflexivity. Qed.

(* --------------------------------------------------------------------- *)
(* githubStrategy                                                         *)
(* --------------------------------------------------------------------- *)

(** C4, the code at the failing input: clone_dir "/home/u/my projects". The
    session listGitHub builds for acme/widgets has the clone command of the
    stated form, and the strategy, splitting it at every space, takes
    "/home/u/my" for the clone target: that is the path of the session it
    returns and the directory that gets cloned into, while the target of
    the command does not exist afterwards. *)
Theorem githubStrategy_splits_path_at_space :
  fst (@FindGitHubSession (unix "{}" stale_entry) (acme_lister spaced_clone_dir)
         "acme/widgets (Widget factory)" attic_world)
  = ({| Src := "github"; Name := "acme/widgets (Widget factory)";
        Path := spaced_target;
        StartupCommand :=
          clone_command "https://github.com/acme/widgets.git" spaced_target |},
     true)
  /\ fst (@githubStrategy (unix "{}" stale_entry) (acme_connector spaced_clone_dir)
            "acme/widgets (Widget factory)" attic_world)
     = Ok {| Found := true;
             Session := {| Src := "github"; Name := "acme/widgets (Widget factory)";
                           Path := "/home/u/my"; StartupCommand := "" |};
             New := true; AddToZoxide := true |}
  /\ w_fs (snd (@githubStrategy (unix "{}" stale_entry)
                  (acme_connector spaced_clone_dir)
                  "acme/widgets (Widget factory)" attic_world)) !! "/home/u/my"
     = Some DirNode
  /\ w_fs (snd (@githubStrategy (unix "{}" stale_entry)
                  (acme_connector spaced_clone_dir)
                  "acme/widgets (Widget factory)" attic_world)) !! spaced_target
     = None.
Proof. repeat split; vm_compute; reflexivity. Qed.

Lemma strings_Split_field (a rest : string) :
  space_free a ->
  strings_Split (a +:+ " " +:+ rest) " " = a :: strings_Split rest " ".
Proof.
  unfold space_free. induction a as [|c a IH]; intros Hsp.
  - reflexivity.
  - change (String c a +:+ " " +:+ rest) with (String c (a +:+ " " +:+ rest)).
    cbn [strings_Split].
    destruct (Ascii.eqb_spec c " ") as [->|Hc].
    + exfalso. apply Hsp. by left.
    + rewrite IH; [reflexivity|]. intros Hin. apply Hsp. by right.
Qed.

Lemma strings_Split_single (a : string) :
  space_free a -> strings_Split a " " = [a].
Proof.
  unfold space_free. induction a as [|c a IH]; intros Hsp; [reflexivity|].
  cbn [strings_Split].
  destruct (Ascii.eqb_spec c " ") as [->|Hc].
  - exfalso. apply Hsp. by left.
  - rewrite IH; [reflexivity|]. intros Hin. apply Hsp. by right.
Qed.

Lemma clone_command_parts (url path : string) :
  space_free url -> space_free path ->
  strings_Split (clone_command url path) " "
  = ["git"; "clone"; url; path; "&&"; "cd"; path].
Proof.
  intros Hu Hp. unfold clone_command.
  change ("git clone " +:+ url +:+ " " +:+ path +:+ " && cd " +:+ path)
    with ("git" +:+ " " +:+ "clone" +:+ " " +:+ url +:+ " " +:+ path +:+ " "
            +:+ "&&" +:+ " " +:+ "cd" +:+ " " +:+ path).
  assert (Hlit : forall s, In s ["git"; "clone"; "&&"; "cd"] -> space_free s).
  { intros s Hs. simpl in Hs. unfold space_free.
    repeat (destruct Hs as [<- | Hs]); [.. | contradiction];
      simpl; intuition discriminate. }
  rewrite !strings_Split_field, strings_Split_single;
    auto; apply Hlit; simpl; auto.
Qed.

Lemma clone_command_is_clone (url path : string) :
  negb (String.eqb (clone_command url path) "")
  && strings_Contains (clone_command url path) "git clone" = true.
Proof. reflexivity. Qed.

Section githubStrategy_facts.
Context `{Platform}.

(** For a clone command whose URL and path have no space, the strategy does
    what the command says: it makes the parent directory, clones only when
    the path is missing, and returns the session with the path of the
    command and no startup command, flagged new and for the recency
    index. *)
Lemma githubStrategy_space_free (c : RealConnector) (name url path : string)
    (session : SeshSession) (w w1 w2 : World) :
  lister_FindGitHubSession (c_lister c) name w = ((session, true), w1) ->
  StartupCommand session = clone_command url path ->
  space_free url -> space_free path ->
  os_MkdirAll (filepath_Dir path) w1 = (None, w2) ->
  githubStrategy c name w
  = if os_IsNotExist (stat (w_fs w2) path) then
      match git_Clone (c_git c) url (filepath_Dir path) (filepath_Base path) w2 with
      | (Ok _, w3) =>
          (Ok {| Found := true;
                 Session := {| Src := Src session; Name := Name session;
                               Path := path; StartupCommand := "" |};
                 New := true; AddToZoxide := true |}, w3)
      | (Err err, w3) => (Err ("failed to clone repository: " +:+ err), w3)
      end
    else
      (Ok {| Found := true;
             Session := {| Src := Src session; Name := Name session;
                           Path := path; StartupCommand := "" |};
             New := true; AddToZoxide := true |}, w2).
Proof.
  intros Hfind Hcmd Hu Hp Hmk.
  unfold githubStrategy. unfold bind at 1. rewrite Hfind. cbn [negb].
  rewrite Hcmd, clone_command_is_clone, (clone_command_parts url path Hu Hp).
  cbn [length Nat.leb index nth String.eqb Ascii.eqb Bool.eqb andb].
  unfold bind at 1. rewrite Hmk.
  unfold bind at 1, os_Stat at 1, gets at 1.
  destruct (os_IsNotExist (stat (w_fs w2) path)).
  - unfold bind, ret.
    destruct (git_Clone (c_git c) url (filepath_Dir path) (filepath_Base path) w2)
      as [[out|err] w3]; reflexivity.
  - reflexivity.
Qed.
End githubStrategy_facts.

(** The example of the specification: with the default clone directory the
    session of acme/widgets carries the clone command; connecting clones
    into the target, which exists afterwards, and returns the session with
    that path and no startup command. *)
Example githubStrategy_acme_widgets :
  fst (@FindGitHubSession (unix "{}" stale_entry) (acme_lister "")
         "acme/widgets (Widget factory)" attic_world)
  = ({| Src := "github"; Name := "acme/widgets (Widget factory)";
        Path := "/home/u/git/github.com/acme/widgets";
        StartupCommand :=
          clone_command "https://github.com/acme/widgets.git"
            "/home/u/git/github.com/acme/widgets" |},
     true)
  /\ fst (@githubStrategy (unix "{}" stale_entry) (acme_connector "")
            "acme/widgets (Widget factory)" attic_world)
     = Ok {| Found := true;
             Session := {| Src := "github"; Name := "acme/widgets (Widget factory)";
                           Path := "/home/u/git/github.com/acme/widgets";
                           StartupCommand := "" |};
             New := true; AddToZoxide := true |}
  /\ w_fs (snd (@githubStrategy (unix "{}" stale_entry) (acme_connector "")
                  "acme/widgets (Widget factory)" attic_world))
       !! "/home/u/git/github.com/acme/widgets"
     = Some DirNode.
Proof. repeat split; vm_compute; reflexivity. Qed.
(* --------------------------------------------------------------------- *)
(* GetTokenForOrg                                                         *)
(* --------------------------------------------------------------------- *)

Lemma org_specific_token_none orgs name :
  org_specific_token orgs name = None <->
  (forall org, In org orgs -> org_Name org = name -> org_Token org = "").
Proof.
  induction orgs as [|o orgs IH]; simpl.
  - split; [intros _ org [] | reflexivity].
  - destruct (String.eqb_spec (org_Name o) name) as [En|En]; simpl.
    + destruct (String.eqb_spec (org_Token o) "") as [Et|Et]; simpl.
      * rewrite IH. split.
        -- intros Hr org [<-|Hin] Hn; [exact Et | by apply Hr].
        -- intros Hr org Hin. apply Hr. by right.
      * split; [discriminate|]. intros Hr. exfalso. apply Et. apply Hr; auto.
    + rewrite IH. split.
      * intros Hr org [<-|Hin] Hn; [contradiction | by apply Hr].
      * intros Hr org Hin. apply Hr. by right.
Qed.

Lemma org_specific_token_first l1 org l2 name :
  org_Name org = name -> org_Token org <> "" ->
  (forall o, In o l1 -> org_Name o = name -> org_Token o = "") ->
  org_specific_token (l1 ++ org :: l2) name = Some (org_Token org).
Proof.
  intros Hn Ht. induction l1 as [|o l1 IH]; simpl; intros Hl1.
  - apply String.eqb_eq in Hn. apply String.eqb_neq in Ht.
    rewrite Hn, Ht. reflexivity.
  - destruct (String.eqb_spec (org_Name o) name) as [En|En]; simpl.
    + rewrite (Hl1 o (or_introl eq_refl) En). simpl. apply IH.
      intros o' Hin. apply Hl1. by right.
    + apply IH. intros o' Hin. apply Hl1. by right.
Qed.

Lemma org_specific_token_some orgs name t :
  org_specific_token orgs name = Some t ->
  exists l1 org l2,
    orgs = l1 ++ org :: l2 /\ org_Name org = name /\ org_Token org <> ""
    /\ (forall o, In o l1 -> org_Name o = name -> org_Token o = "")
    /\ org_Token org = t.
Proof.
  induction orgs as [|o orgs IH]; simpl; [discriminate|].
  destruct (String.eqb_spec (org_Name o) name) as [En|En]; simpl.
  - destruct (String.eqb_spec (org_Token o) "") as [Et|Et]; simpl.
    + intros Hs. destruct (IH Hs) as (l1 & org & l2 & -> & Hn & Ht & Hl1 & Htok).
      exists (o :: l1), org, l2. repeat split; auto.
      intros o' [<-|Hin] Hn'; [exact Et | by apply Hl1].
    + intros [= <-]. exists [], o, orgs. repeat split; auto.
      intros o' [].
  - intros Hs. destruct (IH Hs) as (l1 & org & l2 & -> & Hn & Ht & Hl1 & Htok).
    exists (o :: l1), org, l2. repeat split; auto.
    intros o' [<-|Hin] Hn'; [contradiction | by apply Hl1].
Qed.

(** X1: GetTokenForOrg prefers the token of the first entry configured
    under the scope's name whose token is not empty (entries before it
    that carry the name have an empty token), then the global token, then
    GITHUB_TOKEN; it is empty only when none of the three is set. *)
Theorem GetTokenForOrg_priority (c : GitHubConfig) (env name : string) :
  (forall l1 org l2,
      Organizations c = l1 ++ org :: l2 ->
      org_Name org = name -> org_Token org <> "" ->
      (forall o, In o l1 -> org_Name o = name -> org_Token o = "") ->
      GetTokenForOrg c env name = org_Token org)
  /\ ((exists org, In org (Organizations c) /\ org_Name org = name /\ org_Token org <> "") ->
      exists l1 org l2,
        Organizations c = l1 ++ org :: l2
        /\ org_Name org = name /\ org_Token org <> ""
        /\ (forall o, In o l1 -> org_Name o = name -> org_Token o = "")
        /\ GetTokenForOrg c env name = org_Token org)
  /\ ((forall org, In org (Organizations c) -> org_Name org = name -> org_Token org = "") ->
      GetTokenForOrg c env name = if String.eqb (Token c) "" then env else Token c)
  /\ (GetTokenForOrg c env name = "" ->
      env = "" /\ Token c = ""
      /\ forall org, In org (Organizations c) -> org_Name org = name -> org_Token org = "").
Proof.
  unfold GetTokenForOrg. split.
  { intros l1 org l2 -> Hn Ht Hl1.
    by rewrite (org_specific_token_first l1 org l2 name Hn Ht Hl1). }
  destruct (org_specific_token (Organizations c) name) as [t|] eqn:Hs.
  - destruct (org_specific_token_some _ _ _ Hs)
      as (l1 & org & l2 & Hsplit & Hn & Ht & Hl1 & Htok).
    split; [|split].
    + intros _. exists l1, org, l2. subst t. auto.
    + intros Hnone. exfalso. apply Ht. apply Hnone; [|exact Hn].
      rewrite Hsplit. apply in_or_app. right. by left.
    + intros ->. congruence.
  - pose proof (proj1 (org_specific_token_none _ _) Hs) as Hnone.
    split; [|split].
    + intros (org & Hin & Hn & Htok). exfalso. apply Htok. by apply Hnone.
    + intros _. destruct (String.eqb (Token c) ""); reflexivity.
    + destruct (String.eqb_spec (Token c) "") as [Et|Et]; simpl.
      * intros ->. auto.
      * intros E. contradiction.
Qed.

Lemma GetTokenForOrg_priority_witness :
  GetTokenForOrg (legacy_acme_config [scope "labs"; labs_org; labs_spare_org])
    "env-token" "labs" = "labs-token".
Proof.
  apply (proj1 (GetTokenForOrg_priority
                  (legacy_acme_config [scope "labs"; labs_org; labs_spare_org])
                  "env-token" "labs")
           [scope "labs"] labs_org [labs_spare_org]).
  - reflexivity.
  - reflexivity.
  - vm_compute. discriminate.
  - intros o [<-|[]] _. reflexivity.
Defined.

Lemma org_specific_token_own orgs o :
  NoDup (map org_Name orgs) -> In o orgs -> org_Token o <> "" ->
  org_specific_token orgs (org_Name o) = Some (org_Token o).
Proof.
  induction orgs as [|o' orgs IH]; simpl; intros Hnd Hin Ht; [contradiction|].
  apply NoDup_cons in Hnd as [Hfresh Hnd].
  destruct Hin as [->|Hin].
  - rewrite String.eqb_refl. apply String.eqb_neq in Ht. rewrite Ht. reflexivity.
  - destruct (String.eqb_spec (org_Name o') (org_Name o)) as [En|En]; simpl.
    + exfalso. apply Hfresh. rewrite En. apply list_elem_of_In, in_map. exact Hin.
    + by apply IH.
Qed.

(** X2: with distinct scope names in the configuration, every scope that
    GetOrganizations returns with a token of its own is queried with that
    token (for the folded-in legacy scope, the global token). *)
Theorem scope_token_is_own_token (c : GitHubConfig) (env : string) (o : GitHubOrgConfig) :
  NoDup (map org_Name (Organizations c)) ->
  In o (GetOrganizations c) ->
  org_Token o <> "" ->
  GetTokenForOrg c env (org_Name o) = org_Token o.
Proof.
  intros Hnd Hin Ht. unfold GetTokenForOrg.
  unfold GetOrganizations in Hin. simpl in Hin.
  assert (Hcases : In o (Organizations c)
                   \/ (org_found (Organization c) (Organizations c) = false
                       /\ o = {| org_Name := Organization c;
                                 org_DisplayName := Organization c;
                                 org_Token := Token c |})).
  { destruct (negb (String.eqb (Organization c) "")); [|by left].
    destruct (org_found (Organization c) (Organizations c)) eqn:Hf; simpl in Hin;
      [by left|].
    apply in_app_or in Hin as [Hin|[<-|[]]]; [by left | right; auto]. }
  destruct Hcases as [Hl | [Hf ->]].
  - rewrite (org_specific_token_own _ _ Hnd Hl Ht). reflexivity.
  - simpl in *.
    assert (Hnone : org_specific_token (Organizations c) (Organization c) = None).
    { apply org_specific_token_none. intros org Hino Hn. exfalso.
      unfold org_found in Hf.
      assert (existsb (fun org => String.eqb (org_Name org) (Organization c))
                (Organizations c) = true); [|congruence].
      apply existsb_exists. exists org. split; [exact Hino|].
      by apply String.eqb_eq. }
    rewrite Hnone. apply String.eqb_neq in Ht. rewrite Ht. reflexivity.
Qed.

Lemma scope_token_is_own_token_witness :
  GetTokenForOrg (legacy_acme_config [labs_org]) "env-token" "labs" = "labs-token".
Proof.
  apply (scope_token_is_own_token (legacy_acme_config [labs_org]) "env-token" labs_org).
  - vm_compute. repeat constructor. intros H. inversion H.
  - vm_compute. auto.
  - vm_compute. discriminate.
Defined.
(* --------------------------------------------------------------------- *)
(* The language of the two patterns                                       *)
(* --------------------------------------------------------------------- *)

Lemma rx_opt_sound r p s c (k : cont) m :
  rx (Opt r) p s c k = Some m -> rx r p s c k = Some m \/ k p s c = Some m.
Proof. cbn [rx]. destruct (rx r p s c k); [intros [= <-]; by left | by right]. Qed.

Lemma rx_lit_sound t : forall p s c (k : cont) m,
  rx (lit t) p s c k = Some m ->
  exists s', s = list_ascii_of_string t ++ s' /\ k (p + String.length t) s' c = Some m.
Proof.
  induction t as [|ch t IH]; intros p s c k m H.
  - exists s. simpl in *. rewrite Nat.add_0_r. auto.
  - cbn [lit] in H. rewrite rx_cat in H.
    apply rx_chr_sound in H as (s1 & -> & H). cbv beta in H.
    apply IH in H as (s' & -> & H). exists s'. split; [reflexivity|].
    rewrite <- H. f_equal. simpl. lia.
Qed.

Lemma is_name_of_bytes w :
  w <> [] -> forallb (in_bracket name_chars) w = true ->
  is_name (string_of_list_ascii w) = true.
Proof.
  intros Hne Hall. unfold is_name.
  rewrite list_ascii_of_string_of_list_ascii, Hall.
  destruct w; [congruence | reflexivity].
Qed.

(** What githubURLRegex leaves to its last three parts after the second
    group: nothing or one slash, the bytes of [.git] being name bytes. *)
Lemma url_tail_sound pos s (k : cont) m :
  rx url_tail pos s [] k = Some m ->
  exists o r sfx, s = o ++ "/"%char :: r ++ sfx
    /\ o <> [] /\ r <> []
    /\ forallb (in_bracket name_chars) o = true
    /\ forallb (in_bracket name_chars) r = true
    /\ (sfx = [] \/ sfx = ["/"%char]).
Proof.
  unfold url_tail, Concat. cbn [fold_right]. rewrite rx_cat. intros H.
  apply rx_cap_plus_sound in H as (o & rest & -> & Ho & Hoc & H).
  cbv beta in H. rewrite rx_cat in H.
  apply rx_chr_sound in H as (rest1 & -> & H).
  cbv beta in H. rewrite rx_cat in H.
  apply rx_cap_plus_sound in H as (r & rest' & -> & Hr & Hrc & H).
  cbv beta in H. rewrite rx_cat in H.
  assert (Hend : forall p t c,
            rx (Cat (Opt (Chr "/")) (Cat Eol Eps)) p t c k = Some m ->
            t = [] \/ t = ["/"%char]).
  { intros p t c Ht. rewrite rx_cat in Ht.
    apply rx_opt_sound in Ht as [Ht|Ht].
    - apply rx_chr_sound in Ht as (t' & -> & Ht). cbv beta in Ht.
      rewrite rx_cat in Ht. apply rx_eol_sound in Ht as [-> _]. by right.
    - rewrite rx_cat in Ht. apply rx_eol_sound in Ht as [-> _]. by left. }
  apply rx_opt_sound in H as [H|H].
  - apply rx_lit_sound in H as (t & -> & H). cbv beta in H.
    apply Hend in H.
    exists o, (r ++ list_ascii_of_string ".git"), t.
    rewrite <- app_assoc. repeat split; auto.
    + destruct r; [congruence | discriminate].
    + rewrite forallb_app, Hrc. reflexivity.
  - apply Hend in H. exists o, r, rest'. repeat split; auto.
Qed.

Lemma url_tail_match_sfx o r sfx pos (k : cont) m :
  o <> [] -> r <> [] ->
  forallb (in_bracket name_chars) o = true ->
  forallb (in_bracket name_chars) r = true ->
  sfx = [] \/ sfx = ["/"%char] ->
  k (pos + length o + 1 + length r + length sfx) [] [(2, r); (1, o)] = Some m ->
  rx url_tail pos (o ++ "/"%char :: r ++ sfx) [] k = Some m.
Proof.
  intros Ho Hr Hoc Hrc Hsfx Hk.
  unfold url_tail, Concat. cbn [fold_right].
  rewrite rx_cat. apply rx_cap_plus_greedy; auto; [reflexivity|].
  rewrite rx_cat, rx_chr, rx_cat.
  apply rx_cap_plus_greedy; auto.
  - destruct Hsfx as [-> | ->]; [exact I | reflexivity].
  - assert (Hk' : forall n, n = pos + length o + 1 + length r + length sfx ->
              k n [] [(2, r); (1, o)] = Some m) by (by intros n ->).
    destruct Hsfx as [-> | ->]; cbn; rewrite Hk' by (simpl; lia); reflexivity.
Qed.

Lemma url_search_sfx pre o r sfx :
  In pre url_prefixes ->
  o <> [] -> r <> [] ->
  forallb (in_bracket name_chars) o = true ->
  forallb (in_bracket name_chars) r = true ->
  sfx = [] \/ sfx = ["/"%char] ->
  search githubURLRegex 0 (list_ascii_of_string pre ++ o ++ "/"%char :: r ++ sfx)
    = Some (list_ascii_of_string pre ++ o ++ "/"%char :: r ++ sfx, [(2, r); (1, o)]).
Proof.
  intros Hpre Ho Hr Hoc Hrc Hsfx.
  unfold githubURLRegex. change (Concat (Bol :: ?l)) with (Cat Bol (Concat l)).
  rewrite search_anchored.
  change (Concat [?a; ?b; ?c; ?d; ?e; ?f; ?g; ?h; ?i])
    with (Cat a (Cat b (Cat c url_tail))).
  assert (Hlen : forall n, n = length (list_ascii_of_string pre) ->
     rx url_tail n (o ++ "/"%char :: r ++ sfx) [] accept
       = Some (n + length o + 1 + length r + length sfx, [(2, r); (1, o)])).
  { intros n _. apply url_tail_match_sfx; auto. }
  generalize dependent url_tail. intros tail Htail.
  simpl in Hpre.
  repeat (destruct Hpre as [<- | Hpre]); [.. | contradiction].
  all: cbn -[accept].
  all: fold accept.
  all: rewrite Htail by reflexivity.
  all: rewrite firstn_all2; [reflexivity|].
  all: simpl; rewrite !length_app; simpl; rewrite length_app; simpl; lia.
Qed.

Lemma url_search_sound s m :
  search githubURLRegex 0 s = Some m ->
  exists pre o r sfx, In pre url_prefixes
    /\ s = list_ascii_of_string pre ++ o ++ "/"%char :: r ++ sfx
    /\ o <> [] /\ r <> []
    /\ forallb (in_bracket name_chars) o = true
    /\ forallb (in_bracket name_chars) r = true
    /\ (sfx = [] \/ sfx = ["/"%char]).
Proof.
  unfold githubURLRegex. change (Concat (Bol :: ?l)) with (Cat Bol (Concat l)).
  rewrite search_anchored.
  change (Concat [?a; ?b; ?c; ?d; ?e; ?f; ?g; ?h; ?i])
    with (Cat a (Cat b (Cat c url_tail))).
  destruct (rx _ 0 s [] _) as [m'|] eqn:H; [|discriminate]. intros _.
  assert (Hhost : forall p t pre, In (pre +:+ "github.com/") url_prefixes ->
            rx (Cat (lit "github.com/") url_tail) p t []
               (fun pos' _ caps => Some (pos', caps)) = Some m' ->
            exists o r sfx, In (pre +:+ "github.com/") url_prefixes
              /\ list_ascii_of_string pre ++ t
                 = list_ascii_of_string (pre +:+ "github.com/") ++ o ++ "/"%char :: r ++ sfx
              /\ o <> [] /\ r <> []
              /\ forallb (in_bracket name_chars) o = true
              /\ forallb (in_bracket name_chars) r = true
              /\ (sfx = [] \/ sfx = ["/"%char])).
  { intros p t pre Hin Ht. rewrite rx_cat in Ht.
    apply rx_lit_sound in Ht as (t' & -> & Ht). cbv beta in Ht.
    apply url_tail_sound in Ht as (o & r & sfx & -> & Hrest).
    exists o, r, sfx. split; [exact Hin|]. split; [|exact Hrest].
    rewrite list_ascii_of_string_app, <- app_assoc. reflexivity. }
  assert (Hwww : forall p t pre,
            In (pre +:+ "github.com/") url_prefixes ->
            In (pre +:+ "www.github.com/") url_prefixes ->
            rx (Cat (Opt (lit "www.")) (Cat (lit "github.com/") url_tail)) p t []
               (fun pos' _ caps => Some (pos', caps)) = Some m' ->
            exists pre' o r sfx, In pre' url_prefixes
              /\ list_ascii_of_string pre ++ t
                 = list_ascii_of_string pre' ++ o ++ "/"%char :: r ++ sfx
              /\ o <> [] /\ r <> []
              /\ forallb (in_bracket name_chars) o = true
              /\ forallb (in_bracket name_chars) r = true
              /\ (sfx = [] \/ sfx = ["/"%char])).
  { intros p t pre Hin1 Hin2 Ht. rewrite rx_cat in Ht.
    apply rx_opt_sound in Ht as [Ht|Ht].
    - apply rx_lit_sound in Ht as (t' & -> & Ht). cbv beta in Ht.
      apply (Hhost _ _ (pre +:+ "www.")) in Ht; [|by rewrite append_assoc].
      destruct Ht as (o & r & sfx & Hin & E & Hrest).
      exists ((pre +:+ "www.") +:+ "github.com/"), o, r, sfx.
      split; [exact Hin|]. split; [|exact Hrest].
      rewrite <- E, list_ascii_of_string_app, <- app_assoc. reflexivity.
    - apply (Hhost _ _ pre) in Ht; [|exact Hin1].
      destruct Ht as (o & r & sfx & Hin & E & Hrest).
      exists (pre +:+ "github.com/"), o, r, sfx. auto. }
  rewrite rx_cat in H. apply rx_opt_sound in H as [H|H].
  - unfold Concat in H. cbn [fold_right] in H. rewrite rx_cat in H.
    apply rx_lit_sound in H as (t & -> & H). cbv beta in H.
    rewrite rx_cat in H. apply rx_opt_sound in H as [H|H].
    + apply rx_chr_sound in H as (t' & -> & H). cbv beta in H.
      rewrite rx_cat in H.
      apply rx_lit_sound in H as (t & -> & H). cbv beta in H. cbn [rx] in H.
      apply (Hwww _ _ "https://") in H; [exact H | simpl; auto 10 ..].
    + rewrite rx_cat in H.
      apply rx_lit_sound in H as (t' & -> & H). cbv beta in H. cbn [rx] in H.
      apply (Hwww _ _ "http://") in H; [exact H | simpl; auto 10 ..].
  - apply (Hwww _ _ "") in H; [exact H | simpl; auto 10 ..].
Qed.

Lemma FindStringSubmatch_length re input :
  FindStringSubmatch re input = []
  \/ length (FindStringSubmatch re input) = S (NumSubexp re).
Proof.
  unfold FindStringSubmatch.
  destruct (search re 0 (list_ascii_of_string input)) as [[whole caps]|];
    [right | by left].
  simpl. by rewrite length_map, length_seq.
Qed.

Lemma string_of_bytes (s : string) (l : list ascii) :
  list_ascii_of_string s = l -> s = string_of_list_ascii l.
Proof. intros <-. by rewrite string_of_list_ascii_of_string. Qed.

Lemma string_of_list_ascii_app (a b : list ascii) :
  string_of_list_ascii (a ++ b) = string_of_list_ascii a +:+ string_of_list_ascii b.
Proof.
  induction a as [|c a IH]; [reflexivity|]. simpl. rewrite IH. reflexivity.
Qed.

Lemma sfx_cases (sfx : list ascii) :
  sfx = [] \/ sfx = ["/"%char] -> In (string_of_list_ascii sfx) [""; "/"].
Proof. intros [-> | ->]; simpl; auto. Qed.

Lemma FindStringSubmatch_shorthand_inv input :
  FindStringSubmatch githubShorthandRegex input <> [] ->
  exists owner repo, is_name owner = true /\ is_name repo = true
    /\ input = owner +:+ "/" +:+ repo.
Proof.
  unfold FindStringSubmatch.
  destruct (search _ 0 _) as [m|] eqn:H; [|congruence]. intros _.
  revert H. unfold githubShorthandRegex.
  change (Concat (Bol :: ?l)) with (Cat Bol (Concat l)).
  rewrite search_anchored.
  destruct (rx _ 0 _ [] _) as [m'|] eqn:H; [|discriminate]. intros _.
  apply shorthand_rx_sound in H as (o & r & E & Ho & Hr & Hoc & Hrc & _).
  exists (string_of_list_ascii o), (string_of_list_ascii r).
  split; [by apply is_name_of_bytes|]. split; [by apply is_name_of_bytes|].
  apply string_of_bytes in E. rewrite E.
  change ("/"%char :: r) with (["/"%char] ++ r).
  rewrite !string_of_list_ascii_app. reflexivity.
Qed.

Lemma FindStringSubmatch_url_inv input :
  FindStringSubmatch githubURLRegex input <> [] ->
  exists pre owner repo sfx, In pre url_prefixes /\ In sfx [""; "/"]
    /\ is_name owner = true /\ is_name repo = true
    /\ input = pre +:+ owner +:+ "/" +:+ repo +:+ sfx.
Proof.
  unfold FindStringSubmatch.
  destruct (search _ 0 _) as [m|] eqn:H; [|congruence]. intros _.
  apply url_search_sound in H
    as (pre & o & r & sfx & Hpre & E & Ho & Hr & Hoc & Hrc & Hsfx).
  exists pre, (string_of_list_ascii o), (string_of_list_ascii r),
    (string_of_list_ascii sfx).
  split; [exact Hpre|]. split; [by apply sfx_cases|].
  split; [by apply is_name_of_bytes|]. split; [by apply is_name_of_bytes|].
  apply string_of_bytes in E. rewrite E.
  change ("/"%char :: r ++ sfx) with (["/"%char] ++ r ++ sfx).
  rewrite !string_of_list_ascii_app, string_of_list_ascii_of_string. reflexivity.
Qed.

Lemma FindStringSubmatch_url_sfx pre owner repo sfx :
  In pre url_prefixes -> In sfx [""; "/"] ->
  is_name owner = true -> is_name repo = true ->
  FindStringSubmatch githubShorthandRegex (pre +:+ owner +:+ "/" +:+ repo +:+ sfx) = []
  /\ FindStringSubmatch githubURLRegex (pre +:+ owner +:+ "/" +:+ repo +:+ sfx)
     = [pre +:+ owner +:+ "/" +:+ repo +:+ sfx; owner; repo].
Proof.
  intros Hpre Hsfx Ho Hr.
  apply is_name_bytes in Ho as [Ho Hoc]. apply is_name_bytes in Hr as [Hr Hrc].
  assert (Hs : list_ascii_of_string sfx = [] \/ list_ascii_of_string sfx = ["/"%char]).
  { destruct Hsfx as [<- | [<- | []]]; auto. }
  assert (E : list_ascii_of_string (pre +:+ owner +:+ "/" +:+ repo +:+ sfx)
              = list_ascii_of_string pre ++ list_ascii_of_string owner
                  ++ "/"%char :: list_ascii_of_string repo ++ list_ascii_of_string sfx).
  { rewrite !list_ascii_of_string_app. reflexivity. }
  unfold FindStringSubmatch. rewrite E.
  rewrite shorthand_rejects_url by assumption.
  rewrite url_search_sfx by assumption.
  rewrite <- E, !string_of_list_ascii_of_string. simpl.
  rewrite !string_of_list_ascii_of_string. auto.
Qed.

Lemma Extract_ok_inv (input owner repo : string) :
  ExtractOrgAndRepo input = Ok (owner, repo) ->
  is_name owner = true /\ is_name repo = true
  /\ (input = owner +:+ "/" +:+ repo
      \/ exists pre sfx, In pre url_prefixes /\ In sfx [""; "/"]
           /\ input = pre +:+ owner +:+ "/" +:+ repo +:+ sfx).
Proof.
  unfold ExtractOrgAndRepo.
  destruct (Nat.eqb_spec (length (FindStringSubmatch githubShorthandRegex input)) 3)
    as [L1|L1].
  - intros [= E1 E2].
    assert (Hne : FindStringSubmatch githubShorthandRegex input <> [])
      by (intros E; rewrite E in L1; discriminate).
    apply FindStringSubmatch_shorthand_inv in Hne as (o & r & Ho & Hr & ->).
    rewrite (FindStringSubmatch_shorthand o r Ho Hr) in E1, E2.
    simpl in E1, E2. subst. auto.
  - destruct (Nat.eqb_spec (length (FindStringSubmatch githubURLRegex input)) 3)
      as [L2|L2]; [|discriminate].
    intros [= E1 E2].
    assert (Hne : FindStringSubmatch githubURLRegex input <> [])
      by (intros E; rewrite E in L2; discriminate).
    apply FindStringSubmatch_url_inv in Hne
      as (pre & o & r & sfx & Hpre & Hsfx & Ho & Hr & ->).
    destruct (FindStringSubmatch_url_sfx pre o r sfx Hpre Hsfx Ho Hr) as [_ E].
    rewrite E in E1, E2. simpl in E1, E2. subst.
    split; [exact Ho|]. split; [exact Hr|]. right. exists pre, sfx. auto.
Qed.

Lemma Extract_ok_intro (input owner repo : string) :
  is_name owner = true -> is_name repo = true ->
  (input = owner +:+ "/" +:+ repo
   \/ exists pre sfx, In pre url_prefixes /\ In sfx [""; "/"]
        /\ input = pre +:+ owner +:+ "/" +:+ repo +:+ sfx) ->
  ExtractOrgAndRepo input = Ok (owner, repo).
Proof.
  intros Ho Hr [-> | (pre & sfx & Hpre & Hsfx & ->)]; unfold ExtractOrgAndRepo.
  - rewrite (FindStringSubmatch_shorthand owner repo Ho Hr). reflexivity.
  - destruct (FindStringSubmatch_url_sfx pre owner repo sfx Hpre Hsfx Ho Hr)
      as [E1 E2].
    rewrite E1, E2. reflexivity.
Qed.

Lemma IsGitHubShorthand_true_extract (input : string) :
  IsGitHubShorthand input = true ->
  exists owner repo, ExtractOrgAndRepo input = Ok (owner, repo).
Proof.
  unfold IsGitHubShorthand, ExtractOrgAndRepo.
  rewrite !MatchString_FindStringSubmatch.
  destruct (FindStringSubmatch_length githubShorthandRegex input) as [E1|E1];
    rewrite E1; simpl; [|eauto].
  destruct (FindStringSubmatch_length githubURLRegex input) as [E2|E2];
    rewrite E2; simpl; [discriminate | eauto].
Qed.

Lemma IsGitHubShorthand_false_extract (input : string) :
  IsGitHubShorthand input = false ->
  ExtractOrgAndRepo input = Err ("invalid GitHub shorthand format: " +:+ input).
Proof.
  unfold IsGitHubShorthand.
  destruct (MatchString githubShorthandRegex input) eqn:M1; [discriminate|].
  destruct (MatchString githubURLRegex input) eqn:M2; [discriminate|].
  intros _. by apply Extract_error_iff_unrecognised.
Qed.

Lemma Extract_ok_IsGitHubShorthand (input owner repo : string) :
  ExtractOrgAndRepo input = Ok (owner, repo) -> IsGitHubShorthand input = true.
Proof.
  intros E. destruct (IsGitHubShorthand input) eqn:Hs; [reflexivity|].
  rewrite (IsGitHubShorthand_false_extract _ Hs) in E. discriminate.
Qed.

(** X3: ExtractOrgAndRepo succeeds exactly on owner/repo and on the
    github.com URL spellings (optional scheme, optional www., optional
    final slash) of names over [a-zA-Z0-9._-], and returns these two names;
    a final .git is therefore always part of the repository name. *)
Theorem ExtractOrgAndRepo_language (input owner repo : string) :
  ExtractOrgAndRepo input = Ok (owner, repo) <->
  is_name owner = true /\ is_name repo = true
  /\ (input = owner +:+ "/" +:+ repo
      \/ exists pre sfx, In pre url_prefixes /\ In sfx [""; "/"]
           /\ input = pre +:+ owner +:+ "/" +:+ repo +:+ sfx).
Proof.
  split; [apply Extract_ok_inv|].
  intros (Ho & Hr & Hin). by apply Extract_ok_intro.
Qed.

(** X4: IsGitHubShorthand accepts exactly the inputs that ExtractOrgAndRepo
    and ConvertToURL succeed on; on every other input ConvertToURL fails
    with the invalid-format error that quotes the input. *)
Theorem IsGitHubShorthand_guards_conversion (input : string) (config : GitHubConfig) :
  (IsGitHubShorthand input = true <->
   exists owner repo, ExtractOrgAndRepo input = Ok (owner, repo))
  /\ (IsGitHubShorthand input = true <->
      exists url, ConvertToURL input config = Ok url)
  /\ (IsGitHubShorthand input = false <->
      ConvertToURL input config = Err ("invalid GitHub shorthand format: " +:+ input)).
Proof.
  assert (H3 : forall owner repo, ExtractOrgAndRepo input = Ok (owner, repo) ->
               exists url, ConvertToURL input config = Ok url).
  { intros owner repo E. unfold ConvertToURL. rewrite E.
    destruct (UseSSH config); eauto. }
  destruct (IsGitHubShorthand input) eqn:Hs.
  - destruct (IsGitHubShorthand_true_extract _ Hs) as (owner & repo & E).
    destruct (H3 _ _ E) as (url & Eu).
    repeat split; try discriminate; eauto.
    rewrite Eu. discriminate.
  - pose proof (IsGitHubShorthand_false_extract _ Hs) as E.
    assert (Ec : ConvertToURL input config
                 = Err ("invalid GitHub shorthand format: " +:+ input))
      by (unfold ConvertToURL; rewrite E; reflexivity).
    repeat split; try discriminate; auto.
    + intros (owner & repo & E'). congruence.
    + intros (url & E'). congruence.
Qed.
(* --------------------------------------------------------------------- *)
(* GetClonePath                                                           *)
(* --------------------------------------------------------------------- *)

Lemma append_cons (c : ascii) (s t : string) :
  String c s +:+ t = String c (s +:+ t).
Proof. reflexivity. Qed.

Lemma append_nil_r (s : string) : s +:+ "" = s.
Proof.
  induction s as [|c s IH]; [reflexivity|]. rewrite append_cons. by rewrite IH.
Qed.

Lemma expandHome_tilde (rest : string) (w : World) :
  expandHome (String "~" (String "/" rest)) w
  = (match w_home w with
     | Some homeDir => homeDir +:+ String "/" rest
     | None => String "~" (String "/" rest)
     end, w).
Proof.
  unfold expandHome, strings_HasPrefix, os_UserHomeDir, gets, bind, ret. simpl.
  destruct rest; simpl; destruct (w_home w); reflexivity.
Qed.

Lemma expandHome_other (path : string) (w : World) :
  strings_HasPrefix path "~/" = false -> expandHome path w = (path, w).
Proof. unfold expandHome. intros ->. reflexivity. Qed.

Lemma HasPrefix_cons (c c' : ascii) (pre s : string) :
  strings_HasPrefix (String c' s) (String c pre)
  = if ascii_dec c c' then strings_HasPrefix s pre else false.
Proof. reflexivity. Qed.

Lemma HasPrefix_nil (s : string) : strings_HasPrefix s "" = true.
Proof. destruct s; reflexivity. Qed.

Lemma HasPrefix_tilde path :
  strings_HasPrefix path "~/" = true <-> exists rest, path = String "~" (String "/" rest).
Proof.
  split.
  - destruct path as [|c [|c2 d]]; try discriminate.
    + rewrite HasPrefix_cons. destruct (ascii_dec "~" c); discriminate.
    + rewrite !HasPrefix_cons.
      destruct (ascii_dec "~" c) as [<-|]; [|discriminate].
      destruct (ascii_dec "/" c2) as [<-|]; [|discriminate]. eauto.
  - intros [rest ->]. rewrite !HasPrefix_cons. simpl. apply HasPrefix_nil.
Qed.

Lemma GetClonePath_root (org repo : string) (config : GitHubConfig) (w : World) :
  GetClonePath org repo config w
  = (clone_root config (w_home w) +:+ "/github.com/" +:+ org +:+ "/" +:+ repo, w).
Proof.
  unfold GetClonePath, clone_root.
  destruct (CloneDir config) as [|c d] eqn:Ed.
  - change (String.eqb "" "") with true. cbn [negb]. cbv iota.
    change ("~/git/github.com/" +:+ org +:+ "/" +:+ repo)
      with (String "~" (String "/" ("git/github.com/" +:+ org +:+ "/" +:+ repo))).
    rewrite expandHome_tilde.
    destruct (w_home w) as [homeDir|]; [|reflexivity].
    rewrite append_assoc. reflexivity.
  - change (String.eqb (String c d) "") with false. cbn [negb]. cbv iota.
    destruct (String.eqb_spec (String c d) "~") as [E|E].
    + injection E as -> ->. cbn [orb].
      change ("~" +:+ "/github.com/" +:+ org +:+ "/" +:+ repo)
        with (String "~" (String "/" ("github.com/" +:+ org +:+ "/" +:+ repo))).
      rewrite expandHome_tilde.
      destruct (w_home w) as [homeDir|]; [|reflexivity].
      cbn [string_drop]. rewrite append_assoc. reflexivity.
    + cbn [orb].
      destruct (strings_HasPrefix (String c d) "~/") eqn:Hp.
      * apply HasPrefix_tilde in Hp as [rest Hp]. rewrite Hp.
        rewrite !append_cons, expandHome_tilde.
        destruct (w_home w) as [homeDir|]; [|by rewrite !append_cons].
        cbn [string_drop]. rewrite <- append_cons, append_assoc. reflexivity.
      * rewrite expandHome_other; [by destruct (w_home w)|].
        destruct (strings_HasPrefix (String c d +:+ _) "~/") eqn:Hq; [|reflexivity].
        apply HasPrefix_tilde in Hq as [rest Hq].
        destruct d as [|c2 d].
        -- injection Hq as -> _. congruence.
        -- rewrite !append_cons in Hq. injection Hq as -> -> _.
           rewrite <- Hp. symmetry. apply HasPrefix_tilde. eauto.
Qed.

(** X5: GetClonePath returns root/github.com/org/repo and changes nothing;
    the root is the clone directory (~/git without one), in which a leading
    ~ is replaced by the home directory when the directory is ~ itself or
    starts with ~/, and only when the home directory is known. *)
Theorem GetClonePath_layout (org repo : string) (config : GitHubConfig) (w : World) :
  GetClonePath org repo config w
  = (clone_root config (w_home w) +:+ "/github.com/" +:+ org +:+ "/" +:+ repo, w).
Proof. apply GetClonePath_root. Qed.
(* --------------------------------------------------------------------- *)
(* Texts                                                                  *)
(* --------------------------------------------------------------------- *)

Lemma byte_free_cons (c x : ascii) (s : string) :
  byte_free c (String x s) <-> x <> c /\ byte_free c s.
Proof. unfold byte_free. simpl. intuition. Qed.

Lemma byte_free_app (c : ascii) (a b : string) :
  byte_free c (a +:+ b) <-> byte_free c a /\ byte_free c b.
Proof.
  unfold byte_free. rewrite list_ascii_of_string_app, in_app_iff. intuition.
Qed.

Lemma is_name_byte_free (c : ascii) (s : string) :
  in_bracket name_chars c = false -> is_name s = true -> byte_free c s.
Proof.
  intros Hc Hs. apply is_name_bytes in Hs as [_ Hall].
  unfold byte_free. intros Hin.
  rewrite forallb_forall in Hall. apply Hall in Hin. congruence.
Qed.

Lemma is_name_nonempty (s : string) : is_name s = true -> s <> "".
Proof. intros Hs ->. discriminate. Qed.

Lemma length_append (a b : string) :
  String.length (a +:+ b) = String.length a + String.length b.
Proof. induction a as [|c a IH]; [reflexivity|]. rewrite append_cons. simpl. lia. Qed.

Lemma string_take_app (a b : string) : string_take (String.length a) (a +:+ b) = a.
Proof.
  induction a as [|c a IH]; [by destruct b|]. rewrite append_cons. simpl. by rewrite IH.
Qed.

Lemma string_drop_app (a b : string) : string_drop (String.length a) (a +:+ b) = b.
Proof. induction a as [|c a IH]; [by destruct b|]. rewrite append_cons. exact IH. Qed.

Lemma strings_LastIndex_free (sep : ascii) (s : string) :
  byte_free sep s -> strings_LastIndex s sep = (-1)%Z.
Proof.
  induction s as [|c s IH]; intros Hs; [reflexivity|].
  apply byte_free_cons in Hs as [Hc Hs]. simpl. rewrite (IH Hs). simpl.
  destruct (Ascii.eqb_spec c sep); [contradiction | reflexivity].
Qed.

Lemma strings_LastIndex_app (sep : ascii) (a b : string) :
  byte_free sep b ->
  strings_LastIndex (a +:+ String sep b) sep = Z.of_nat (String.length a).
Proof.
  intros Hb. induction a as [|c a IH].
  - simpl. rewrite (strings_LastIndex_free _ _ Hb). simpl.
    by rewrite Ascii.eqb_refl.
  - rewrite append_cons. cbn [strings_LastIndex]. rewrite IH.
    destruct (Z.leb_spec 0 (Z.of_nat (String.length a))); [|lia].
    cbn [String.length]. lia.
Qed.

Lemma split_clone_path_app (a b : string) (opts : GitCloneOptions) :
  a <> "" -> slash_free b ->
  split_clone_path (a +:+ "/" +:+ b) opts
  = {| Repo := Repo opts; CmdDir := a; Dir := b |}.
Proof.
  intros Ha Hb. unfold split_clone_path.
  change ("/" +:+ b) with (String "/" b).
  rewrite (strings_LastIndex_app "/" a b Hb).
  destruct (Z.ltb_spec 0 (Z.of_nat (String.length a))) as [_|Hl].
  - rewrite Nat2Z.id, string_take_app. f_equal.
    rewrite Nat.add_1_r.
    replace (S (String.length a)) with (String.length (a +:+ "/"))
      by (rewrite length_append; simpl; lia).
    change (String "/" b) with ("/" +:+ b).
    rewrite <- (append_assoc a "/" b). apply string_drop_app.
  - destruct a; [congruence | simpl in Hl; lia].
Qed.

Lemma strings_Split_nonempty (s : string) (sep : ascii) : strings_Split s sep <> [].
Proof.
  destruct s as [|c s]; simpl; [discriminate|].
  destruct (Ascii.eqb c sep); [discriminate|].
  destruct (strings_Split s sep); discriminate.
Qed.

Lemma strings_Split_sep (sep : ascii) (a rest : string) :
  byte_free sep a ->
  strings_Split (a +:+ String sep rest) sep = a :: strings_Split rest sep.
Proof.
  induction a as [|c a IH]; intros Ha.
  - simpl. by rewrite Ascii.eqb_refl.
  - apply byte_free_cons in Ha as [Hc Ha].
    rewrite append_cons. cbn [strings_Split].
    destruct (Ascii.eqb_spec c sep); [contradiction|].
    by rewrite IH.
Qed.

Lemma strings_Split_free (sep : ascii) (a : string) :
  byte_free sep a -> strings_Split a sep = [a].
Proof.
  induction a as [|c a IH]; intros Ha; [reflexivity|].
  apply byte_free_cons in Ha as [Hc Ha]. cbn [strings_Split].
  destruct (Ascii.eqb_spec c sep); [contradiction|].
  by rewrite IH.
Qed.

Lemma strings_HasSuffix_app (s suffix : string) :
  strings_HasSuffix (s +:+ suffix) suffix = true.
Proof.
  unfold strings_HasSuffix. rewrite length_append.
  replace (String.length s + String.length suffix - String.length suffix)
    with (String.length s) by lia.
  rewrite string_drop_app, String.eqb_refl.
  destruct (Nat.leb_spec (String.length suffix) (String.length s + String.length suffix));
    [reflexivity | lia].
Qed.

Lemma strings_TrimSuffix_app (s suffix : string) :
  strings_TrimSuffix (s +:+ suffix) suffix = s.
Proof.
  unfold strings_TrimSuffix. rewrite strings_HasSuffix_app, length_append.
  replace (String.length s + String.length suffix - String.length suffix)
    with (String.length s) by lia.
  apply string_take_app.
Qed.

(* --------------------------------------------------------------------- *)
(* Clone                                                                  *)
(* --------------------------------------------------------------------- *)

Lemma git_at_not_shorthand (rest : string) :
  IsGitHubShorthand ("git@" +:+ rest) = false.
Proof.
  destruct (IsGitHubShorthand ("git@" +:+ rest)) eqn:Hs; [|reflexivity].
  apply IsGitHubShorthand_true_extract in Hs as (owner & repo & E).
  apply Extract_ok_inv in E as (Ho & _ & [E | (pre & sfx & Hpre & _ & E)]).
  - exfalso.
    assert (Hslash : byte_free "/" owner) by (by apply is_name_byte_free).
    assert (Hat : byte_free "@" owner) by (by apply is_name_byte_free).
    destruct owner as [|c1 [|c2 [|c3 [|c4 owner]]]]; try discriminate E.
    injection E as _ _ _ E _.
    apply Hat. simpl. auto.
  - exfalso. simpl in Hpre.
    repeat (destruct Hpre as [<- | Hpre]); try contradiction; discriminate E.
Qed.

Section cloner_proofs.
Context `{Platform}.
Variable os_Getwd : M string.
Variable url_Parse : string -> result (string * string).

Lemma getPath_explicit (opts : GitCloneOptions) (w : World) :
  CmdDir opts <> "" -> Dir opts <> "" ->
  getPath os_Getwd opts w = (CmdDir opts +:+ "/" +:+ Dir opts, w).
Proof.
  intros Hc Hd. unfold getPath, bind, ret.
  apply String.eqb_neq in Hc, Hd. rewrite Hc, Hd. reflexivity.
Qed.

Lemma resolve_shorthand (c : RealCloner) (input owner repo : string) (w : World) :
  ExtractOrgAndRepo input = Ok (owner, repo) ->
  exists url, ConvertToURL input (cl_config c) = Ok url
    /\ resolve url_Parse c (clone_of input) w
       = (Returns (Ok (url,
            {| Repo := input;
               CmdDir := clone_root (cl_config c) (w_home w)
                           +:+ "/github.com/" +:+ owner;
               Dir := repo |})), w).
Proof.
  intros E.
  assert (Hc : exists url, ConvertToURL input (cl_config c) = Ok url).
  { unfold ConvertToURL. rewrite E. destruct (UseSSH (cl_config c)); eauto. }
  destruct Hc as [url Hc]. exists url. split; [exact Hc|].
  unfold resolve, clone_of. cbn [Repo CmdDir Dir].
  rewrite (Extract_ok_IsGitHubShorthand _ _ _ E), Hc, E.
  change (String.eqb "" "" && String.eqb "" "") with true. cbv iota.
  unfold bind, ret. rewrite GetClonePath_root.
  apply Extract_ok_inv in E as (Ho & Hr & _).
  replace (clone_root (cl_config c) (w_home w) +:+ "/github.com/" +:+ owner
             +:+ "/" +:+ repo)
    with ((clone_root (cl_config c) (w_home w) +:+ "/github.com/" +:+ owner)
            +:+ "/" +:+ repo)
    by (by rewrite !append_assoc).
  rewrite split_clone_path_app.
  - reflexivity.
  - intros E. apply (f_equal String.length) in E.
    rewrite !length_append in E. simpl in E. lia.
  - by apply is_name_byte_free.
Qed.

Lemma set_fs_same (w : World) : set_fs (w_fs w) w = w.
Proof. by destruct w. Qed.

Lemma Clone_resolved (c : RealCloner) (opts opts' : GitCloneOptions)
    (url : string) (w w0 : World) :
  resolve url_Parse c opts w = (Returns (Ok (url, opts')), w0) ->
  CmdDir opts' <> "" -> Dir opts' <> "" ->
  Clone os_Getwd url_Parse c opts w
  = match os_MkdirAll (CmdDir opts') w0 with
    | (Some err, w1) =>
        (Returns (Err ("failed to create directory " +:+ CmdDir opts'
                         +:+ ": " +:+ os_error_text err)), w1)
    | (None, w1) => clone_and_attach c url (CmdDir opts') (Dir opts') w1
    end.
Proof.
  intros Hres Hc Hd. unfold Clone. unfold bind at 1. rewrite Hres.
  apply String.eqb_neq in Hc as Hc'. rewrite Hc'. cbn [negb].
  unfold bind at 1.
  destruct (os_MkdirAll (CmdDir opts') w0) as [[err|] w1]; [reflexivity|].
  unfold clone_and_attach, bind, ret.
  destruct (git_Clone (cl_git c) url (CmdDir opts') (Dir opts') w1) as [[out|err] w2];
    [|reflexivity].
  rewrite getPath_explicit by assumption. reflexivity.
Qed.

Lemma clone_and_attach_path (c : RealCloner) (url parent leaf : string) (w : World) :
  fst (clone_and_attach c url parent leaf w) <> Panics
  /\ forall path, fst (clone_and_attach c url parent leaf w) = Returns (Ok path) ->
                  path = parent +:+ "/" +:+ leaf.
Proof.
  unfold clone_and_attach, bind, ret.
  destruct (git_Clone (cl_git c) url parent leaf w) as [[out|err] w1]; cbn [fst].
  2:{ split; [discriminate | intros path; discriminate]. }
  destruct (Connect (cl_connector c) (parent +:+ "/" +:+ leaf) w1) as [[out'|err] w2];
    cbn [fst].
  2:{ split; [discriminate | intros path; discriminate]. }
  split; [discriminate|]. by intros path [= <-].
Qed.

(** What Clone does with a resolved reference: it makes the parent
    directory, and only then runs git and the connector. *)
Lemma Clone_destination (c : RealCloner) (opts opts' : GitCloneOptions)
    (url : string) (w w0 : World) :
  resolve url_Parse c opts w = (Returns (Ok (url, opts')), w0) ->
  CmdDir opts' <> "" -> Dir opts' <> "" ->
  (forall w1, os_MkdirAll (CmdDir opts') w0 = (None, w1) ->
     Clone os_Getwd url_Parse c opts w
     = clone_and_attach c url (CmdDir opts') (Dir opts') w1)
  /\ (forall err w1, os_MkdirAll (CmdDir opts') w0 = (Some err, w1) ->
       exists cause,
         Clone os_Getwd url_Parse c opts w
         = (Returns (Err ("failed to create directory " +:+ CmdDir opts'
                            +:+ ": " +:+ cause)), w1))
  /\ fst (Clone os_Getwd url_Parse c opts w) <> Panics
  /\ forall path,
       fst (Clone os_Getwd url_Parse c opts w) = Returns (Ok path) ->
       path = CmdDir opts' +:+ "/" +:+ Dir opts'.
Proof.
  intros Hres Hc Hd. rewrite (Clone_resolved c opts opts' url w w0 Hres Hc Hd).
  destruct (os_MkdirAll (CmdDir opts') w0) as [[err|] w1].
  - split; [intros w2; discriminate|].
    split; [intros err' w2 [= <- <-]; eauto|].
    cbn [fst]. split; [discriminate | intros path; discriminate].
  - split; [by intros w2 [= <-]|].
    split; [intros err' w2; discriminate|].
    apply clone_and_attach_path.
Qed.

(** X6: for a reference that ExtractOrgAndRepo accepts, without an explicit
    destination, Clone makes the parent directory of GetClonePath(owner,
    repo); when that succeeds it runs git clone of the converted URL there
    with repo as the leaf directory, and then the connector on
    GetClonePath(owner, repo), the only path it returns; when making the
    directory fails it returns the create-directory error and runs neither.
    It never panics. *)
Theorem Clone_shorthand_destination (c : RealCloner) (input owner repo : string)
    (w : World) :
  ExtractOrgAndRepo input = Ok (owner, repo) ->
  let parent := clone_root (cl_config c) (w_home w) +:+ "/github.com/" +:+ owner in
  parent +:+ "/" +:+ repo = fst (GetClonePath owner repo (cl_config c) w)
  /\ (exists url,
        ConvertToURL input (cl_config c) = Ok url
        /\ (forall w1, os_MkdirAll parent w = (None, w1) ->
              Clone os_Getwd url_Parse c (clone_of input) w
              = clone_and_attach c url parent repo w1)
        /\ (forall err w1, os_MkdirAll parent w = (Some err, w1) ->
              exists cause,
                Clone os_Getwd url_Parse c (clone_of input) w
                = (Returns (Err ("failed to create directory " +:+ parent
                                   +:+ ": " +:+ cause)), w1)))
  /\ fst (Clone os_Getwd url_Parse c (clone_of input) w) <> Panics
  /\ forall path,
       fst (Clone os_Getwd url_Parse c (clone_of input) w) = Returns (Ok path) ->
       path = fst (GetClonePath owner repo (cl_config c) w).
Proof.
  intros E parent.
  destruct (resolve_shorthand c input owner repo w E) as (url & Hc & Hres).
  pose proof (Extract_ok_inv _ _ _ E) as (Ho & Hr & _).
  fold parent in Hres.
  assert (Hpath : parent +:+ "/" +:+ repo
                  = fst (GetClonePath owner repo (cl_config c) w)).
  { rewrite GetClonePath_root. cbn [fst]. unfold parent. by rewrite !append_assoc. }
  destruct (Clone_destination c _ _ url w w Hres) as (Hgit & Hfail & Hnp & Hret);
    cbn [CmdDir Dir] in *.
  { intros E'. apply (f_equal String.length) in E'. unfold parent in E'.
    rewrite !length_append in E'. simpl in E'. lia. }
  { by apply is_name_nonempty. }
  split; [exact Hpath|]. split; [exists url; auto|].
  split; [exact Hnp|]. intros path Hp. rewrite <- Hpath. by apply Hret.
Qed.

Lemma HasPrefix_append (pre s : string) : strings_HasPrefix (pre +:+ s) pre = true.
Proof.
  induction pre as [|c pre IH]; [apply HasPrefix_nil|].
  rewrite append_cons, HasPrefix_cons.
  destruct (ascii_dec c c); [exact IH | congruence].
Qed.

Lemma HasPrefix_inv (pre s : string) :
  strings_HasPrefix s pre = true -> exists rest, s = pre +:+ rest.
Proof.
  revert s. induction pre as [|c pre IH]; intros s Hp; [by exists s|].
  destruct s as [|c' s]; [discriminate|].
  rewrite HasPrefix_cons in Hp.
  destruct (ascii_dec c c') as [<-|]; [|discriminate].
  destruct (IH _ Hp) as [rest ->]. by exists rest.
Qed.

Lemma strings_Split_head (c sep : ascii) (s : string) :
  c <> sep ->
  index (strings_Split (String c s) sep) 0
  = String c (index (strings_Split s sep) 0).
Proof.
  intros Hc. cbn [strings_Split].
  destruct (Ascii.eqb_spec c sep); [contradiction|].
  pose proof (strings_Split_nonempty s sep).
  destruct (strings_Split s sep); [congruence | reflexivity].
Qed.

Lemma ssh_url_parts (host org repo : string) :
  is_name host = true -> is_name org = true -> is_name repo = true ->
  strings_Split (ssh_url host org repo) ":"
  = ["git@" +:+ host; org +:+ "/" +:+ repo +:+ ".git"].
Proof.
  intros Hh Ho Hr. unfold ssh_url.
  rewrite <- (append_assoc "git@" host).
  change (":" +:+ ?x) with (String ":" x).
  rewrite strings_Split_sep.
  - rewrite strings_Split_free; [reflexivity|].
    rewrite !byte_free_app. repeat split.
    + by apply is_name_byte_free.
    + unfold byte_free. simpl. intuition discriminate.
    + by apply is_name_byte_free.
    + unfold byte_free. simpl. intuition discriminate.
  - rewrite byte_free_app. split.
    + unfold byte_free. simpl. intuition discriminate.
    + by apply is_name_byte_free.
Qed.

Lemma parseGitURL_ssh_url (host org repo : string) :
  is_name host = true -> is_name org = true -> is_name repo = true ->
  parseGitURL url_Parse (ssh_url host org repo) = Returns (Ok (host, org, repo)).
Proof.
  intros Hh Ho Hr. unfold parseGitURL.
  rewrite (ssh_url_parts host org repo Hh Ho Hr).
  unfold ssh_url at 1. rewrite HasPrefix_append.
  cbn [length Nat.eqb negb index nth].
  change ("git@" +:+ host) with ("git" +:+ String "@" host).
  rewrite strings_Split_sep by (unfold byte_free; simpl; intuition discriminate).
  rewrite strings_Split_free by (by apply is_name_byte_free).
  replace (org +:+ "/" +:+ repo +:+ ".git") with ((org +:+ "/" +:+ repo) +:+ ".git")
    by (by rewrite !append_assoc).
  rewrite strings_TrimSuffix_app.
  change ("/" +:+ repo) with (String "/" repo).
  rewrite strings_Split_sep by (by apply is_name_byte_free).
  rewrite strings_Split_free by (by apply is_name_byte_free).
  reflexivity.
Qed.

(** X7: parseGitURL reads host, owner and repository off the SSH spelling
    git@host:owner/repo.git of names over [a-zA-Z0-9._-]. *)
Theorem parseGitURL_ssh (host org repo : string) :
  is_name host = true -> is_name org = true -> is_name repo = true ->
  parseGitURL url_Parse ("git@" +:+ host +:+ ":" +:+ org +:+ "/" +:+ repo +:+ ".git")
  = Returns (Ok (host, org, repo)).
Proof. apply parseGitURL_ssh_url. Qed.

Lemma parseGitURL_returns (gitURL : string) : parseGitURL url_Parse gitURL <> Panics.
Proof.
  unfold parseGitURL.
  destruct (strings_HasPrefix gitURL "git@") eqn:Hp.
  - destruct (negb _); [discriminate|].
    apply HasPrefix_inv in Hp as [rest ->].
    change ("git@" +:+ rest)
      with (String "g" (String "i" (String "t" (String "@" rest)))).
    rewrite !strings_Split_head by discriminate.
    set (f := index (strings_Split rest ":") 0).
    change (String "g" (String "i" (String "t" (String "@" f))))
      with ("git" +:+ String "@" f).
    rewrite strings_Split_sep by (unfold byte_free; simpl; intuition discriminate).
    pose proof (strings_Split_nonempty f "@").
    destruct (strings_Split f "@"); [congruence|].
    destruct (2 <=? _)%nat; discriminate.
  - destruct (url_Parse gitURL) as [[host path]|err]; [|discriminate].
    destruct (2 <=? _)%nat; discriminate.
Qed.

(** X8: parseGitURL never panics: on the SSH branch the text before the
    colon always has a field after its first @, the only index the source
    takes without a length check. *)
Theorem parseGitURL_never_panics (gitURL : string) :
  parseGitURL url_Parse gitURL <> Panics.
Proof. apply parseGitURL_returns. Qed.

Lemma RealCloner_expandHome_root (config : GitHubConfig) (w : World) :
  CloneDir config <> "~" ->
  RealCloner_expandHome
    (if String.eqb (CloneDir config) "" then "~/git" else CloneDir config) w
  = (clone_root config (w_home w), w).
Proof.
  intros Hne. unfold clone_root, RealCloner_expandHome.
  destruct (String.eqb_spec (CloneDir config) "") as [E|E].
  - unfold os_UserHomeDir, gets, bind, ret. simpl.
    destruct (w_home w); reflexivity.
  - apply String.eqb_neq in Hne. rewrite Hne. cbn [orb].
    destruct (strings_HasPrefix (CloneDir config) "~/") eqn:Hp.
    + apply HasPrefix_tilde in Hp as [rest ->].
      unfold os_UserHomeDir, gets, bind, ret. simpl.
      destruct (w_home w); reflexivity.
    + by destruct (w_home w).
Qed.

Lemma resolve_ssh (c : RealCloner) (host org repo : string) (w : World) :
  is_name host = true -> is_name org = true -> is_name repo = true ->
  resolve url_Parse c (clone_of (ssh_url host org repo)) w
  = (Returns (Ok (ssh_url host org repo,
       {| Repo := ssh_url host org repo;
          CmdDir := fst (RealCloner_expandHome
                           (if String.eqb (CloneDir (cl_config c)) "" then "~/git"
                            else CloneDir (cl_config c)) w)
                      +:+ "/" +:+ host +:+ "/" +:+ org;
          Dir := repo |})), w).
Proof.
  intros Hh Ho Hr. unfold resolve, clone_of. cbn [Repo CmdDir Dir].
  unfold ssh_url at 1. rewrite git_at_not_shorthand.
  change (String.eqb "" "" && String.eqb "" "") with true. cbv iota.
  rewrite (parseGitURL_ssh_url host org repo Hh Ho Hr).
  apply is_name_nonempty in Hh as Hh', Ho as Ho', Hr as Hr'.
  apply String.eqb_neq in Hh', Ho', Hr'. rewrite Hh', Ho', Hr'. cbn [negb andb].
  unfold bind, ret.
  set (cloneDir := if String.eqb (CloneDir (cl_config c)) "" then "~/git"
                   else CloneDir (cl_config c)).
  assert (Hw : snd (RealCloner_expandHome cloneDir w) = w).
  { unfold RealCloner_expandHome, os_UserHomeDir, gets, bind, ret.
    destruct (strings_HasPrefix cloneDir "~/"); [|reflexivity].
    destruct (w_home w); reflexivity. }
  destruct (RealCloner_expandHome cloneDir w) as [root w1]. cbn [fst snd] in *.
  subst w1.
  change (strings_Join [root; host; org; repo] "/")
    with (root +:+ "/" +:+ host +:+ "/" +:+ org +:+ "/" +:+ repo).
  replace (root +:+ "/" +:+ host +:+ "/" +:+ org +:+ "/" +:+ repo)
    with ((root +:+ "/" +:+ host +:+ "/" +:+ org) +:+ "/" +:+ repo)
    by (by rewrite !append_assoc).
  rewrite split_clone_path_app; [reflexivity | | by apply is_name_byte_free].
  intros E. apply (f_equal String.length) in E.
  rewrite !length_append in E. simpl in E. lia.
Qed.

(** X9: for the SSH spelling git@host:owner/repo.git, host, owner and repo
    being names over [a-zA-Z0-9._-], without an explicit destination, Clone
    makes the directory root/host/owner, where root is the clone directory
    (~/git without one) after expandHome; when that succeeds it runs git
    clone of the reference as given there with repo as the leaf directory,
    and then the connector on root/host/owner/repo, the only path it
    returns; when making the directory fails it returns the
    create-directory error and runs neither. It never panics. *)
Theorem Clone_ssh_destination (c : RealCloner) (host org repo : string) (w : World) :
  is_name host = true -> is_name org = true -> is_name repo = true ->
  let root :=
    fst (RealCloner_expandHome
           (if String.eqb (CloneDir (cl_config c)) "" then "~/git"
            else CloneDir (cl_config c)) w) in
  let parent := root +:+ "/" +:+ host +:+ "/" +:+ org in
  (forall w1, os_MkdirAll parent w = (None, w1) ->
     Clone os_Getwd url_Parse c (clone_of (ssh_url host org repo)) w
     = clone_and_attach c (ssh_url host org repo) parent repo w1)
  /\ (forall err w1, os_MkdirAll parent w = (Some err, w1) ->
       exists cause,
         Clone os_Getwd url_Parse c (clone_of (ssh_url host org repo)) w
         = (Returns (Err ("failed to create directory " +:+ parent
                            +:+ ": " +:+ cause)), w1))
  /\ fst (Clone os_Getwd url_Parse c (clone_of (ssh_url host org repo)) w) <> Panics
  /\ forall path,
       fst (Clone os_Getwd url_Parse c (clone_of (ssh_url host org repo)) w)
       = Returns (Ok path) ->
       path = root +:+ "/" +:+ host +:+ "/" +:+ org +:+ "/" +:+ repo.
Proof.
  intros Hh Ho Hr root parent.
  pose proof (resolve_ssh c host org repo w Hh Ho Hr) as Hres.
  fold root in Hres. fold parent in Hres.
  destruct (Clone_destination c _ _ _ w w Hres) as (Hgit & Hfail & Hnp & Hret);
    cbn [CmdDir Dir] in *.
  { intros E'. apply (f_equal String.length) in E'. unfold parent in E'.
    rewrite !length_append in E'. simpl in E'. lia. }
  { by apply is_name_nonempty. }
  split; [exact Hgit|]. split; [exact Hfail|]. split; [exact Hnp|].
  intros path Hp. apply Hret in Hp. rewrite Hp. unfold parent.
  by rewrite !append_assoc.
Qed.

(** X10: unless the clone directory is exactly ~, the SSH spelling
    git@github.com:owner/repo.git and the shorthand owner/repo resolve to
    the same parent and leaf directory, and with use_ssh also to the same
    URL to clone. *)
Theorem ssh_and_shorthand_destinations_agree (c : RealCloner) (owner repo : string)
    (w : World) :
  CloneDir (cl_config c) <> "~" ->
  is_name owner = true -> is_name repo = true ->
  exists url cmdDir dir,
    resolve url_Parse c (clone_of (owner +:+ "/" +:+ repo)) w
    = (Returns (Ok (url, {| Repo := owner +:+ "/" +:+ repo;
                            CmdDir := cmdDir; Dir := dir |})), w)
    /\ resolve url_Parse c (clone_of (ssh_url "github.com" owner repo)) w
       = (Returns (Ok (ssh_url "github.com" owner repo,
                       {| Repo := ssh_url "github.com" owner repo;
                          CmdDir := cmdDir; Dir := dir |})), w)
    /\ (UseSSH (cl_config c) = true -> url = ssh_url "github.com" owner repo).
Proof.
  intros Hne Ho Hr.
  assert (E : ExtractOrgAndRepo (owner +:+ "/" +:+ repo) = Ok (owner, repo))
    by (apply Extract_ok_intro; auto).
  destruct (resolve_shorthand c _ _ _ w E) as (url & Hc & Hres).
  exists url, (clone_root (cl_config c) (w_home w) +:+ "/github.com/" +:+ owner), repo.
  split; [exact Hres|]. split.
  - rewrite (resolve_ssh c "github.com" owner repo w eq_refl Ho Hr).
    rewrite (RealCloner_expandHome_root _ w Hne). cbn [fst].
    reflexivity.
  - intros Hssh. unfold ConvertToURL in Hc. rewrite E, Hssh in Hc.
    injection Hc as <-. reflexivity.
Qed.

(** X11: when a destination directory is given and a file is in its place,
    Clone fails with the create-directory error that names the directory,
    before git or the connector run, and leaves the world as it was. *)
Theorem Clone_mkdir_failure (c : RealCloner) (opts : GitCloneOptions) (w : World)
    (accessible : bool) (data : string) :
  CmdDir opts <> "" ->
  w_fs w !! CmdDir opts = Some (FileNode accessible data) ->
  exists cause,
    Clone os_Getwd url_Parse c opts w
    = (Returns (Err ("failed to create directory " +:+ CmdDir opts
                       +:+ ": " +:+ cause)), w).
Proof.
  intros Hne Hfile. apply String.eqb_neq in Hne.
  assert (Hres : exists url, resolve url_Parse c opts w = (Returns (Ok (url, opts)), w)).
  { unfold resolve. rewrite Hne. cbn [andb].
    destruct (IsGitHubShorthand (Repo opts)) eqn:Hs; [|eauto].
    apply IsGitHubShorthand_true_extract in Hs as (owner & repo & E).
    unfold ConvertToURL. rewrite E. destruct (UseSSH (cl_config c)); eauto. }
  destruct Hres as [url Hres].
  unfold Clone, bind, ret. rewrite Hres, Hne. cbn [negb].
  unfold os_MkdirAll. rewrite Hne.
  assert (Hm : mkdir_all (String.length (CmdDir opts)) (w_fs w) (CmdDir opts)
               = (Some ENOTDIR, w_fs w)).
  { destruct (String.length (CmdDir opts)); simpl; by rewrite Hfile. }
  rewrite Hm, set_fs_same. eauto.
Qed.
End cloner_proofs.

Lemma Clone_shorthand_destination_witness :
  ExtractOrgAndRepo "acme/widgets" = Ok ("acme", "widgets")
  /\ fst (@Clone (unix "{}" stale_entry) demo_Getwd no_url_Parse demo_cloner
            (clone_of "acme/widgets") occupied_world)
     = fst (clone_and_attach demo_cloner "https://github.com/acme/widgets.git"
              "/home/u/git/github.com/acme" "widgets"
              (snd (@os_MkdirAll (unix "{}" stale_entry)
                      "/home/u/git/github.com/acme" occupied_world)))
  /\ fst (@Clone (unix "{}" stale_entry) demo_Getwd no_url_Parse demo_cloner
            (clone_of "acme/widgets") occupied_world)
     = Returns (Ok "/home/u/git/github.com/acme/widgets").
Proof.
  assert (E : ExtractOrgAndRepo "acme/widgets" = Ok ("acme", "widgets"))
    by (vm_compute; reflexivity).
  split; [exact E|].
  destruct (@Clone_shorthand_destination (unix "{}" stale_entry) demo_Getwd
              no_url_Parse demo_cloner "acme/widgets" "acme" "widgets"
              occupied_world E)
    as (_ & (url & Hurl & Hgit & _) & _).
  assert (Eu : url = "https://github.com/acme/widgets.git")
    by (vm_compute in Hurl; congruence).
  subst url.
  rewrite (Hgit (snd (@os_MkdirAll (unix "{}" stale_entry)
                        "/home/u/git/github.com/acme" occupied_world)))
    by (vm_compute; reflexivity).
  split; [reflexivity | vm_compute; reflexivity].
Defined.

Lemma parseGitURL_ssh_witness :
  parseGitURL no_url_Parse "git@gitlab.com:team/app.git"
  = Returns (Ok ("gitlab.com", "team", "app")).
Proof.
  apply (parseGitURL_ssh no_url_Parse "gitlab.com" "team" "app");
    vm_compute; reflexivity.
Defined.

Lemma Clone_ssh_destination_witness :
  fst (@Clone (unix "{}" stale_entry) demo_Getwd no_url_Parse demo_cloner
         (clone_of (ssh_url "gitlab.com" "team" "app")) occupied_world)
  = fst (clone_and_attach demo_cloner "git@gitlab.com:team/app.git"
           "/home/u/git/gitlab.com/team" "app"
           (snd (@os_MkdirAll (unix "{}" stale_entry)
                   "/home/u/git/gitlab.com/team" occupied_world)))
  /\ fst (@Clone (unix "{}" stale_entry) demo_Getwd no_url_Parse demo_cloner
            (clone_of (ssh_url "gitlab.com" "team" "app")) occupied_world)
     = Returns (Ok "/home/u/git/gitlab.com/team/app").
Proof.
  destruct (@Clone_ssh_destination (unix "{}" stale_entry) demo_Getwd no_url_Parse
              demo_cloner "gitlab.com" "team" "app" occupied_world
              eq_refl eq_refl eq_refl)
    as (Hgit & _).
  rewrite (Hgit (snd (@os_MkdirAll (unix "{}" stale_entry)
                        "/home/u/git/gitlab.com/team" occupied_world)))
    by (vm_compute; reflexivity).
  split; [reflexivity | vm_compute; reflexivity].
Defined.

Lemma ssh_and_shorthand_destinations_agree_witness :
  exists url cmdDir dir,
    resolve no_url_Parse demo_cloner (clone_of ("acme" +:+ "/" +:+ "widgets"))
      occupied_world
    = (Returns (Ok (url, {| Repo := "acme" +:+ "/" +:+ "widgets";
                            CmdDir := cmdDir; Dir := dir |})), occupied_world)
    /\ resolve no_url_Parse demo_cloner
         (clone_of (ssh_url "github.com" "acme" "widgets")) occupied_world
       = (Returns (Ok (ssh_url "github.com" "acme" "widgets",
                       {| Repo := ssh_url "github.com" "acme" "widgets";
                          CmdDir := cmdDir; Dir := dir |})), occupied_world)
    /\ (UseSSH (cl_config demo_cloner) = true
        -> url = ssh_url "github.com" "acme" "widgets").
Proof.
  apply (ssh_and_shorthand_destinations_agree no_url_Parse demo_cloner
           "acme" "widgets" occupied_world);
    [discriminate | vm_compute; reflexivity | vm_compute; reflexivity].
Defined.

Lemma Clone_mkdir_failure_witness :
  exists cause,
    @Clone (unix "{}" stale_entry) demo_Getwd no_url_Parse demo_cloner
      {| Repo := "acme/widgets"; CmdDir := "/home/u/occupied"; Dir := "" |}
      occupied_world
    = (Returns (Err ("failed to create directory "
                       +:+ CmdDir {| Repo := "acme/widgets";
                                     CmdDir := "/home/u/occupied"; Dir := "" |}
                       +:+ ": " +:+ cause)),
       occupied_world).
Proof.
  apply (@Clone_mkdir_failure (unix "{}" stale_entry) demo_Getwd no_url_Parse
           demo_cloner
           {| Repo := "acme/widgets"; CmdDir := "/home/u/occupied"; Dir := "" |}
           occupied_world true "");
    [discriminate | vm_compute; reflexivity].
Defined.

(* --------------------------------------------------------------------- *)
(* getRepoName                                                            *)
(* --------------------------------------------------------------------- *)

Lemma strings_Split_app (sep : ascii) (a rest : string) :
  strings_Split (a +:+ String sep rest) sep
  = strings_Split a sep ++ strings_Split rest sep.
Proof.
  induction a as [|c a IH].
  - simpl. by rewrite Ascii.eqb_refl.
  - rewrite append_cons. cbn [strings_Split]. rewrite IH.
    destruct (Ascii.eqb c sep); [reflexivity|].
    pose proof (strings_Split_nonempty a sep).
    destruct (strings_Split a sep); [congruence | reflexivity].
Qed.

Lemma strings_Split_fields (sep : ascii) (s : string) :
  Forall (byte_free sep) (strings_Split s sep).
Proof.
  induction s as [|c s IH].
  - repeat constructor. intros [].
  - cbn [strings_Split]. destruct (Ascii.eqb_spec c sep) as [->|Hc].
    + constructor; [intros [] | exact IH].
    + destruct (strings_Split s sep) as [|p ps].
      * repeat constructor. apply byte_free_cons. split; [exact Hc | intros []].
      * inversion IH; subst. constructor; [|assumption].
        apply byte_free_cons. auto.
Qed.

Lemma string_take_byte_free (c : ascii) (s : string) : forall n,
  byte_free c s -> byte_free c (string_take n s).
Proof.
  induction s as [|x s IH]; intros [|n] Hs; cbn [string_take].
  - intros [].
  - intros [].
  - intros [].
  - apply byte_free_cons in Hs as [Hx Hs]. apply byte_free_cons. auto.
Qed.

(** X12: getRepoName never returns a text with a slash, and for a reference
    that ends in /name it returns name without one final .git, so the
    empty text for a reference that ends in a slash. *)
Theorem getRepoName_last_segment (url : string) :
  slash_free (getRepoName url)
  /\ forall pre name, slash_free name -> url = pre +:+ "/" +:+ name ->
       getRepoName url = strings_TrimSuffix name ".git".
Proof.
  unfold getRepoName. split.
  - assert (Hl : byte_free "/" (List.last (strings_Split url "/") "")).
    { pose proof (strings_Split_fields "/" url) as Hall.
      pose proof (strings_Split_nonempty url "/") as Hne.
      destruct (exists_last Hne) as (l & x & E). rewrite E in *.
      rewrite last_last. apply Forall_app in Hall as [_ Hx]. by inversion Hx. }
    unfold strings_TrimSuffix.
    destruct (strings_HasSuffix _ _); [|exact Hl].
    by apply string_take_byte_free.
  - intros pre name Hn ->.
    change ("/" +:+ name) with (String "/" name).
    rewrite strings_Split_app, (strings_Split_free "/" name Hn), last_last.
    reflexivity.
Qed.
(* --------------------------------------------------------------------- *)
(* RealCache: what Get reports and what Get and Set leave alone           *)
(* --------------------------------------------------------------------- *)

Section RealCache_extras.
Context `{Platform}.

Ltac run_cache' :=
  unfold bind, os_Stat, os_ReadFile, os_MkdirAll, os_WriteFile, gets, stat,
    ret, time_Now, slog, set_fs; simpl.

Lemma RealCache_Get_found_inv w org repos :
  fst (RealCache_Get org w) = (repos, true) ->
  exists data cache,
    cache_file w org <> ""
    /\ w_fs w !! cache_file w org = Some (FileNode true data)
    /\ json_Unmarshal data = Some cache
    /\ (next_reading w <= ExpiresAt cache)%Z
    /\ repos = Repos cache.
Proof.
  pose proof (getCacheFilePath_frame org w) as Hf.
  unfold RealCache_Get. unfold bind at 1.
  unfold cache_file, next_reading.
  destruct (getCacheFilePath org w) as [path w0]. simpl in Hf. simpl fst.
  destruct Hf as (Hfs & _ & _ & Hclock & Htick & _ & _ & _ & l & Hlog).
  rewrite <- Hfs, <- Hclock, <- Htick.
  run_cache'.
  destruct (String.eqb_spec path "") as [->|Hne]; simpl; [discriminate|].
  destruct (w_fs w0 !! path) as [[|acc data]|] eqn:Hm; simpl;
    rewrite ?Hm; simpl; try discriminate.
  destruct acc; simpl; [|discriminate].
  destruct (json_Unmarshal data) as [cache|] eqn:Hj; simpl; [|discriminate].
  unfold Time_After.
  destruct (Z.ltb_spec (ExpiresAt cache) (w_clock w0 (w_tick w0))) as [Hexp|Hexp];
    simpl; [discriminate|].
  intros [= <-]. exists data, cache. auto.
Qed.

Lemma RealCache_Get_not_found w org repos :
  fst (RealCache_Get org w) = (repos, false) -> repos = [].
Proof.
  unfold RealCache_Get. unfold bind at 1.
  destruct (getCacheFilePath org w) as [path w0].
  run_cache'.
  destruct (String.eqb path ""); simpl; [by intros [= <-]|].
  destruct (w_fs w0 !! path) as [[|acc data]|] eqn:Hm; simpl;
    rewrite ?Hm; simpl; try (by intros [= <-]).
  destruct acc; simpl; [|by intros [= <-]].
  destruct (json_Unmarshal data) as [cache|]; simpl; [|by intros [= <-]].
  destruct (Time_After _ _); simpl; [by intros [= <-] | discriminate].
Qed.

(** X13: Get reports found exactly when the scope's cache file is readable,
    decodes, and the clock has not passed its expires_at; the repositories
    are then those of the file. With not-found it returns no repositories. *)
Theorem RealCache_Get_found_iff (w : World) (org : string) (repos : list GitHubRepo) :
  (fst (RealCache_Get org w) = (repos, true) <->
   exists data cache,
     cache_file w org <> ""
     /\ w_fs w !! cache_file w org = Some (FileNode true data)
     /\ json_Unmarshal data = Some cache
     /\ (next_reading w <= ExpiresAt cache)%Z
     /\ repos = Repos cache)
  /\ (fst (RealCache_Get org w) = (repos, false) -> repos = []).
Proof.
  split; [split|].
  - apply RealCache_Get_found_inv.
  - intros (data & cache & Hne & Hm & Hj & Hexp & ->).
    by apply (RealCache_Get_hit w org data).
  - apply RealCache_Get_not_found.
Qed.

Lemma RealCache_Get_frame w org w' :
  snd (RealCache_Get org w) = w' ->
  w_fs w' = w_fs w /\ w_home w' = w_home w
  /\ w_GITHUB_TOKEN w' = w_GITHUB_TOKEN w
  /\ w_requests w' = w_requests w
  /\ w_clock w' = w_clock w
  /\ (w_tick w <= w_tick w' <= S (w_tick w))%nat
  /\ exists l, w_log w' = w_log w ++ l.
Proof.
  pose proof (getCacheFilePath_frame org w) as Hf.
  unfold RealCache_Get. unfold bind at 1.
  destruct (getCacheFilePath org w) as [path w0]. simpl in Hf.
  destruct Hf as (Hfs & Hhome & Henv & Hclock & Htick & Hreq & _ & _ & l & Hlog).
  rewrite <- Hfs, <- Hhome, <- Henv, <- Hclock, <- Htick, <- Hreq.
  assert (Hl : forall l', exists l'', (w_log w0 ++ l') = w_log w ++ l'').
  { intros l'. rewrite Hlog, <- app_assoc. eauto. }
  assert (Hl0 : exists l'', w_log w0 = w_log w ++ l'') by eauto.
  run_cache'.
  destruct (String.eqb path ""); simpl;
    [intros <-; repeat split; eauto; lia|].
  destruct (w_fs w0 !! path) as [[|acc data]|] eqn:Hm; simpl;
    rewrite ?Hm; simpl;
    [intros <-; simpl; repeat split; eauto; lia | |
     intros <-; repeat split; eauto; lia].
  destruct acc; simpl; [|intros <-; simpl; repeat split; eauto; lia].
  destruct (json_Unmarshal data) as [cache|]; simpl;
    [|intros <-; simpl; repeat split; eauto; lia].
  destruct (Time_After _ _); simpl; intros <-; simpl; repeat split; eauto; lia.
Qed.

(** X14: Get only reads: the file system, the home directory, the
    environment and the provider requests are as before; it reads the clock
    at most once and only appends to the log. *)
Theorem RealCache_Get_read_only (w : World) (org : string) :
  let w' := snd (RealCache_Get org w) in
  w_fs w' = w_fs w /\ w_home w' = w_home w
  /\ w_GITHUB_TOKEN w' = w_GITHUB_TOKEN w
  /\ w_requests w' = w_requests w
  /\ w_clock w' = w_clock w
  /\ (w_tick w <= w_tick w' <= S (w_tick w))%nat
  /\ exists l, w_log w' = w_log w ++ l.
Proof. intros w'. by apply (RealCache_Get_frame w org). Qed.

Lemma mkdir_all_frame fuel : forall fs path err fs',
  mkdir_all fuel fs path = (err, fs') ->
  forall p,
    (forall node, fs !! p = Some node -> fs' !! p = Some node)
    /\ (fs !! p = None -> fs' !! p = None \/ fs' !! p = Some DirNode).
Proof.
  assert (Hins : forall (fs : gmap string node) path, fs !! path = None ->
            forall p,
              (forall node, fs !! p = Some node ->
                            <[path := DirNode]> fs !! p = Some node)
              /\ (fs !! p = None ->
                  <[path := DirNode]> fs !! p = None
                  \/ <[path := DirNode]> fs !! p = Some DirNode)).
  { intros fs path Hnone p. destruct (decide (path = p)) as [->|Hne].
    - rewrite lookup_insert_eq. split; [congruence | auto].
    - rewrite lookup_insert_ne by done. auto. }
  induction fuel as [|fuel IH]; intros fs path err fs'; simpl.
  - destruct (fs !! path) as [[|acc data]|] eqn:Hl; intros [= <- <-]; auto.
  - destruct (fs !! path) as [[|acc data]|] eqn:Hl; try (intros [= <- <-]; auto).
    destruct (String.eqb (filepath_Dir path) path); [intros [= <- <-]; auto|].
    destruct (mkdir_all fuel fs (filepath_Dir path)) as [[e|] fs1] eqn:Hrec.
    + intros [= <- <-]. exact (IH _ _ _ _ Hrec).
    + intros [= <- <-] p. destruct (IH _ _ _ _ Hrec p) as [Hold Hnew].
      destruct (decide (path = p)) as [->|Hne].
      * rewrite lookup_insert_eq. split; [congruence | auto].
      * rewrite lookup_insert_ne by done. auto.
Qed.

Lemma os_MkdirAll_inv path w err w' :
  os_MkdirAll path w = (err, w') ->
  w_home w' = w_home w /\ w_GITHUB_TOKEN w' = w_GITHUB_TOKEN w
  /\ w_requests w' = w_requests w /\ w_log w' = w_log w
  /\ forall p,
       (forall node, w_fs w !! p = Some node -> w_fs w' !! p = Some node)
       /\ (w_fs w !! p = None ->
           w_fs w' !! p = None \/ w_fs w' !! p = Some DirNode).
Proof.
  unfold os_MkdirAll. destruct (String.eqb path "").
  { intros [= <- <-]. repeat split; auto. }
  destruct (mkdir_all (String.length path) (w_fs w) path) as [e fs] eqn:Hm.
  intros [= <- <-]. simpl. repeat split; auto; by apply (mkdir_all_frame _ _ _ _ _ Hm).
Qed.

Lemma os_WriteFile_frame name data w err w' :
  os_WriteFile name data w = (err, w') ->
  w_home w' = w_home w /\ w_GITHUB_TOKEN w' = w_GITHUB_TOKEN w
  /\ w_requests w' = w_requests w /\ w_log w' = w_log w
  /\ forall p, p <> name -> w_fs w' !! p = w_fs w !! p.
Proof.
  unfold os_WriteFile.
  destruct (String.eqb name ""); [by intros [= <- <-]|].
  destruct (w_fs w !! filepath_Dir name) as [[|? ?]|]; try (by intros [= <- <-]).
  destruct (w_fs w !! name) as [[|[|] ?]|]; try (by intros [= <- <-]).
  all: intros [= <- <-]; simpl; repeat split; auto.
  all: intros p Hp; by rewrite lookup_insert_ne.
Qed.

Lemma RealCache_Set_frame w org repos timeout w1 :
  snd (RealCache_Set org repos timeout w) = w1 ->
  (forall p node, p <> cache_file w org ->
     w_fs w !! p = Some node -> w_fs w1 !! p = Some node)
  /\ (forall p, p <> cache_file w org -> w_fs w !! p = None ->
        w_fs w1 !! p = None \/ w_fs w1 !! p = Some DirNode)
  /\ w_home w1 = w_home w
  /\ w_GITHUB_TOKEN w1 = w_GITHUB_TOKEN w
  /\ w_requests w1 = w_requests w
  /\ exists l, l <> [] /\ w_log w1 = w_log w ++ l.
Proof.
  pose proof (getCacheFilePath_frame org w) as Hf.
  unfold RealCache_Set, cache_file. unfold bind at 1.
  destruct (getCacheFilePath org w) as [path w0]. simpl in Hf. simpl fst.
  destruct Hf as (Hfs & Hhome & Henv & Hclock & Htick & Hreq & _ & _ & l & Hlog).
  rewrite <- Hfs, <- Hhome, <- Henv, <- Hreq.
  assert (Hl : forall r, exists l', l' <> [] /\ (w_log w0 ++ [r]) = w_log w ++ l').
  { intros r. exists (l ++ [r]). split; [by destruct l|].
    by rewrite Hlog, <- app_assoc. }
  unfold bind at 1.
  destruct (os_MkdirAll (filepath_Dir path) w0) as [err wm] eqn:Hmk.
  apply os_MkdirAll_inv in Hmk as (Mh & Me & Mr & Ml & Mfs).
  rewrite <- Mh, <- Me, <- Mr. rewrite <- Ml in Hl.
  assert (Hold : forall p node, w_fs w0 !! p = Some node -> w_fs wm !! p = Some node)
    by (intros p; apply Mfs).
  assert (Hnew : forall p, w_fs w0 !! p = None ->
                           w_fs wm !! p = None \/ w_fs wm !! p = Some DirNode)
    by (intros p; apply Mfs).
  destruct err as [err|].
  { unfold slog. simpl. intros <-. simpl. repeat split; auto. }
  unfold bind at 1, time_Now at 1.
  destruct (json_MarshalIndent _) as [data|].
  2:{ unfold slog. simpl. intros <-. simpl. repeat split; auto. }
  unfold bind at 1.
  match goal with |- context [os_WriteFile path data ?w] =>
    destruct (os_WriteFile path data w) as [werr ww] eqn:Hwr end.
  apply os_WriteFile_frame in Hwr as (Wh & We & Wr & Wl & Wfs). simpl in *.
  assert (Hfin : forall level msg,
            snd (slog level msg ww) = w1 ->
            (forall p node, p <> path ->
               w_fs w0 !! p = Some node -> w_fs w1 !! p = Some node)
            /\ (forall p, p <> path -> w_fs w0 !! p = None ->
                  w_fs w1 !! p = None \/ w_fs w1 !! p = Some DirNode)
            /\ w_home w1 = w_home wm
            /\ w_GITHUB_TOKEN w1 = w_GITHUB_TOKEN wm
            /\ w_requests w1 = w_requests wm
            /\ exists l0, l0 <> [] /\ w_log w1 = w_log w ++ l0).
  { intros level msg <-. unfold slog. simpl. rewrite Wl.
    repeat split; auto.
    - intros p nd Hp Hsome. rewrite (Wfs p Hp). by apply Hold.
    - intros p Hp Hnone. rewrite (Wfs p Hp). by apply Hnew. }
  destruct werr; apply Hfin.
Qed.

(** X15: apart from the scope's own cache file, Set leaves every entry of
    the file system as it is and creates nothing but directories; the home
    directory, the environment and the provider requests are as before, and
    it always reports its outcome in the log. *)
Theorem RealCache_Set_touches_own_file (w : World) (org : string)
    (repos : list GitHubRepo) (timeout : Z) :
  let w1 := snd (RealCache_Set org repos timeout w) in
  (forall p node, p <> cache_file w org ->
     w_fs w !! p = Some node -> w_fs w1 !! p = Some node)
  /\ (forall p, p <> cache_file w org -> w_fs w !! p = None ->
        w_fs w1 !! p = None \/ w_fs w1 !! p = Some DirNode)
  /\ w_home w1 = w_home w
  /\ w_GITHUB_TOKEN w1 = w_GITHUB_TOKEN w
  /\ w_requests w1 = w_requests w
  /\ exists l, l <> [] /\ w_log w1 = w_log w ++ l.
Proof. intros w1. by apply (RealCache_Set_frame w org repos timeout). Qed.
End RealCache_extras.
(* --------------------------------------------------------------------- *)
(* RealClient                                                             *)
(* --------------------------------------------------------------------- *)

Lemma all_pages_repos (wrap : error -> error) (pages : listing) :
  forall allRepos,
    all_pages wrap pages allRepos
    = match pages_repos pages with
      | inl e => Err (wrap (ErrorText e))
      | inr repos => Ok (allRepos ++ repos)
      end.
Proof.
  induction pages as [repos | repos rest IH | e]; intros allRepos; simpl;
    [reflexivity | | reflexivity].
  rewrite IH. destruct (pages_repos rest); [reflexivity|].
  by rewrite app_assoc.
Qed.

Lemma createGitHubClient_sent (token : string) (w : World) :
  createGitHubClient token w = (sent_token token w, w).
Proof.
  unfold createGitHubClient, sent_token, os_Getenv_GITHUB_TOKEN, gets, ret.
  destruct (String.eqb token ""); reflexivity.
Qed.

(** X16: ListOrgReposWithToken makes exactly one listing request, to the
    organization endpoint, with the given token or GITHUB_TOKEN when that is
    empty, and touches nothing else. It returns all pages in order when all
    arrive; when one fails it returns no repositories and the error of that
    page behind the text naming the organization. *)
Theorem ListOrgReposWithToken_one_request (org token : string) (w : World) :
  let req := (sent_token token w, ListByOrg org) in
  let w' := snd (RealClient_ListOrgReposWithToken org token w) in
  w_requests w' = w_requests w ++ [req]
  /\ same_but_requests w w'
  /\ fst (RealClient_ListOrgReposWithToken org token w)
     = match pages_repos (w_listing w (w_requests w) req) with
       | inr repos => Ok repos
       | inl e => Err ("failed to list repositories for org " +:+ org +:+ ": "
                         +:+ ErrorText e)
       end.
Proof.
  unfold RealClient_ListOrgReposWithToken, bind, ret.
  rewrite createGitHubClient_sent. unfold provider_list. cbn.
  split; [reflexivity|]. split; [by repeat split|].
  rewrite all_pages_repos. destruct (pages_repos _); reflexivity.
Qed.

(** X17: ListUserReposWithToken with an empty token makes one request, to
    the public endpoint of the user, even when GITHUB_TOKEN is set. With a
    token it first asks who the token belongs to and lists the owned
    repositories only when that login is the user name; every other answer,
    an error included, leads to the public endpoint. *)
Theorem ListUserReposWithToken_endpoint (username token : string) (w : World) :
  let w' := snd (RealClient_ListUserReposWithToken username token w) in
  same_but_requests w w'
  /\ (token = "" ->
      w_requests w' = w_requests w ++ [(w_GITHUB_TOKEN w, ListByUser username)])
  /\ (token <> "" ->
      w_requests w'
      = w_requests w ++ [(token, GetUser);
                         (token,
                          match w_user w (w_requests w) token with
                          | inr (Some login) =>
                              if String.eqb login username then ListOwned
                              else ListByUser username
                          | _ => ListByUser username
                          end)]).
Proof.
  unfold RealClient_ListUserReposWithToken, bind, ret.
  rewrite createGitHubClient_sent. unfold sent_token.
  destruct (String.eqb_spec token "") as [->|Hne]; cbn [negb].
  - unfold provider_list. cbn.
    split; [by repeat split|]. split; [reflexivity | congruence].
  - unfold provider_user. cbn.
    destruct (w_user w (w_requests w) token) as [e|[login|]]; cbn.
    + split; [by repeat split|]. split; [congruence|].
      intros _. by rewrite <- app_assoc.
    + destruct (String.eqb login username); cbn.
      all: split; [by repeat split|]; split; [congruence|].
      all: intros _; by rewrite <- app_assoc.
    + split; [by repeat split|]. split; [congruence|].
      intros _. by rewrite <- app_assoc.
Qed.
(* --------------------------------------------------------------------- *)
(* RealGitHub: the keys of the result, and the cache in front of ListRepos *)
(* --------------------------------------------------------------------- *)

Section adapter_extras.
Variable client : Client.
Variable cache : Cache.
Variable config : GitHubConfig.
Variable refresh : bool.

Lemma dom_store_outcomes outs : forall m : gmap string (list GitHubRepo),
  dom (fold_left store_outcome outs m) ⊆ dom m ∪ list_to_set (map fst outs).
Proof.
  induction outs as [|[n oc] outs IH]; intros m; simpl.
  - apply union_subseteq_l.
  - etrans; [apply IH|]. unfold store_outcome. simpl.
    intros k. rewrite !elem_of_union, elem_of_singleton.
    destruct oc as [repos|]; [rewrite dom_insert, elem_of_union, elem_of_singleton|];
      tauto.
Qed.

Lemma personal_scope_small w :
  size (fst (personal_scope client cache config refresh ∅ w)) <= 1
  /\ (IncludePersonal config = false ->
      fst (personal_scope client cache config refresh ∅ w) = ∅).
Proof.
  unfold personal_scope, fetch_personal, bind, ret.
  assert (H0 : size (∅ : gmap string (list GitHubRepo)) <= 1)
    by (rewrite map_size_empty; lia).
  assert (H1 : forall k (v : list GitHubRepo),
            size (<[k := v]> (∅ : gmap string (list GitHubRepo))) <= 1).
  { intros k v. rewrite insert_empty, map_size_singleton. lia. }
  destruct (IncludePersonal config); [|by split].
  split; [|discriminate].
  repeat match goal with
  | |- context [let (_, _) := ?e in _] => destruct e as [? ?]
  | |- context [match ?e with Ok _ => _ | Err _ => _ end] => destruct e
  | |- context [if ?e then _ else _] => destruct e
  end; simpl; auto.
Qed.

(** X18: ListAllReposWithRefresh never returns an error, whatever the cache
    and the client answer. Every key of its map is the name of a configured
    scope or the one name the personal step stored; without include_personal
    every key is a configured scope. *)
Theorem ListAllReposWithRefresh_never_fails (w : World) :
  let personal :=
    personal_stored client cache config refresh (GetOrganizations config) w in
  exists results w',
    RealGitHub_ListAllReposWithRefresh client cache config refresh w = (Ok results, w')
    /\ (forall k, k ∈ dom results ->
          In k (map org_Name (GetOrganizations config)) \/ k ∈ dom personal)
    /\ size personal <= 1
    /\ (IncludePersonal config = false ->
        forall k, k ∈ dom results -> In k (map org_Name (GetOrganizations config))).
Proof.
  intros personal.
  unfold RealGitHub_ListAllReposWithRefresh, bind, ret.
  rewrite (range_outcomes client cache config refresh (GetOrganizations config) ∅ w).
  rewrite personal_scope_uniform.
  fold (personal_stored client cache config refresh (GetOrganizations config) w).
  fold personal.
  set (outs := loop_outcomes client cache config refresh (GetOrganizations config) w).
  assert (Hkeys : forall k, k ∈ dom (fold_left store_outcome outs ∅) ->
                            In k (map org_Name (GetOrganizations config))).
  { intros k Hk. apply dom_store_outcomes in Hk.
    rewrite dom_empty, (left_id ∅ (∪)) in Hk.
    apply elem_of_list_to_set in Hk. unfold outs in Hk.
    rewrite loop_outcomes_names in Hk. by apply list_elem_of_In. }
  destruct (personal_scope_small
              (snd (range (scope_body client cache config refresh)
                      (GetOrganizations config) ∅ w))) as [Hsize Hnone].
  eexists _, _. split; [reflexivity|]. split; [|split].
  - intros k Hk. rewrite dom_union in Hk. apply elem_of_union in Hk as [Hk|Hk];
      [by right | left; by apply Hkeys].
  - exact Hsize.
  - intros Hp k Hk. unfold personal, personal_stored in Hk.
    rewrite (Hnone Hp), (left_id_L ∅ (∪)) in Hk. by apply Hkeys.
Qed.
End adapter_extras.

Section ListRepos_extras.
Context `{Platform}.
Variable defaultToken : string.

Lemma RealCache_Get_hit_log w org repos w' :
  RealCache_Get org w = ((repos, true), w') ->
  last (w_log w') = Some (LevelDebug, "Cache hit").
Proof.
  unfold RealCache_Get. unfold bind at 1.
  destruct (getCacheFilePath org w) as [path w0].
  unfold bind, os_Stat, os_ReadFile, gets, stat, ret, time_Now, slog. simpl.
  destruct (String.eqb path ""); simpl; [discriminate|].
  destruct (w_fs w0 !! path) as [[|acc data]|] eqn:Hm; simpl;
    rewrite ?Hm; simpl; try discriminate.
  destruct acc; simpl; [|discriminate].
  destruct (json_Unmarshal data) as [cache|]; simpl; [|discriminate].
  destruct (Time_After _ _); simpl; [discriminate|].
  intros [= _ <-]. apply last_snoc.
Qed.

Lemma last_app_nonempty {A} (l1 l2 : list A) : l2 <> [] -> last (l1 ++ l2) = last l2.
Proof.
  intros Hne. destruct (exists_last Hne) as (l & x & ->).
  by rewrite app_assoc, !last_snoc.
Qed.

(** X19: when ListRepos has fetched a scope and its cache write was reported
    as done, and the stored document decodes to what was encoded, a second
    ListRepos within 30 minutes of every earlier clock reading returns the
    same repositories from the cache, without a provider request. *)
Theorem ListRepos_served_from_cache (org : string) (repos : list GitHubRepo)
    (w w1 : World) :
  RealGitHub_ListRepos (RealClient defaultToken) RealCache org w = (Ok repos, w1) ->
  last (w_log w1) = Some (LevelDebug, "Cache updated") ->
  (forall now data,
     json_MarshalIndent (entry_at now repos 30) = Some data ->
     json_Unmarshal data = Some (entry_at now repos 30)) ->
  (forall i, i < w_tick w1 ->
     (w_clock w1 (w_tick w1) <= w_clock w1 i + 30 * time_Minute)%Z) ->
  exists w2,
    RealGitHub_ListRepos (RealClient defaultToken) RealCache org w1 = (Ok repos, w2)
    /\ w_requests w2 = w_requests w1.
Proof.
  intros Hrun Hlast Hcodec Hsoon.
  unfold RealGitHub_ListRepos in Hrun. unfold bind at 1 in Hrun.
  cbn [cache_Get RealCache] in Hrun.
  pose proof (RealCache_Get_hit_log w org) as Hhit.
  destruct (RealCache_Get org w) as [[cached [|]] wa].
  { unfold ret in Hrun. injection Hrun as -> ->.
    rewrite (Hhit _ _ eq_refl) in Hlast. discriminate. }
  clear Hhit. unfold bind at 1 in Hrun.
  destruct (slog LevelDebug "Cache miss, fetching from GitHub API" wa) as [[] wb].
  unfold bind at 1 in Hrun. cbn [ListOrgRepos RealClient] in Hrun.
  destruct (RealClient_ListOrgReposWithToken org defaultToken wb) as [[repos0|err] wc];
    [|unfold ret in Hrun; discriminate].
  unfold bind at 1 in Hrun. cbn [cache_Set RealCache] in Hrun.
  pose proof (RealCache_Set_frame wc org repos0 30 _ eq_refl)
    as (_ & _ & _ & _ & _ & l & Hl & Hlog).
  pose proof (RealCache_Set_succeeded_inv wc org repos0 30 _ eq_refl) as Hinv.
  destruct (RealCache_Set org repos0 30 wc) as [[] wd]. cbn [snd] in *.
  unfold ret in Hrun. injection Hrun as -> ->.
  assert (Hs : Set_succeeded wc w1).
  { exists l. split; [exact Hlog|].
    by rewrite Hlog, last_app_nonempty in Hlast. }
  destruct (Hinv Hs) as (data & Hne & Hj & Hfile & Hhome & Hclock & Htick).
  assert (Hget : fst (RealCache_Get org w1) = (repos, true)).
  { change repos with (Repos (entry_at (next_reading wc) repos 30)).
    apply (RealCache_Get_hit w1 org data).
    - by rewrite (cache_file_home wc w1 org Hhome).
    - by rewrite (cache_file_home wc w1 org Hhome).
    - by apply Hcodec.
    - simpl. unfold Time_Add, next_reading.
      rewrite minutes_exact by (unfold max_timeout_minutes; lia).
      rewrite <- Hclock. apply Hsoon. lia. }
  pose proof (RealCache_Get_frame w1 org _ eq_refl) as (_ & _ & _ & Hreq & _).
  unfold RealGitHub_ListRepos. unfold bind at 1. cbn [cache_Get RealCache].
  destruct (RealCache_Get org w1) as [[cached' found] w2]. cbn [fst snd] in *.
  injection Hget as -> ->. exists w2. split; [reflexivity | exact Hreq].
Qed.
End ListRepos_extras.

Lemma ListRepos_served_from_cache_witness :
  exists w2,
    @RealGitHub_ListRepos (RealClient "t0ken")
      (@RealCache (unix "{fresh}" (entry_at t2024 [widgets_repo] 30)))
      "acme"
      (snd (@RealGitHub_ListRepos (RealClient "t0ken")
              (@RealCache (unix "{fresh}" (entry_at t2024 [widgets_repo] 30))) "acme"
              (acme_world (LastPage [widgets_repo]))))
    = (Ok [widgets_repo], w2)
    /\ w_requests w2
       = w_requests
           (snd (@RealGitHub_ListRepos (RealClient "t0ken")
                   (@RealCache (unix "{fresh}" (entry_at t2024 [widgets_repo] 30)))
                   "acme" (acme_world (LastPage [widgets_repo])))).
Proof.
  apply (@ListRepos_served_from_cache
           (unix "{fresh}" (entry_at t2024 [widgets_repo] 30)) "t0ken"
           "acme" [widgets_repo] (acme_world (LastPage [widgets_repo]))).
  - vm_compute. reflexivity.
  - vm_compute. reflexivity.
  - intros now data Hd. simpl in Hd.
    destruct (decide (entry_at now [widgets_repo] 30
                      = entry_at t2024 [widgets_repo] 30)) as [E|]; [|discriminate].
    injection Hd as <-. rewrite E. vm_compute. reflexivity.
  - intros i Hi. vm_compute. congruence.
Defined.
(* --------------------------------------------------------------------- *)
(* The sessions of the catalog                                            *)
(* --------------------------------------------------------------------- *)

Section catalog_extras.
Context `{Platform}.

(** Induction over the two loops of listGitHub. *)
Lemma listGitHub_fold (I : list string * gmap string SeshSession -> Prop)
    l opts w sessions w' :
  listGitHub l opts w = (Ok sessions, w') ->
  I ([], ∅) ->
  (forall w0 alias scopeName repos repo acc,
     fetched_by l opts w !! scopeName = Some repos -> repo ∈ repos ->
     scope_alias l opts w scopeName alias ->
     I acc -> I (add_repo w0 (l_config l) alias scopeName acc repo)) ->
  I (OrderedIndex sessions, Directory sessions).
Proof.
  intros Hrun H0 Hstep.
  assert (Horg : forall w0 o repos repo acc,
            In o (GetOrganizations (l_config l)) ->
            fetched_by l opts w !! org_Name o = Some repos -> repo ∈ repos ->
            I acc ->
            I (add_repo w0 (l_config l) (scope_display o) (org_Name o) acc repo)).
  { intros w0 o repos repo acc Hin E Hr Hacc.
    apply (Hstep w0 _ _ repos repo acc E Hr); [|exact Hacc]. left. eauto. }
  assert (Hpers : forall w0 username repos repo acc,
            personal_name l opts w = Some username ->
            fetched_by l opts w !! username = Some repos -> repo ∈ repos ->
            I acc ->
            I (add_repo w0 (l_config l) username username acc repo)).
  { intros w0 username repos repo acc Hp E Hr Hacc.
    apply (Hstep w0 _ _ repos repo acc E Hr); [|exact Hacc]. by right. }
  clear Hstep. revert Hrun Horg Hpers.
  unfold listGitHub, fetched_by, personal_name.
  destruct (Nat.eqb (length (GetOrganizations (l_config l))) 0).
  { unfold bind, ret. destruct (slog _ _ w) as [[] w1]. by intros [= <- <-] _ _. }
  unfold bind at 1.
  destruct (gh_ListAllReposWithRefresh _ _ _ w) as [[allRepos|err] w1];
    [|unfold ret; discriminate].
  cbn [fst snd]. intros Hrun Horg Hpers.
  assert (Hrepos : forall w0 alias scopeName repos,
            (forall repo acc, repo ∈ repos -> I acc ->
               I (add_repo w0 (l_config l) alias scopeName acc repo)) ->
            forall acc, I acc ->
            I (fold_left (add_repo w0 (l_config l) alias scopeName) repos acc)).
  { intros w0 alias scopeName repos.
    induction repos as [|r rs IH]; intros Hin acc Hacc; simpl; [exact Hacc|].
    apply IH.
    - intros repo acc0 Hr. apply Hin. by right.
    - apply Hin; [by left | exact Hacc]. }
  assert (Horgs : forall orgs,
            (forall o, In o orgs -> In o (GetOrganizations (l_config l))) ->
            forall acc, I acc ->
            I (fold_left (add_org w1 (l_config l) allRepos) orgs acc)).
  { induction orgs as [|o orgs IH]; intros Hsub acc Hacc; simpl; [exact Hacc|].
    apply IH; [intros o' Ho'; apply Hsub; by right|]. unfold add_org.
    destruct (allRepos !! org_Name o) as [repos|] eqn:E; [|exact Hacc].
    apply Hrepos; [|exact Hacc].
    intros repo acc0 Hr Hacc0.
    apply (Horg w1 o repos repo acc0); auto. apply Hsub. by left. }
  unfold bind at 1, gets at 1 in Hrun.
  specialize (Horgs (GetOrganizations (l_config l)) (fun _ Ho => Ho) ([], ∅) H0).
  revert Hrun Horgs. generalize (fold_left (add_org w1 (l_config l) allRepos)
                                   (GetOrganizations (l_config l)) ([], ∅)).
  intros acc Hrun Hacc.
  unfold bind at 1 in Hrun.
  match type of Hrun with (let (a, w'0) := ?m w1 in _) = _ =>
    assert (Hp : I (fst (m w1))); [|destruct (m w1) as [acc' w2]] end.
  { revert Hpers.
    destruct (IncludePersonal (l_config l)); [|intros _; exact Hacc].
    unfold bind, ret, config_GetTokenForOrg, gets. cbn [fst snd].
    destruct (negb (String.eqb (GetTokenForOrg (l_config l) (w_GITHUB_TOKEN w1) "")
                      "")); [|intros _; exact Hacc].
    destruct (gh_GetAuthenticatedUsername _ _ w1) as [[username|err] w2];
      [|intros _; exact Hacc].
    cbn [fst]. intros Hpers.
    destruct (allRepos !! username) as [personalRepos|] eqn:E; [|exact Hacc].
    cbn [fst]. apply Hrepos; [|exact Hacc].
    intros repo acc0 Hr Hacc0.
    by apply (Hpers w2 username personalRepos repo acc0). }
  unfold ret in Hrun. injection Hrun as <- <-. simpl in *.
  destruct acc'. exact Hp.
Qed.

Lemma add_repo_session w config alias scopeName acc repo :
  add_repo w config alias scopeName acc repo = acc
  \/ (hidden repo = false
      /\ exists session,
           session_of config alias repo session
           /\ add_repo w config alias scopeName acc repo
              = (fst acc ++ [key_of scopeName repo],
                 <[key_of scopeName repo := session]> (snd acc))).
Proof.
  unfold add_repo, hidden, key_of. destruct acc as [orderedIndex directory].
  destruct (repo_Archived repo || repo_Disabled repo); [by left|].
  match goal with |- context [stat ?fs ?p] => destruct (stat fs p) as [e|] end;
    cbn [negb andb].
  - destruct (ShouldShowUncloned config) eqn:Hshow; cbn [negb]; [|by left].
    right. split; [reflexivity|]. eexists. split; [|reflexivity].
    unfold session_of, display_name, url_of, clone_command. cbn.
    split; [reflexivity|]. split; [reflexivity|]. right. by split.
  - right. split; [reflexivity|]. eexists. split; [|reflexivity].
    unfold session_of, display_name. cbn.
    split; [reflexivity|]. split; [reflexivity|]. by left.
Qed.

Lemma listGitHub_entries l opts w sessions w' :
  listGitHub l opts w = (Ok sessions, w') ->
  map_Forall (entry_of l opts w) (Directory sessions).
Proof.
  intros Hrun.
  apply (listGitHub_fold
           (fun acc => map_Forall (entry_of l opts w) (snd acc))
           l opts w sessions w' Hrun).
  - apply map_Forall_empty.
  - intros w0 alias scopeName repos repo acc E Hin Halias Hacc.
    destruct (add_repo_session w0 (l_config l) alias scopeName acc repo)
      as [-> | (Hlive & session & Hs & ->)]; [exact Hacc|].
    cbn [snd]. apply map_Forall_insert_2; [|exact Hacc].
    exists scopeName, alias, repos, repo. auto 10.
Qed.

(** X20: every session of the catalog listGitHub returns was made from a
    repository of the fetched map that is neither archived nor disabled,
    under the key github:<scope>/<repo>. Its source is github; its name is
    <alias>/<repo>, with the description in brackets where descriptions
    are shown, and the alias is that of a configured scope of that name
    (its display name, or its name where the display name is empty) or,
    for a repository of the personal step, the authenticated username
    itself. The session is either materialized (no startup command) or,
    only when uncloned repositories are shown, carries the command that
    clones the configured URL kind into its own path. *)
Theorem listGitHub_session_shape (l : RealLister) (opts : ListOptions)
    (w w' : World) (sessions : SeshSessions) :
  listGitHub l opts w = (Ok sessions, w') ->
  forall key s, Directory sessions !! key = Some s ->
    entry_of l opts w key s.
Proof.
  intros Hrun key s Hs. exact (listGitHub_entries l opts w sessions w' Hrun key s Hs).
Qed.

(* FindGitHubSession *)

Lemma find_named_Some directory keys name s :
  find_named directory keys name = Some s ->
  exists key, key ∈ keys /\ directory !! key = Some s /\ Name s = name.
Proof.
  induction keys as [|key keys IH]; simpl; [discriminate|].
  destruct (directory !! key) as [s'|] eqn:E.
  - destruct (String.eqb_spec (Name s') name) as [En|En].
    + intros [= <-]. exists key. split; [by left | auto].
    + intros Hf. destruct (IH Hf) as (k & Hk & Hl & Hn).
      exists k. split; [by right | auto].
  - intros Hf. destruct (IH Hf) as (k & Hk & Hl & Hn).
    exists k. split; [by right | auto].
Qed.

Lemma find_named_None directory keys name :
  find_named directory keys name = None ->
  forall key s, key ∈ keys -> directory !! key = Some s -> Name s <> name.
Proof.
  induction keys as [|key keys IH]; simpl; intros Hf k s Hk Hl.
  - by apply elem_of_nil in Hk.
  - apply elem_of_cons in Hk as [-> | Hk].
    + rewrite Hl in Hf. destruct (String.eqb_spec (Name s) name); [discriminate|done].
    + destruct (directory !! key) as [s'|]; [|by apply (IH Hf k s)].
      destruct (String.eqb (Name s') name); [discriminate | by apply (IH Hf k s)].
Qed.

Lemma FindGitHubSession_cases l name w sessions w1 :
  listGitHub l {| opt_GitHub := true; opt_Refresh := false |} w = (Ok sessions, w1) ->
  exists s found,
    FindGitHubSession l name w = ((s, found), w1)
    /\ (found = true ->
        exists key, Directory sessions !! key = Some s /\ (Name s = name \/ key = name))
    /\ (found = false ->
        forall key s', Directory sessions !! key = Some s' ->
                       Name s' <> name /\ key <> name).
Proof.
  intros Hrun.
  pose proof (listGitHub_inv (fun _ => True) l _ w sessions w1 Hrun
                (fun _ _ _ _ _ _ => I)) as [Hdom _].
  cbn [fst snd] in Hdom.
  unfold FindGitHubSession, bind, ret. rewrite Hrun.
  destruct (find_named (Directory sessions) (OrderedIndex sessions) name)
    as [s|] eqn:Hf.
  - apply find_named_Some in Hf as (key & _ & Hl & Hn).
    exists s, true. split; [reflexivity|]. split; [|discriminate]. eauto.
  - destruct (Directory sessions !! name) as [s|] eqn:Hk.
    + exists s, true. split; [reflexivity|]. split; [|discriminate]. eauto.
    + eexists _, false. split; [reflexivity|]. split; [discriminate|].
      intros _ key s' Hl. split.
      * apply (find_named_None _ _ _ Hf key s'); [|exact Hl].
        apply (elem_of_list_to_set (C := gset string)).
        rewrite <- Hdom. by apply elem_of_dom.
      * intros ->. congruence.
Qed.

(** X21: after a listing that succeeds, FindGitHubSession reports found
    exactly when some session of the catalog has the given display name or
    is stored under the given key, and the session it returns is such a
    session of the catalog; it leaves the world as the listing left it. *)
Theorem FindGitHubSession_sound_complete (l : RealLister) (name : string)
    (w w1 : World) (sessions : SeshSessions) :
  listGitHub l {| opt_GitHub := true; opt_Refresh := false |} w = (Ok sessions, w1) ->
  exists s found,
    FindGitHubSession l name w = ((s, found), w1)
    /\ (found = true ->
        exists key, Directory sessions !! key = Some s /\ (Name s = name \/ key = name))
    /\ (found = false ->
        forall key s', Directory sessions !! key = Some s' ->
                       Name s' <> name /\ key <> name).
Proof. apply FindGitHubSession_cases. Qed.

Lemma FindGitHubSession_found_shape l name w s w1 :
  FindGitHubSession l name w = ((s, true), w1) ->
  Src s = "github"
  /\ (StartupCommand s = ""
      \/ exists url, StartupCommand s = clone_command url (Path s)).
Proof.
  intros Hfind.
  destruct (listGitHub l {| opt_GitHub := true; opt_Refresh := false |} w)
    as [[sessions|err] w2] eqn:Hrun.
  2:{ unfold FindGitHubSession, bind, ret in Hfind. rewrite Hrun in Hfind.
      discriminate. }
  destruct (FindGitHubSession_cases l name w sessions w2 Hrun)
    as (s' & found & Hf & Hfound & _).
  rewrite Hf in Hfind. injection Hfind as -> -> ->.
  destruct (Hfound eq_refl) as (key & Hl & _).
  destruct (listGitHub_entries l _ w sessions w1 Hrun key s Hl)
    as (scopeName & alias & repos & repo & _ & _ & _ & _ & _ & Hsrc & _ & Hcmd).
  split; [exact Hsrc|].
  destruct Hcmd as [Hcmd | [_ Hcmd]]; [by left | right; eauto].
Qed.
End catalog_extras.

(* --------------------------------------------------------------------- *)
(* githubStrategy over the catalog                                        *)
(* --------------------------------------------------------------------- *)

Lemma clone_command_fields (url path : string) :
  exists rest,
    strings_Split (clone_command url path) " " = "git" :: "clone" :: rest
    /\ 2 <= length rest.
Proof.
  unfold clone_command.
  change ("git clone " +:+ url +:+ " " +:+ path +:+ " && cd " +:+ path)
    with ("git" +:+ String " " ("clone" +:+ String " "
            (url +:+ String " " (path +:+ " && cd " +:+ path)))).
  rewrite !strings_Split_sep by (unfold byte_free; simpl; intuition discriminate).
  rewrite strings_Split_app.
  eexists. split; [reflexivity|].
  rewrite length_app.
  pose proof (strings_Split_nonempty url " ").
  pose proof (strings_Split_nonempty (path +:+ " && cd " +:+ path) " ").
  destruct (strings_Split url " "); [congruence|].
  destruct (strings_Split (path +:+ " && cd " +:+ path) " "); [congruence|].
  simpl. lia.
Qed.

Section githubStrategy_extras.
Context `{Platform}.

Lemma githubStrategy_found (c : RealConnector) (name : string)
    (session : SeshSession) (w w1 : World) :
  lister_FindGitHubSession (c_lister c) name w = ((session, true), w1) ->
  (StartupCommand session = ""
   \/ exists url path, StartupCommand session = clone_command url path) ->
  match githubStrategy c name w with
  | (Ok conn, _) =>
      Found conn = true /\ New conn = true /\ AddToZoxide conn = true
      /\ Src (Session conn) = Src session /\ Name (Session conn) = Name session
      /\ StartupCommand (Session conn) = ""
  | (Err err, _) =>
      exists t, err = "failed to create parent directory: " +:+ t
                \/ err = "failed to clone repository: " +:+ t
  end.
Proof.
  intros Hfind Hcmd.
  unfold githubStrategy. unfold bind at 1. rewrite Hfind. cbn [negb].
  destruct Hcmd as [Hcmd | (url & path & Hcmd)]; rewrite Hcmd.
  - cbn. by destruct session; simpl in *; subst.
  - rewrite clone_command_is_clone.
    destruct (clone_command_fields url path) as (rest & -> & Hlen).
    destruct rest as [|repoURL [|clonePath rest]]; [simpl in Hlen; lia..|].
    cbn [length Nat.leb index nth String.eqb Ascii.eqb Bool.eqb andb].
    unfold bind at 1.
    destruct (os_MkdirAll (filepath_Dir clonePath) w1) as [[e|] w2].
    { unfold ret. eauto. }
    unfold bind at 1, os_Stat at 1, gets at 1.
    destruct (os_IsNotExist (stat (w_fs w2) clonePath)).
    + unfold bind, ret.
      destruct (git_Clone (c_git c) repoURL (filepath_Dir clonePath)
                  (filepath_Base clonePath) w2) as [[out|err] w3]; cbn; eauto 10.
    + cbn. auto 10.
Qed.

(** X22: connecting through the catalog: whenever githubStrategy over the
    real lister returns a connection, either nothing was found, or the
    connection is flagged new and for the recency index and its session has
    source github and no startup command left, whatever the clone URL and
    path look like. Its only errors are the two it wraps: directory creation
    and clone. *)
Theorem githubStrategy_connects_materialized (l : RealLister) (git : Git)
    (name : string) (w : World) :
  match githubStrategy {| c_lister := lister_of l; c_git := git |} name w with
  | (Ok conn, _) =>
      (Found conn = false /\ New conn = false /\ AddToZoxide conn = false)
      \/ (Found conn = true /\ New conn = true /\ AddToZoxide conn = true
          /\ Src (Session conn) = "github"
          /\ StartupCommand (Session conn) = "")
  | (Err err, _) =>
      exists t, err = "failed to create parent directory: " +:+ t
                \/ err = "failed to clone repository: " +:+ t
  end.
Proof.
  set (c := {| c_lister := lister_of l; c_git := git |}).
  destruct (lister_FindGitHubSession (c_lister c) name w) as [[session found] w1]
    eqn:Hfind.
  destruct found.
  - pose proof (FindGitHubSession_found_shape l name w session w1 Hfind)
      as [Hsrc Hcmd].
    assert (Hcmd' : StartupCommand session = ""
                    \/ exists url path, StartupCommand session = clone_command url path).
    { destruct Hcmd as [Hcmd | [url Hcmd]]; [by left | right; eauto]. }
    pose proof (githubStrategy_found c name session w w1 Hfind Hcmd') as Hres.
    destruct (githubStrategy c name w) as [[conn|err] w']; [|exact Hres].
    right. destruct Hres as (Hf & Hn & Hz & Hs & _ & Hc).
    repeat split; auto. congruence.
  - unfold githubStrategy. unfold bind at 1. rewrite Hfind. cbn. by left.
Qed.
End githubStrategy_extras.

Lemma listGitHub_session_shape_witness :
  exists s,
    Directory studio_catalog !! "github:alpha/widgets" = Some s
    /\ Name s = "Alpha Team/widgets (Widget factory)"
    /\ entry_of (H := unix "{}" stale_entry) studio_lister github_options
         studio_world "github:alpha/widgets" s.
Proof.
  eexists. split; [vm_compute; reflexivity|]. split; [vm_compute; reflexivity|].
  apply (@listGitHub_session_shape (unix "{}" stale_entry) studio_lister
           github_options studio_world _ studio_catalog studio_run).
  vm_compute. reflexivity.
Defined.

Lemma FindGitHubSession_sound_complete_witness :
  exists s found,
    @FindGitHubSession (unix "{}" stale_entry) (acme_lister "")
      "github:acme/widgets" attic_world
    = ((s, found),
       snd (@listGitHub (unix "{}" stale_entry) (acme_lister "")
              github_options attic_world))
    /\ (found = true ->
        exists key, Directory attic_catalog !! key = Some s
                    /\ (Name s = "github:acme/widgets" \/ key = "github:acme/widgets"))
    /\ (found = false ->
        forall key s', Directory attic_catalog !! key = Some s' ->
                       Name s' <> "github:acme/widgets"
                       /\ key <> "github:acme/widgets").
Proof.
  apply (@FindGitHubSession_sound_complete (unix "{}" stale_entry) (acme_lister "")
           "github:acme/widgets" attic_world _ attic_catalog attic_run).
Defined.
(* --------------------------------------------------------------------- *)
(* The order and the completeness of the catalog                          *)
(* --------------------------------------------------------------------- *)

Section order_extras.
Context `{Platform}.

Lemma add_repo_shown w config alias scopeName acc repo :
  ShouldShowUncloned config = true ->
  fst (add_repo w config alias scopeName acc repo)
  = fst acc ++ (if hidden repo then [] else [key_of scopeName repo]).
Proof.
  intros Hshow. unfold add_repo, hidden, key_of. destruct acc as [orderedIndex directory].
  destruct (repo_Archived repo || repo_Disabled repo); [by rewrite app_nil_r|].
  rewrite Hshow. cbn [negb]. rewrite andb_false_r. reflexivity.
Qed.

Lemma add_repos_shown w config alias scopeName repos : forall acc,
  ShouldShowUncloned config = true ->
  fst (fold_left (add_repo w config alias scopeName) repos acc)
  = fst acc
    ++ map (key_of scopeName) (List.filter (fun repo => negb (hidden repo)) repos).
Proof.
  induction repos as [|repo repos IH]; intros acc Hshow; simpl;
    [by rewrite app_nil_r|].
  rewrite IH, add_repo_shown, <- app_assoc by assumption.
  by destruct (hidden repo).
Qed.

Lemma add_orgs_shown w config allRepos orgs : forall acc,
  ShouldShowUncloned config = true ->
  fst (fold_left (add_org w config allRepos) orgs acc)
  = fst acc ++ flat_map (fun o => live_keys allRepos (org_Name o)) orgs.
Proof.
  induction orgs as [|o orgs IH]; intros acc Hshow; simpl; [by rewrite app_nil_r|].
  rewrite IH by assumption. unfold add_org, live_keys.
  destruct (allRepos !! org_Name o) as [repos|]; [|reflexivity].
  rewrite add_repos_shown, <- app_assoc by assumption. reflexivity.
Qed.

(** X23: with uncloned repositories shown (the default), the index of the
    catalog lists every fetched repository of every configured scope that is
    neither archived nor disabled, scopes in configuration order and
    repositories in the order fetched; the keys of the personal step follow,
    and there are none without include_personal. *)
Theorem listGitHub_complete_by_default (l : RealLister) (opts : ListOptions)
    (w w' : World) (sessions : SeshSessions) :
  listGitHub l opts w = (Ok sessions, w') ->
  ShouldShowUncloned (l_config l) = true ->
  exists personal_keys,
    OrderedIndex sessions
    = flat_map (fun o => live_keys (fetched_by l opts w) (org_Name o))
        (GetOrganizations (l_config l))
      ++ personal_keys
    /\ (IncludePersonal (l_config l) = false -> personal_keys = []).
Proof.
  unfold listGitHub, fetched_by.
  destruct (Nat.eqb_spec (length (GetOrganizations (l_config l))) 0) as [Hn|Hn].
  { unfold bind, ret. destruct (slog _ _ w) as [[] w1]. intros [= <- <-] _.
    exists []. destruct (GetOrganizations (l_config l)); [by split | discriminate]. }
  unfold bind at 1.
  destruct (gh_ListAllReposWithRefresh _ _ _ w) as [[allRepos|err] w1];
    [|unfold ret; discriminate].
  simpl fst. intros Hrun Hshow.
  unfold bind at 1, gets at 1 in Hrun.
  pose proof (add_orgs_shown w1 (l_config l) allRepos
                (GetOrganizations (l_config l)) ([], ∅) Hshow) as Horgs.
  cbn [fst app] in Horgs.
  revert Hrun Horgs. generalize (fold_left (add_org w1 (l_config l) allRepos)
                                   (GetOrganizations (l_config l)) ([], ∅)).
  intros acc Hrun Hacc.
  unfold bind at 1 in Hrun.
  match type of Hrun with (let (a, w'0) := ?m w1 in _) = _ =>
    assert (Hp : exists keys, fst (fst (m w1)) = fst acc ++ keys
                 /\ (IncludePersonal (l_config l) = false -> keys = []));
      [|destruct (m w1) as [acc' w2]] end.
  { destruct (IncludePersonal (l_config l));
      [|exists []; by rewrite app_nil_r].
    unfold bind, ret, config_GetTokenForOrg, gets. simpl.
    destruct (negb _); [|exists []; by rewrite app_nil_r].
    destruct (gh_GetAuthenticatedUsername _ _ w1) as [[username|err] w2];
      [|exists []; by rewrite app_nil_r].
    destruct (allRepos !! username) as [personalRepos|] eqn:E;
      [|exists []; by rewrite app_nil_r].
    simpl. rewrite add_repos_shown by assumption. eexists. split; [reflexivity|].
    discriminate. }
  unfold ret in Hrun. injection Hrun as <- <-. simpl in *.
  destruct Hp as (keys & Hk & Hnone). exists keys. rewrite Hk, Hacc. auto.
Qed.
End order_extras.

Section real_adapter.
Context `{Platform}.
Variable client : Client.
Variable cache : Cache.

Lemma ListAllReposWithRefresh_Ok config refresh w :
  exists results w',
    RealGitHub_ListAllReposWithRefresh client cache config refresh w = (Ok results, w').
Proof.
  unfold RealGitHub_ListAllReposWithRefresh, bind, ret.
  destruct (range _ _ _ w) as [results w1].
  destruct (personal_scope client cache config refresh results w1) as [results' w2].
  eauto.
Qed.

(** X24: over the real adapter listGitHub never fails and neither does a
    lookup: provider, cache and file-system failures only make the catalog
    smaller, and FindGitHubSession then answers from that catalog. *)
Theorem listGitHub_never_fails (config : GitHubConfig) (opts : ListOptions)
    (name : string) (w : World) :
  let l := {| l_config := config; l_github := NewGitHub client cache |} in
  exists sessions w',
    listGitHub l opts w = (Ok sessions, w')
    /\ (opts = {| opt_GitHub := true; opt_Refresh := false |} ->
        exists s found,
          FindGitHubSession l name w = ((s, found), w')
          /\ (found = true -> exists key, Directory sessions !! key = Some s)).
Proof.
  intros l.
  assert (Hrun : exists sessions w', listGitHub l opts w = (Ok sessions, w')).
  { unfold listGitHub.
    destruct (Nat.eqb (length (GetOrganizations (l_config l))) 0).
    { unfold bind, ret. destruct (slog _ _ w) as [[] w1]. eauto. }
    unfold bind at 1. cbn [l_github l gh_ListAllReposWithRefresh NewGitHub].
    destruct (ListAllReposWithRefresh_Ok (l_config l) (opt_Refresh opts) w)
      as (allRepos & w1 & ->).
    unfold bind at 1, gets at 1. unfold bind at 1.
    match goal with |- context [let (a, w'0) := ?m w1 in _] =>
      destruct (m w1) as [acc' w2] end.
    unfold ret. eauto. }
  destruct Hrun as (sessions & w' & Hrun).
  exists sessions, w'. split; [exact Hrun|].
  intros ->.
  destruct (FindGitHubSession_cases l name w sessions w' Hrun)
    as (s & found & Hf & Hfound & _).
  exists s, found. split; [exact Hf|].
  intros Ht. destruct (Hfound Ht) as (key & Hl & _). eauto.
Qed.
End real_adapter.

Lemma listGitHub_complete_by_default_witness :
  exists personal_keys,
    OrderedIndex attic_catalog
    = flat_map (fun o => live_keys
                  (@fetched_by (unix "{}" stale_entry) (acme_lister "")
                     github_options attic_world) (org_Name o))
        (GetOrganizations (l_config (acme_lister "")))
      ++ personal_keys
    /\ (IncludePersonal (l_config (acme_lister "")) = false -> personal_keys = []).
Proof.
  apply (@listGitHub_complete_by_default (unix "{}" stale_entry) (acme_lister "")
           github_options attic_world _ attic_catalog attic_run).
  vm_compute. reflexivity.
Defined.
(* --------------------------------------------------------------------- *)
(* parseGitURL: deeper paths and parsed URLs                              *)
(* --------------------------------------------------------------------- *)

Lemma trim_right_last (sep c : ascii) (a : string) :
  c <> sep -> trim_right (a +:+ String c "") sep = a +:+ String c "".
Proof.
  intros Hc. induction a as [|x a IH].
  - simpl. destruct (Ascii.eqb_spec c sep); [contradiction | reflexivity].
  - rewrite append_cons. cbn [trim_right]. rewrite IH.
    destruct a; reflexivity.
Qed.

Lemma trim_left_first (sep c : ascii) (s : string) :
  c <> sep -> trim_left (String c s) sep = String c s.
Proof.
  intros Hc. simpl. destruct (Ascii.eqb_spec c sep); [contradiction | reflexivity].
Qed.

Section parse_extras.
Context `{Platform}.
Variable os_Getwd : M string.
Variable url_Parse : string -> result (string * string).

(** X25: of an SSH reference with more than two path segments, as for nested
    groups, parseGitURL keeps the first two: git@host:owner/sub/rest.git
    gives owner and sub, and the rest plays no part. *)
Theorem parseGitURL_ssh_nested (host org sub rest : string) :
  is_name host = true -> is_name org = true -> is_name sub = true ->
  byte_free ":" rest ->
  parseGitURL url_Parse
    ("git@" +:+ host +:+ ":" +:+ org +:+ "/" +:+ sub +:+ "/" +:+ rest +:+ ".git")
  = Returns (Ok (host, org, sub)).
Proof.
  intros Hh Ho Hs Hr. unfold parseGitURL.
  rewrite HasPrefix_append.
  rewrite <- (append_assoc "git@" host).
  change (":" +:+ ?x) with (String ":" x).
  rewrite strings_Split_sep.
  2:{ rewrite byte_free_app. split.
      - unfold byte_free. simpl. intuition discriminate.
      - by apply is_name_byte_free. }
  rewrite strings_Split_free.
  2:{ rewrite !byte_free_app. repeat split.
      - by apply is_name_byte_free.
      - unfold byte_free. simpl. intuition discriminate.
      - by apply is_name_byte_free.
      - unfold byte_free. simpl. intuition discriminate.
      - exact Hr.
      - unfold byte_free. simpl. intuition discriminate. }
  cbn [length Nat.eqb negb index nth].
  change ("git@" +:+ host) with ("git" +:+ String "@" host).
  rewrite strings_Split_sep by (unfold byte_free; simpl; intuition discriminate).
  rewrite strings_Split_free by (by apply is_name_byte_free).
  replace (org +:+ "/" +:+ sub +:+ "/" +:+ rest +:+ ".git")
    with ((org +:+ "/" +:+ sub +:+ "/" +:+ rest) +:+ ".git")
    by (by rewrite !append_assoc).
  rewrite strings_TrimSuffix_app.
  change (org +:+ "/" +:+ sub +:+ "/" +:+ rest)
    with (org +:+ String "/" (sub +:+ String "/" rest)).
  rewrite !strings_Split_sep by (by apply is_name_byte_free).
  pose proof (strings_Split_nonempty rest "/").
  destruct (strings_Split rest "/"); [congruence | reflexivity].
Qed.

Lemma parseGitURL_parsed (gitURL host org repo : string) :
  strings_HasPrefix gitURL "git@" = false ->
  url_Parse gitURL = Ok (host, "/" +:+ org +:+ "/" +:+ repo +:+ ".git") ->
  is_name org = true -> is_name repo = true ->
  parseGitURL url_Parse gitURL = Returns (Ok (host, org, repo)).
Proof.
  intros Hp Hu Ho Hr. unfold parseGitURL. rewrite Hp, Hu.
  assert (Htrim : strings_Trim ("/" +:+ org +:+ "/" +:+ repo +:+ ".git") "/"
                  = org +:+ "/" +:+ repo +:+ ".git").
  { unfold strings_Trim.
    change ("/" +:+ ?x) with (String "/" x) at 1.
    cbn [trim_left]. rewrite Ascii.eqb_refl.
    destruct org as [|c org]; [discriminate|].
    assert (Hc : c <> "/"%char).
    { intros ->. apply (is_name_byte_free "/" _ eq_refl Ho). by left. }
    rewrite append_cons, trim_left_first by exact Hc.
    rewrite <- append_cons.
    replace (String c org +:+ "/" +:+ repo +:+ ".git")
      with ((String c org +:+ "/" +:+ repo +:+ ".gi") +:+ String "t" "")
      by (by rewrite !append_assoc).
    by apply trim_right_last. }
  rewrite Htrim.
  change ("/" +:+ ?x) with (String "/" x).
  rewrite strings_Split_sep by (by apply is_name_byte_free).
  rewrite strings_Split_free.
  2:{ rewrite byte_free_app. split; [by apply is_name_byte_free|].
      unfold byte_free. simpl. intuition discriminate. }
  cbn [length Nat.leb index nth]. by rewrite strings_TrimSuffix_app.
Qed.

(** X26: for a reference that is no GitHub shorthand and that net/url parses
    into a non-empty host and the path /owner/repo.git, owner and repo
    being names over [a-zA-Z0-9._-], without an explicit destination, Clone makes the directory root/host/owner, with root the
    clone directory (~/git without one) after expandHome; when that
    succeeds it runs git clone of the reference as given there with repo as
    the leaf directory, and then the connector on root/host/owner/repo, the
    only path it returns; when making the directory fails it returns the
    create-directory error and runs neither. It never panics. *)
Theorem Clone_parsed_url_destination (c : RealCloner) (gitURL host org repo : string)
    (w : World) :
  IsGitHubShorthand gitURL = false ->
  strings_HasPrefix gitURL "git@" = false ->
  url_Parse gitURL = Ok (host, "/" +:+ org +:+ "/" +:+ repo +:+ ".git") ->
  host <> "" ->
  is_name org = true -> is_name repo = true ->
  let root :=
    fst (RealCloner_expandHome
           (if String.eqb (CloneDir (cl_config c)) "" then "~/git"
            else CloneDir (cl_config c)) w) in
  let parent := root +:+ "/" +:+ host +:+ "/" +:+ org in
  (forall w1, os_MkdirAll parent w = (None, w1) ->
     Clone os_Getwd url_Parse c (clone_of gitURL) w
     = clone_and_attach c gitURL parent repo w1)
  /\ (forall err w1, os_MkdirAll parent w = (Some err, w1) ->
       exists cause,
         Clone os_Getwd url_Parse c (clone_of gitURL) w
         = (Returns (Err ("failed to create directory " +:+ parent
                            +:+ ": " +:+ cause)), w1))
  /\ fst (Clone os_Getwd url_Parse c (clone_of gitURL) w) <> Panics
  /\ forall path,
       fst (Clone os_Getwd url_Parse c (clone_of gitURL) w) = Returns (Ok path) ->
       path = root +:+ "/" +:+ host +:+ "/" +:+ org +:+ "/" +:+ repo.
Proof.
  intros Hs Hp Hu Hh Ho Hr root parent.
  assert (Hres : resolve url_Parse c (clone_of gitURL) w
                 = (Returns (Ok (gitURL,
                      {| Repo := gitURL; CmdDir := parent; Dir := repo |})), w)).
  { unfold resolve, clone_of. cbn [Repo CmdDir Dir]. rewrite Hs.
    change (String.eqb "" "" && String.eqb "" "") with true. cbv iota.
    rewrite (parseGitURL_parsed gitURL host org repo Hp Hu Ho Hr).
    apply is_name_nonempty in Ho as Ho', Hr as Hr'.
    apply String.eqb_neq in Hh, Ho', Hr'. rewrite Hh, Ho', Hr'. cbn [negb andb].
    unfold bind, ret. subst parent root.
    set (cloneDir := if String.eqb (CloneDir (cl_config c)) "" then "~/git"
                     else CloneDir (cl_config c)).
    assert (Hw : snd (RealCloner_expandHome cloneDir w) = w).
    { unfold RealCloner_expandHome, os_UserHomeDir, gets, bind, ret.
      destruct (strings_HasPrefix cloneDir "~/"); [|reflexivity].
      destruct (w_home w); reflexivity. }
    destruct (RealCloner_expandHome cloneDir w) as [root w1]. cbn [fst snd] in *.
    subst w1.
    change (strings_Join [root; host; org; repo] "/")
      with (root +:+ "/" +:+ host +:+ "/" +:+ org +:+ "/" +:+ repo).
    replace (root +:+ "/" +:+ host +:+ "/" +:+ org +:+ "/" +:+ repo)
      with ((root +:+ "/" +:+ host +:+ "/" +:+ org) +:+ "/" +:+ repo)
      by (by rewrite !append_assoc).
    rewrite split_clone_path_app; [reflexivity | | by apply is_name_byte_free].
    intros E. apply (f_equal String.length) in E.
    rewrite !length_append in E. simpl in E. lia. }
  destruct (Clone_destination os_Getwd url_Parse c _ _ _ w w Hres)
    as (Hgit & Hfail & Hnp & Hret); cbn [CmdDir Dir] in *.
  { intros E'. apply (f_equal String.length) in E'. unfold parent in E'.
    rewrite !length_append in E'. simpl in E'. lia. }
  { by apply is_name_nonempty. }
  split; [exact Hgit|]. split; [exact Hfail|]. split; [exact Hnp|].
  intros path Hpa. apply Hret in Hpa. rewrite Hpa. unfold parent.
  by rewrite !append_assoc.
Qed.
End parse_extras.

Lemma parseGitURL_ssh_nested_witness :
  parseGitURL no_url_Parse "git@gitlab.com:team/platform/tools/app.git"
  = Returns (Ok ("gitlab.com", "team", "platform")).
Proof.
  apply (parseGitURL_ssh_nested no_url_Parse "gitlab.com" "team" "platform" "tools/app");
    try (vm_compute; reflexivity).
  unfold byte_free. vm_compute. intuition discriminate.
Defined.

Lemma Clone_parsed_url_destination_witness :
  fst (@Clone (unix "{}" stale_entry) demo_Getwd gitlab_url_Parse demo_cloner
         (clone_of "https://gitlab.com/team/app.git") occupied_world)
  = fst (clone_and_attach demo_cloner "https://gitlab.com/team/app.git"
           "/home/u/git/gitlab.com/team" "app"
           (snd (@os_MkdirAll (unix "{}" stale_entry)
                   "/home/u/git/gitlab.com/team" occupied_world)))
  /\ fst (@Clone (unix "{}" stale_entry) demo_Getwd gitlab_url_Parse demo_cloner
            (clone_of "https://gitlab.com/team/app.git") occupied_world)
     = Returns (Ok "/home/u/git/gitlab.com/team/app").
Proof.
  destruct (@Clone_parsed_url_destination (unix "{}" stale_entry) demo_Getwd
              gitlab_url_Parse demo_cloner "https://gitlab.com/team/app.git"
              "gitlab.com" "team" "app" occupied_world)
    as (Hgit & _); try (vm_compute; reflexivity); [discriminate|].
  rewrite (Hgit (snd (@os_MkdirAll (unix "{}" stale_entry)
                        "/home/u/git/gitlab.com/team" occupied_world)))
    by (vm_compute; reflexivity).
  split; [reflexivity | vm_compute; reflexivity].
Defined.
